(** * iCode PTY manager: sessions, replay buffer and the WebSocket protocol

    A shallow embedding of the server-side PTY manager ([pty.ts]): the
    global session store, [spawnSession], and the per-connection closure
    [handleConnection] with its [detach], [attach] and [selectProject]
    functions and its "message" and "close" handlers.

    JavaScript runs every handler to completion, so one handler invocation
    is one atomic transition of the model.  The only suspension point in
    the file is [await isDirectory(cwd)] inside [selectProject]; the code
    after it is a separate transition. *)

From stdpp Require Import gmap list strings.
From Stdlib Require Import ZArith Lia.

Local Open Scope Z_scope.

(** ** Strings

    A JavaScript string is a sequence of UTF-16 code units. *)

Abbreviation code_unit := N (only parsing).
Abbreviation jsstring := (list N) (only parsing).

Definition of_ascii (s : string) : jsstring :=
  map Ascii.N_of_ascii (String.list_ascii_of_string s).

(** [s.length] *)
Definition jslength (s : jsstring) : Z := Z.of_nat (length s).

(** [s.slice(start)] *)
Definition slice (s : jsstring) (start : Z) : jsstring :=
  let len := jslength s in
  let from := if start <? 0 then Z.max (len + start) 0 else Z.min start len in
  drop (Z.to_nat from) s.

(** ** The replay buffer *)

Definition REPLAY_BUFFER_SIZE : Z := 64 * 1024.

(** [REPLAY_BUFFER_SIZE * 1.5]; the product is the integer 98304, which a
    double represents exactly. *)
Definition REPLAY_TRIM_THRESHOLD : Z := REPLAY_BUFFER_SIZE * 3 / 2.

(** The body of the [proc.onData] callback installed by [spawnSession],
    as a function of the old buffer and the chunk. *)
Definition buffer_onData (buffer data : jsstring) : jsstring :=
  let buffer := buffer ++ data in
  if REPLAY_TRIM_THRESHOLD <? jslength buffer
  then slice buffer (- REPLAY_BUFFER_SIZE)
  else buffer.

(** ** [parseInt(s, 10)]

    Modelled from the ECMAScript definition of [parseInt] with radix 10:
    leading white space is skipped, one sign is accepted, the longest
    prefix of decimal digits is read and whatever follows is ignored.
    The result is a Number: NaN when there is no digit, otherwise the
    double nearest to the integer read, ties to even, or an infinity when
    that integer is beyond the doubles.  (For more than 20 significant
    digits the standard lets an implementation approximate; the value
    taken here is the correctly rounded one, as V8 computes it.) *)

(** The Number values that [parseInt] can return.  [Num z] is the double
    whose value is the integer [z]; the two zeros are one value here,
    the handler only compares the result with 0. *)
Inductive number :=
  | NaN
  | Num (z : Z)
  | PosInfinity
  | NegInfinity.

(** The Number value for an integer: exact up to 2^53 in magnitude,
    beyond that the 53 leading bits are kept and the rest is rounded to
    nearest, ties to even; from 2^1024 on the result is an infinity. *)
Definition number_of_Z (z : Z) : number :=
  let a := Z.abs z in
  if a <? 2 ^ 53 then Num z
  else
    let shift := Z.log2 a - 52 in
    let q := Z.shiftr a shift in
    let rest := Z.land a (Z.ones shift) in
    let half := Z.shiftl 1 (shift - 1) in
    let q := if (half <? rest) || ((rest =? half) && Z.odd q) then q + 1 else q in
    let r := Z.shiftl q shift in
    if 2 ^ 1024 <=? r then (if z <? 0 then NegInfinity else PosInfinity)
    else Num (if z <? 0 then - r else r).

(** [x > 0] for a Number [x]. *)
Definition gt_zero (x : number) : bool :=
  match x with
  | NaN => false
  | Num z => 0 <? z
  | PosInfinity => true
  | NegInfinity => false
  end.

Definition is_white_space (c : code_unit) : bool :=
  bool_decide (c ∈ [9; 10; 11; 12; 13; 32; 160; 5760; 8232; 8233; 8239; 8287;
                    12288; 65279]%N)
  || ((8192 <=? c)%N && (c <=? 8202)%N).

Fixpoint trim_start (s : jsstring) : jsstring :=
  match s with
  | c :: r => if is_white_space c then trim_start r else s
  | [] => []
  end.

Definition digit_value (c : code_unit) : option Z :=
  if ((48 <=? c) && (c <=? 57))%N then Some (Z.of_N c - 48) else None.

Fixpoint digits_prefix (s : jsstring) : list Z :=
  match s with
  | c :: r => match digit_value c with
              | Some d => d :: digits_prefix r
              | None => []
              end
  | [] => []
  end.

Definition digits_to_Z (ds : list Z) : Z :=
  foldl (fun acc d => acc * 10 + d) 0 ds.

Definition parseInt10 (s : jsstring) : number :=
  let s := trim_start s in
  let '(sign, s) :=
    match s with
    | c :: r => if (c =? 45)%N then (-1, r)
                else if (c =? 43)%N then (1, r) else (1, s)
    | [] => (1, s)
    end in
  match digits_prefix s with
  | [] => NaN
  | ds => number_of_Z (sign * digits_to_Z ds)
  end.

(** [parseInt(parts[i], 10)] where [parts[i]] may be [undefined]:
    [ToString(undefined)] is the string "undefined". *)
Definition parseInt10_arg (o : option jsstring) : number :=
  match o with
  | Some s => parseInt10 s
  | None => parseInt10 (of_ascii "undefined"%string)
  end.

(** [s.split(",")] *)
Fixpoint split_comma (s : jsstring) : list jsstring :=
  match s with
  | [] => [[]]
  | c :: r =>
      if (c =? 44)%N then [] :: split_comma r
      else match split_comma r with
           | p :: ps => (c :: p) :: ps
           | [] => [[c]]
           end
  end.

(** ** Input filtering: [payload.replace(/\x1b\[[IO]/g, empty)]

    A global replace scans left to right and resumes after each match. *)
Fixpoint replace_focus (s : jsstring) : jsstring :=
  match s with
  | [] => []
  | a :: t =>
      match t with
      | b :: c :: r =>
          if ((a =? 27) && (b =? 91) && ((c =? 73) || (c =? 79)))%N
          then replace_focus r
          else a :: replace_focus t
      | _ => a :: replace_focus t
      end
  end.

(** ** Objects

    Sessions and connections are mutable objects that closures capture by
    reference, so the model keeps them in stores and passes identities
    around: [sid] names a [Session] object, [conn] names one invocation
    of [handleConnection] (its [ws] and its two local variables). *)

Abbreviation sid := nat (only parsing).
Abbreviation conn := nat (only parsing).

(** The messages passed to [sendControl]. *)
Inductive ErrorText :=
  | NotAValidDirectory (cwd : jsstring)      (* `Not a valid directory: ${cwd}` *)
  | FailedToStart (err : jsstring).          (* `Failed to start: ${err}` *)

Inductive Control :=
  | Ready
  | Spawned (cwd : jsstring) (pid : Z)
  | Attached (cwd : jsstring) (pid : Z)
  | Exited (code : Z) (cwd : jsstring)
  | Error (message : ErrorText).

(** What [ws.send] is called with: raw output, or ["\x01" + JSON]. *)
Inductive Frame :=
  | Raw (data : jsstring)
  | Ctl (msg : Control).

(** The callbacks registered on a pty.  node-pty (a dependency, not part
    of this repository) keeps the callbacks of an event in an array, in
    registration order; the [IDisposable] that a registration returns
    removes its own callback. *)
Inductive DataListener :=
  | BufferOutput                  (* spawnSession: proc.onData *)
  | ForwardOutput (c : conn).     (* attach: session.pty.onData *)

Inductive ExitListener :=
  | SessionExit                   (* spawnSession: proc.onExit *)
  | NotifyExit (c : conn).        (* attach: session.pty.onExit *)

(** The calls the [IPty] interface offers to the server. *)
Inductive PtyCall :=
  | PtyWrite (data : jsstring)
  | PtyResize (cols rows : number)
  | PtyKill.

Record Pty := mkPty {
  pid : Z;
  running : bool;                              (* the child has not exited *)
  onData : list (nat * DataListener);
  onExit : list (nat * ExitListener);
  calls : list PtyCall                         (* calls received, oldest first *)
}.

Record Session := mkSession {
  pty : Pty;
  cwd : jsstring;
  buffer : jsstring;
  alive : bool
}.

Inductive Disposable :=
  | DisposeData (s : sid) (id : nat)
  | DisposeExit (s : sid) (id : nat).

Record Conn := mkConn {
  currentSession : option sid;
  disposables : list Disposable;
  readyOpen : bool;                            (* ws.readyState === ws.OPEN *)
  sent : list Frame                            (* frames given to ws.send *)
}.

(** The outcome of [pty.spawn], should [spawnSession] be reached. *)
Inductive SpawnResult :=
  | SpawnOk (pid : Z)
  | SpawnThrows (err : jsstring).

Record World := mkWorld {
  sessions : gmap (list N) nat;                (* the global Map cwd -> Session *)
  heap : gmap nat Session;                     (* Session objects *)
  conns : gmap nat Conn;                       (* handleConnection closures *)
  pending : list (nat * list N);               (* selectProject calls awaiting isDirectory *)
  next_listener : nat;
  next_session : nat
}.

Definition initial : World := mkWorld ∅ ∅ ∅ [] 0 0.

(** *** Field updates *)

Definition pty_with_onData (f : list (nat * DataListener) → list (nat * DataListener)) (p : Pty) : Pty :=
  mkPty (pid p) (running p) (f (onData p)) (onExit p) (calls p).
Definition pty_with_onExit (f : list (nat * ExitListener) → list (nat * ExitListener)) (p : Pty) : Pty :=
  mkPty (pid p) (running p) (onData p) (f (onExit p)) (calls p).
Definition pty_call (k : PtyCall) (p : Pty) : Pty :=
  mkPty (pid p) (running p) (onData p) (onExit p) (calls p ++ [k]).
Definition pty_stop (p : Pty) : Pty :=
  mkPty (pid p) false (onData p) (onExit p) (calls p).

Definition with_pty (f : Pty → Pty) (se : Session) : Session :=
  mkSession (f (pty se)) (cwd se) (buffer se) (alive se).
Definition with_buffer (f : jsstring → jsstring) (se : Session) : Session :=
  mkSession (pty se) (cwd se) (f (buffer se)) (alive se).
Definition with_alive (b : bool) (se : Session) : Session :=
  mkSession (pty se) (cwd se) (buffer se) b.

Definition with_currentSession (o : option sid) (k : Conn) : Conn :=
  mkConn o (disposables k) (readyOpen k) (sent k).
Definition with_disposables (f : list Disposable → list Disposable) (k : Conn) : Conn :=
  mkConn (currentSession k) (f (disposables k)) (readyOpen k) (sent k).
Definition with_readyOpen (b : bool) (k : Conn) : Conn :=
  mkConn (currentSession k) (disposables k) b (sent k).
Definition with_sent (f : list Frame → list Frame) (k : Conn) : Conn :=
  mkConn (currentSession k) (disposables k) (readyOpen k) (f (sent k)).

Definition upd_session (s : sid) (f : Session → Session) (w : World) : World :=
  mkWorld (sessions w) (alter f s (heap w)) (conns w) (pending w)
          (next_listener w) (next_session w).
Definition upd_conn (c : conn) (f : Conn → Conn) (w : World) : World :=
  mkWorld (sessions w) (heap w) (alter f c (conns w)) (pending w)
          (next_listener w) (next_session w).
Definition with_sessions (f : gmap (list N) nat → gmap (list N) nat) (w : World) : World :=
  mkWorld (f (sessions w)) (heap w) (conns w) (pending w)
          (next_listener w) (next_session w).
Definition with_pending (f : list (nat * list N) → list (nat * list N)) (w : World) : World :=
  mkWorld (sessions w) (heap w) (conns w) (f (pending w))
          (next_listener w) (next_session w).
Definition fresh_listener (w : World) : nat * World :=
  (next_listener w,
   mkWorld (sessions w) (heap w) (conns w) (pending w)
           (S (next_listener w)) (next_session w)).

(** *** Reading a connection's variables *)

Definition conn_open (c : conn) (w : World) : bool :=
  match conns w !! c with
  | Some k => readyOpen k
  | None => false
  end.

Definition conn_session (c : conn) (w : World) : option sid :=
  k ← conns w !! c; currentSession k.

Definition conn_sent (c : conn) (w : World) : list Frame :=
  match conns w !! c with
  | Some k => sent k
  | None => []
  end.

(** [currentSession?.alive]: the attached session, when it is alive *)
Definition conn_live_session (c : conn) (w : World) : option sid :=
  s ← conn_session c w;
  se ← heap w !! s;
  if alive se then Some s else None.

(** ** The server's functions *)

(** [ws.send(x)] *)
Definition ws_send (c : conn) (f : Frame) (w : World) : World :=
  upd_conn c (with_sent (λ l, l ++ [f])) w.

Definition sendControl (c : conn) (msg : Control) (w : World) : World :=
  if conn_open c w then ws_send c (Ctl msg) w else w.

(** An [IDisposable] splices out the first array slot holding its own
    callback; callbacks are told apart by the identity given at
    registration. *)
Fixpoint remove_listener {A} (id : nat) (l : list (nat * A)) : list (nat * A) :=
  match l with
  | [] => []
  | (i, x) :: r => if decide (i = id) then r else (i, x) :: remove_listener id r
  end.

Definition dispose (d : Disposable) (w : World) : World :=
  match d with
  | DisposeData s id => upd_session s (with_pty (pty_with_onData (remove_listener id))) w
  | DisposeExit s id => upd_session s (with_pty (pty_with_onExit (remove_listener id))) w
  end.

Definition dispose_all (ds : list Disposable) (w : World) : World :=
  foldl (λ w d, dispose d w) w ds.

Definition conn_disposables (c : conn) (w : World) : list Disposable :=
  match conns w !! c with
  | Some k => disposables k
  | None => []
  end.

Definition detach (c : conn) (w : World) : World :=
  let w := dispose_all (conn_disposables c w) w in
  let w := upd_conn c (with_disposables (λ _, [])) w in
  upd_conn c (with_currentSession None) w.

(** The body of [attach] after its call to [detach]. *)
Definition subscribe (c : conn) (s : sid) (w : World) : World :=
  let w := upd_conn c (with_currentSession (Some s)) w in
  let '(i, w) := fresh_listener w in
  let w := upd_session s (with_pty (pty_with_onData (λ l, l ++ [(i, ForwardOutput c)]))) w in
  let w := upd_conn c (with_disposables (λ l, l ++ [DisposeData s i])) w in
  let '(j, w) := fresh_listener w in
  let w := upd_session s (with_pty (pty_with_onExit (λ l, l ++ [(j, NotifyExit c)]))) w in
  upd_conn c (with_disposables (λ l, l ++ [DisposeExit s j])) w.

Definition attach (c : conn) (s : sid) (w : World) : World :=
  subscribe c s (detach c w).

(** [spawnSession(cwd)] when [pty.spawn] returns a process with [pid]. *)
Definition spawnSession (cwd : jsstring) (pid : Z) (w : World) : sid * World :=
  let s := next_session w in
  let '(i, w) := fresh_listener w in
  let '(j, w) := fresh_listener w in
  let se := mkSession (mkPty pid true [(i, BufferOutput)] [(j, SessionExit)] [])
                      cwd [] true in
  (s, mkWorld (<[cwd := s]> (sessions w)) (<[s := se]> (heap w)) (conns w)
              (pending w) (next_listener w) (S (next_session w))).

(** [sessions.get(cwd)] followed by the test [existing && existing.alive] *)
Definition existing_alive (cwd : jsstring) (w : World) : option sid :=
  s ← sessions w !! cwd;
  se ← heap w !! s;
  if alive se then Some s else None.

(** [selectProject(cwd)] up to its [await]: the call is parked. *)
Definition selectProject_call (c : conn) (cwd : jsstring) (w : World) : World :=
  with_pending (λ l, l ++ [(c, cwd)]) w.

(** [selectProject(cwd)] from the point where [isDirectory] has answered. *)
Definition selectProject_resume (c : conn) (cwd : jsstring) (isdir : bool)
    (sp : SpawnResult) (w : World) : World :=
  if negb isdir then sendControl c (Error (NotAValidDirectory cwd)) w
  else
    match existing_alive cwd w with
    | Some s =>
        let w := attach c s w in
        let buf := match heap w !! s with Some se => buffer se | None => [] end in
        let w := if bool_decide (buf ≠ []) && conn_open c w
                 then ws_send c (Raw buf) w else w in
        let p := match heap w !! s with Some se => pid (pty se) | None => 0 end in
        sendControl c (Attached cwd p) w
    | None =>
        match sp with
        | SpawnThrows err => sendControl c (Error (FailedToStart err)) w
        | SpawnOk p =>
            let '(s, w) := spawnSession cwd p w in
            let w := attach c s w in
            sendControl c (Spawned cwd p) w
        end
    end.

(** *** Firing pty events: node-pty copies the callback array, then calls
    each callback in order. *)

Definition run_data_listener (s : sid) (data : jsstring) (w : World)
    (l : nat * DataListener) : World :=
  match l.2 with
  | BufferOutput => upd_session s (with_buffer (λ b, buffer_onData b data)) w
  | ForwardOutput c => if conn_open c w then ws_send c (Raw data) w else w
  end.

Definition run_exit_listener (s : sid) (cwd0 : jsstring) (exitCode : Z) (w : World)
    (l : nat * ExitListener) : World :=
  match l.2 with
  | SessionExit =>
      let w := upd_session s (with_alive false) w in
      with_sessions (delete cwd0) w
  | NotifyExit c =>
      let w := sendControl c (Exited exitCode cwd0) w in
      upd_conn c (with_currentSession None) w
  end.

Definition fire_data (s : sid) (data : jsstring) (w : World) : World :=
  match heap w !! s with
  | Some se => foldl (run_data_listener s data) w (onData (pty se))
  | None => w
  end.

(** The process has exited; then the exit callbacks run. *)
Definition fire_exit (s : sid) (exitCode : Z) (w : World) : World :=
  match heap w !! s with
  | Some se =>
      let w := upd_session s (with_pty pty_stop) w in
      foldl (run_exit_listener s (cwd se) exitCode) w (onExit (pty se))
  | None => w
  end.

(** [handleConnection(ws)]: fresh local variables, then the ready message. *)
Definition handleConnection (c : conn) (w : World) : World :=
  let w := mkWorld (sessions w) (heap w) (<[c := mkConn None [] true []]> (conns w))
                   (pending w) (next_listener w) (next_session w) in
  sendControl c Ready w.

(** [ws.on("close", ...)] *)
Definition on_close (c : conn) (w : World) : World :=
  let w := upd_conn c (with_readyOpen false) w in
  detach c w.

(** A fragment of [JSON.parse]: an object with the single member cwd
    whose value is a non-empty string without quote, backslash or control
    character, written without white space, as [JSON.stringify({ cwd })]
    prints a plain path.  Used to run the model on concrete frames. *)
Definition plain_char (c : code_unit) : bool :=
  ((32 <=? c) && negb (c =? 34) && negb (c =? 92))%N.

Definition parse_plain_cwd (payload : jsstring) : option jsstring :=
  let pre := [123; 34; 99; 119; 100; 34; 58; 34]%N in      (* the text up to the path *)
  let n := length pre in
  if bool_decide (take n payload = pre) then
    let rest := drop n payload in
    let body := take (length rest - 2) rest in
    if bool_decide (drop (length rest - 2) rest = [34; 125]%N)
       && forallb plain_char body && bool_decide (body ≠ [])
    then Some body else None
  else None.

Section Server.

(** [JSON.parse(payload).cwd] together with the handler's test [if (cwd)]:
    [None] when [JSON.parse] or the destructuring throws and when the
    member is absent or falsy, otherwise the member.  [JSON.parse] is the
    runtime's; the handler's annotation [{ cwd: string }] is taken at its
    word. *)
Variable JSON_parse_cwd : jsstring → option jsstring.

(** [ws.on("message", ...)] *)
Definition on_message (c : conn) (msg : jsstring) (w : World) : World :=
  match msg with
  | [] => w
  | prefix :: payload =>
      if (prefix =? 48)%N then
        match conn_live_session c w with
        | Some s =>
            let filtered := replace_focus payload in
            if bool_decide (filtered ≠ [])
            then upd_session s (with_pty (pty_call (PtyWrite filtered))) w
            else w
        | None => w
        end
      else if (prefix =? 49)%N then
        let parts := split_comma payload in
        let cols := parseInt10_arg (parts !! 0%nat) in
        let rows := parseInt10_arg (parts !! 1%nat) in
        match conn_live_session c w with
        | Some s =>
            if gt_zero cols && gt_zero rows
            then upd_session s (with_pty (pty_call (PtyResize cols rows))) w
            else w
        | None => w
        end
      else if (prefix =? 50)%N then
        match JSON_parse_cwd payload with
        | Some cwd => selectProject_call c cwd (detach c w)
        | None => w
        end
      else w
  end.

(** ** Transitions *)

(** One event is one handler run of the event loop.  [IsDirectory] is the
    resumption of a parked [selectProject(cwd)] with the answer of
    [isDirectory] and with what [pty.spawn] does should it be called. *)
Inductive Event :=
  | Connect (c : conn)                       (* a socket is accepted *)
  | Message (c : conn) (msg : jsstring)      (* ws "message" *)
  | IsDirectory (c : conn) (cwd : jsstring) (isdir : bool) (sp : SpawnResult)
  | Close (c : conn)                         (* ws "close" *)
  | Data (s : sid) (data : jsstring)         (* the pty emits output *)
  | Exit (s : sid) (exitCode : Z).           (* the process exits *)

Fixpoint remove_first {A} `{EqDecision A} (x : A) (l : list A) : list A :=
  match l with
  | [] => []
  | y :: r => if decide (y = x) then r else y :: remove_first x r
  end.

Definition handle (e : Event) (w : World) : World :=
  match e with
  | Connect c => handleConnection c w
  | Message c msg => on_message c msg w
  | IsDirectory c cwd isdir sp =>
      selectProject_resume c cwd isdir sp (with_pending (remove_first (c, cwd)) w)
  | Close c => on_close c w
  | Data s data => fire_data s data w
  | Exit s code => fire_exit s code w
  end.

Definition pty_running (s : sid) (w : World) : bool :=
  match heap w !! s with
  | Some se => running (pty se)
  | None => false
  end.

(** When the environment can deliver an event. *)
Definition enabled (e : Event) (w : World) : bool :=
  match e with
  | Connect c => bool_decide (conns w !! c = None)
  | Message c _ => conn_open c w
  | IsDirectory c cwd _ _ => bool_decide ((c, cwd) ∈ pending w)
  | Close c => conn_open c w
  | Data s _ => pty_running s w
  | Exit s _ => pty_running s w
  end.

Inductive step (w : World) (e : Event) : World → Prop :=
  | step_intro : enabled e w = true → step w e (handle e w).

Inductive steps : World → list Event → World → Prop :=
  | steps_nil w : steps w [] w
  | steps_cons w e w1 es w2 : step w e w1 → steps w1 es w2 → steps w (e :: es) w2.

Definition reachable (w : World) : Prop := ∃ es, steps initial es w.

(** Running a trace, for evaluation. *)
Fixpoint run (es : list Event) (w : World) : option World :=
  match es with
  | [] => Some w
  | e :: es => if enabled e w then run es (handle e w) else None
  end.

End Server.

(** ** Vocabulary of the properties *)

(** What a session is apart from who listens to it. *)
Definition session_core (se : Session) : Z * bool * list PtyCall * list N * list N * bool :=
  (pid (pty se), running (pty se), calls (pty se), cwd se, buffer se, alive se).

Definition data_listeners (s : sid) (w : World) : list (nat * DataListener) :=
  match heap w !! s with
  | Some se => onData (pty se)
  | None => []
  end.

Definition exit_listeners (s : sid) (w : World) : list (nat * ExitListener) :=
  match heap w !! s with
  | Some se => onExit (pty se)
  | None => []
  end.

Definition session_calls (s : sid) (w : World) : list PtyCall :=
  match heap w !! s with
  | Some se => calls (pty se)
  | None => []
  end.

(** The frames that the replay of a buffer puts on the wire. *)
Definition replay_frames (buf : jsstring) : list Frame :=
  if bool_decide (buf ≠ []) then [Raw buf] else [].

(** The process output carried by a list of frames. *)
Definition raw_bytes (fs : list Frame) : jsstring :=
  mjoin (map (λ f, match f with Raw d => d | Ctl _ => [] end) fs).

(** The chunks a session's process emits along a trace, and their
    concatenation. *)
Definition chunks (s : sid) (es : list Event) : list jsstring :=
  omap (λ e, match e with
             | Data s' d => if decide (s' = s) then Some d else None
             | _ => None
             end) es.

Definition published (s : sid) (es : list Event) : jsstring := mjoin (chunks s es).

(** Events in which connection [c] takes part, and the exit of session [s]. *)
Definition event_of_conn (c : conn) (e : Event) : bool :=
  match e with
  | Connect c' | Message c' _ | IsDirectory c' _ _ _ | Close c' => bool_decide (c' = c)
  | Data _ _ | Exit _ _ => false
  end.

Definition exit_of (s : sid) (e : Event) : bool :=
  match e with
  | Exit s' _ => bool_decide (s' = s)
  | _ => false
  end.

(** All the ways two handler sequences can be scheduled. *)
Fixpoint interleavings_fuel {A} (n : nat) (l1 l2 : list A) : list (list A) :=
  match n with
  | O => []
  | S n =>
      match l1, l2 with
      | [], _ => [l2]
      | _, [] => [l1]
      | x :: r1, y :: r2 =>
          map (cons x) (interleavings_fuel n r1 l2)
          ++ map (cons y) (interleavings_fuel n l1 r2)
      end
  end.

Definition interleavings {A} (l1 l2 : list A) : list (list A) :=
  interleavings_fuel (S (length l1 + length l2)) l1 l2.

(** *** Invariant of the reachable worlds *)

Inductive conn_shape (w : World) (c : conn) (k : Conn) : Prop :=
  | shape_idle :
      disposables k = [] → currentSession k = None → conn_shape w c k
  | shape_bound s i j se :
      disposables k = [DisposeData s i; DisposeExit s j] →
      heap w !! s = Some se →
      (i, ForwardOutput c) ∈ onData (pty se) →
      (j, NotifyExit c) ∈ onExit (pty se) →
      currentSession k = (if alive se then Some s else None) →
      conn_shape w c k.

Record wf (w : World) : Prop := mk_wf {
  wf_shape : ∀ c k, conns w !! c = Some k → conn_shape w c k;
  wf_data_owner : ∀ s se i c, heap w !! s = Some se →
      (i, ForwardOutput c) ∈ onData (pty se) →
      ∃ k, conns w !! c = Some k ∧ DisposeData s i ∈ disposables k;
  wf_exit_owner : ∀ s se j c, heap w !! s = Some se →
      (j, NotifyExit c) ∈ onExit (pty se) →
      ∃ k, conns w !! c = Some k ∧ DisposeExit s j ∈ disposables k;
  wf_data_head : ∀ s se, heap w !! s = Some se →
      ∃ i rest, onData (pty se) = (i, BufferOutput) :: rest
                ∧ Forall (λ e, ∃ c, e.2 = ForwardOutput c) rest;
  wf_exit_head : ∀ s se, heap w !! s = Some se →
      ∃ j rest, onExit (pty se) = (j, SessionExit) :: rest
                ∧ Forall (λ e, ∃ c, e.2 = NotifyExit c) rest;
  wf_data_ids : ∀ s se, heap w !! s = Some se →
      NoDup (onData (pty se)).*1
      ∧ Forall (λ e, (e.1 < next_listener w)%nat) (onData (pty se));
  wf_exit_ids : ∀ s se, heap w !! s = Some se →
      NoDup (onExit (pty se)).*1
      ∧ Forall (λ e, (e.1 < next_listener w)%nat) (onExit (pty se));
  wf_alive : ∀ s se, heap w !! s = Some se → alive se = running (pty se);
  wf_registry : ∀ key s, sessions w !! key = Some s →
      ∃ se, heap w !! s = Some se ∧ cwd se = key ∧ alive se = true;
  wf_registered : ∀ s se, heap w !! s = Some se → alive se = true →
      sessions w !! cwd se = Some s;
  wf_heap : ∀ s se, heap w !! s = Some se → (s < next_session w)%nat;
  wf_pending : ∀ c key, (c, key) ∈ pending w → is_Some (conns w !! c);
  wf_buffer : ∀ s se, heap w !! s = Some se →
      jslength (buffer se) ≤ REPLAY_TRIM_THRESHOLD;
  wf_no_kill : ∀ s se, heap w !! s = Some se → PtyKill ∉ calls (pty se)
}.

(** *** The specification's wording, for comparison *)

(** A resize field in the sense of the protocol table, an "ASCII decimal"
    number: one or more digits and nothing else. *)
Definition decimal_field (s : jsstring) : option Z :=
  if bool_decide (s ≠ []) && forallb (λ c, bool_decide (is_Some (digit_value c))) s
  then Some (digits_to_Z (digits_prefix s)) else None.

(** The bracketed-paste-mode toggles: CSI ? 2004 h and CSI ? 2004 l. *)
Definition PASTE_ON : jsstring := [27; 91; 63; 50; 48; 48; 52; 104]%N.
Definition PASTE_OFF : jsstring := [27; 91; 63; 50; 48; 48; 52; 108]%N.

Definition starts_with (p s : jsstring) : bool :=
  bool_decide (take (length p) s = p).

(** The payload with every bracketed-paste-mode toggle taken out. *)
Fixpoint strip_paste_toggles_from (skip : nat) (s : jsstring) : jsstring :=
  match s with
  | [] => []
  | a :: t =>
      match skip with
      | S n => strip_paste_toggles_from n t
      | O => if starts_with PASTE_ON s || starts_with PASTE_OFF s
             then strip_paste_toggles_from 7 t
             else a :: strip_paste_toggles_from 0 t
      end
  end.

Definition strip_paste_toggles (s : jsstring) : jsstring :=
  strip_paste_toggles_from 0 s.

(** A focus report: ESC [ I or ESC [ O, what the filter's pattern matches. *)
Definition focus_report (c : code_unit) : jsstring := [27; 91; c]%N.

Definition focus_free (s : jsstring) : Prop :=
  ∀ u v c, (c = 73 ∨ c = 79)%N → s ≠ u ++ focus_report c ++ v.

(** *** Changes that the invariant does not look at *)

Definition conn_sim (k k' : Conn) : Prop :=
  currentSession k' = currentSession k ∧ disposables k' = disposables k.

Definition session_sim (se se' : Session) : Prop :=
  onData (pty se') = onData (pty se) ∧ onExit (pty se') = onExit (pty se)
  ∧ running (pty se') = running (pty se) ∧ alive se' = alive se
  ∧ cwd se' = cwd se
  ∧ (buffer se' = buffer se ∨ jslength (buffer se') ≤ REPLAY_TRIM_THRESHOLD)
  ∧ (PtyKill ∉ calls (pty se) → PtyKill ∉ calls (pty se')).

Definition world_sim (w w' : World) : Prop :=
  sessions w' = sessions w ∧ pending w' = pending w
  ∧ next_listener w' = next_listener w ∧ next_session w' = next_session w
  ∧ (∀ s, option_Forall2 session_sim (heap w !! s) (heap w' !! s))
  ∧ (∀ c, option_Forall2 conn_sim (conns w !! c) (conns w' !! c)).

(** Two worlds with the same registry and the same sessions, listeners
    apart. *)
Definition same_core (w w' : World) : Prop :=
  sessions w' = sessions w ∧ next_session w' = next_session w
  ∧ ∀ s, session_core <$> heap w' !! s = session_core <$> heap w !! s.

(** The callbacks of connection [c] in a callback array. *)
Global Instance DataListener_eq_dec : EqDecision DataListener.
Proof. solve_decision. Defined.
Global Instance ExitListener_eq_dec : EqDecision ExitListener.
Proof. solve_decision. Defined.

Definition forwards_to (c : conn) (l : list (nat * DataListener)) : list (nat * DataListener) :=
  filter (λ e, e.2 = ForwardOutput c) l.

Definition notifies (c : conn) (l : list (nat * ExitListener)) : list (nat * ExitListener) :=
  filter (λ e, e.2 = NotifyExit c) l.

(** *** Concrete frames and worlds *)

(** The select frame that the client sends for a plain path. *)
Definition select_frame (path : string) : jsstring :=
  ([50; 123; 34; 99; 119; 100; 34; 58; 34] ++ of_ascii path ++ [34; 125])%N.

Definition exec (es : list Event) (w : World) : World :=
  foldl (λ w e, handle parse_plain_cwd e w) w es.

(** One client connected and attached to a freshly spawned session. *)
Definition demo_spawned : World :=
  exec [Connect 0; Message 0 (select_frame "/a");
        IsDirectory 0 (of_ascii "/a") true (SpawnOk 4242)] initial.

(** The same after the process printed "hello". *)
Definition demo_hello : World :=
  exec [Data 0 (of_ascii "hello")] demo_spawned.

(** *** Two selects for one key, in flight together *)

(** Where the select request of a connection stands: not yet received,
    parked at [await isDirectory], or run to its end. *)
Inductive select_phase := Unsent | Parked | Resumed.

Definition select_progress (key : jsstring) (n : sid) (c : conn) (ph : select_phase)
    (w : World) : Prop :=
  (∃ k, conns w !! c = Some k ∧ readyOpen k = true)
  ∧ match ph with
    | Unsent => True
    | Parked => (c, key) ∈ pending w
    | Resumed => conn_session c w = Some n
    end.

(** The sessions, relative to the world [w0] in which the race starts:
    nothing but the session [n] for [key] may have been created, by one
    of the processes [ps]. *)
Definition race_state (w0 : World) (key : jsstring) (n : sid) (ps : list Z)
    (spawned : bool) (w : World) : Prop :=
  next_session w = (if spawned then S n else n)
  ∧ existing_alive key w = (if spawned then Some n else None)
  ∧ (∀ s, s ≠ n → session_core <$> heap w !! s = session_core <$> heap w0 !! s)
  ∧ (if spawned
     then ∃ p, p ∈ ps ∧ session_core <$> heap w !! n = Some (p, true, [], key, [], true)
     else heap w !! n = None).


(** A text that does not begin with a decimal digit. *)
Definition no_digit_head (s : jsstring) : Prop :=
  match s with
  | c :: _ => digit_value c = None
  | [] => True
  end.

(** [l] is a merge of [l1] and [l2]: it holds the elements of both, each
    list in its own order. *)
Inductive merge {A} : list A → list A → list A → Prop :=
  | merge_done_l l2 : merge [] l2 l2
  | merge_done_r l1 : merge l1 [] l1
  | merge_left x l1 l2 l : merge l1 l2 l → merge (x :: l1) l2 (x :: l)
  | merge_right y l1 l2 l : merge l1 l2 l → merge l1 (y :: l2) (y :: l).

(** *** Proof automation *)

Ltac lookups :=
  repeat match goal with
  | H : context [alter _ _ _ !! _] |- _ => rewrite lookup_alter in H
  | H : context [<[_ := _]> _ !! _] |- _ => rewrite lookup_insert in H
  | H : context [delete _ _ !! _] |- _ => rewrite lookup_delete in H
  | |- context [alter _ _ _ !! _] => rewrite lookup_alter
  | |- context [<[_ := _]> _ !! _] => rewrite lookup_insert
  | |- context [delete _ _ !! _] => rewrite lookup_delete
  | H : context [decide (?a = ?b)] |- _ => destruct (decide (a = b)); simplify_eq/=
  | |- context [decide (?a = ?b)] => destruct (decide (a = b)); simplify_eq/=
  | H : _ <$> _ = Some _ |- _ =>
      apply fmap_Some in H; destruct H as (? & ? & ?); simplify_eq/=
  end.

(** ** Vocabulary of the further properties *)

(** What may happen to a connection's record in a handler run, as far as
    the frames go: frames are only added, and when the socket is not open
    none is added and it stays not open. *)
Definition frames_kept (k k' : Conn) : Prop :=
  sent k `prefix_of` sent k'
  ∧ (readyOpen k = false → sent k' = sent k ∧ readyOpen k' = false).

Definition conns_kept (w w' : World) : Prop :=
  ∀ c k, conns w !! c = Some k → ∃ k', conns w' !! c = Some k' ∧ frames_kept k k'.

(** ** The environment of the spawned process

    The first lines of [spawnSession]: the entries of [process.env] whose
    value is defined are copied into a fresh object, TERM gets a default
    when it is missing or empty, and the two variables by which Claude
    Code recognises a nested session are deleted.  [process.env] is a map
    from names to values that may be undefined.  The fresh object is an
    ordinary one: an assignment of a string to its key __proto__ reaches
    the setter inherited from Object.prototype, which ignores a value
    that is neither an object nor null, so that entry is not copied. *)

Definition TERM_DEFAULT : jsstring := of_ascii "xterm-256color".

Definition spawn_env (process_env : gmap jsstring (option jsstring)) : gmap jsstring jsstring :=
  let env := delete (of_ascii "__proto__") (omap id process_env) in
  let term := match env !! of_ascii "TERM" with
              | Some t => if bool_decide (t ≠ []) then t else TERM_DEFAULT
              | None => TERM_DEFAULT
              end in
  let env := <[of_ascii "TERM" := term]> env in
  let env := delete (of_ascii "CLAUDECODE") env in
  delete (of_ascii "CLAUDE_CODE_SESSION") env.

(** ** The list of recent projects ([index.ts])

    The projects file holds a JSON array of strings.  Its state is the
    array it parses to, or [None] when [readFile] or [JSON.parse] throws;
    the entries and the cwd are strings, as the signatures say, and
    [saveProjects] is taken to succeed. *)

Definition loadProjects (file : option (list jsstring)) : list jsstring :=
  match file with
  | Some projects => projects
  | None => []
  end.

(** [addProject(cwd)]: the file after the call. *)
Definition addProject (cwd : jsstring) (file : option (list jsstring))
    : option (list jsstring) :=
  let projects := loadProjects file in
  let filtered := filter (λ p, p ≠ cwd) projects in
  let filtered := cwd :: filtered in                    (* unshift *)
  Some (take 20 filtered).                              (* slice(0, 20) *)

(** The body of the DELETE handler of /api/projects: the file after it. *)
Definition deleteProject (delCwd : jsstring) (file : option (list jsstring))
    : option (list jsstring) :=
  let projects := loadProjects file in
  Some (filter (λ p, p ≠ delCwd) projects).

(** ** The client's side of the protocol ([app.ts]) *)





(** The decimal digits of a natural number of at most [fuel] digits. *)
Fixpoint decimal_digits (fuel : nat) (n : N) : jsstring :=
  match fuel with
  | O => []
  | S fuel => if (n <? 10)%N then [(48 + n)%N]
              else decimal_digits fuel (n / 10)%N ++ [(48 + n mod 10)%N]
  end.

(** What a template literal prints for a Number, for the integers from 0
    up to 2^53: each of them is a double and is printed with all its
    digits, at most 16.  [None] for every other argument: a larger
    integer need not be a double, and from 10^21 on a Number is printed
    in exponent notation; that part of the conversion is not modelled. *)
Definition number_to_string (n : N) : option jsstring :=
  if (n <? 2 ^ 53)%N then Some (decimal_digits 16 n) else None.

(** The frame [sendResize] puts on an open socket for a terminal of
    [cols] by [rows] cells, [term.cols] and [term.rows] being integers
    that [number_to_string] covers. *)
Definition sendResize (cols rows : N) : option jsstring :=
  match number_to_string cols, number_to_string rows with
  | Some c, Some r => Some (49%N :: c ++ 44%N :: r)
  | _, _ => None
  end.

(** [s.replace(/c/g, by)] for a pattern that is one literal character. *)
Definition replace_char (c : code_unit) (by_ : jsstring) (s : jsstring) : jsstring :=
  flat_map (λ x, if (x =? c)%N then by_ else [x]) s.

(** [esc(s)], used for the text put into [innerHTML]. *)
Definition esc (s : jsstring) : jsstring :=
  replace_char 62 (of_ascii "&gt;")
    (replace_char 60 (of_ascii "&lt;")
       (replace_char 38 (of_ascii "&amp;") s)).

(** [s.split("/")] *)
Fixpoint split_slash (s : jsstring) : list jsstring :=
  match s with
  | [] => [[]]
  | c :: r =>
      if (c =? 47)%N then [] :: split_slash r
      else match split_slash r with
           | p :: ps => (c :: p) :: ps
           | [] => [[c]]
           end
  end.

(** [cwd.split("/").pop() || cwd]: the name shown for a project. *)
Definition project_name (cwd : jsstring) : jsstring :=
  match last (split_slash cwd) with
  | Some name => if bool_decide (name ≠ []) then name else cwd
  | None => cwd
  end.

(** A request to /api/projects that changes the list, with a body that
    parses to an object with a string cwd. *)
Inductive ProjectRequest :=
  | POST (cwd : jsstring)
  | DELETE (cwd : jsstring).

Definition serve (file : option (list jsstring)) (r : ProjectRequest)
    : option (list jsstring) :=
  match r with
  | POST newCwd => addProject newCwd file
  | DELETE delCwd => deleteProject delCwd file
  end.


(** What [esc] puts for one character. *)
Definition esc_char (c : code_unit) : jsstring :=
  if (c =? 38)%N then of_ascii "&amp;"
  else if (c =? 60)%N then of_ascii "&lt;"
  else if (c =? 62)%N then of_ascii "&gt;"
  else [c].

(** * The PTY manager with one process per connection

    The variant of the PTY manager in which [handleConnection] owns at
    most one process, [activePty], and kills it when another session is
    started or the socket closes.  Its variables are local to one call of
    [handleConnection] and nothing is shared between connections, so the
    state is that of one connection.  A process object is named by the
    [id] that its [startSession] call drew from [activeId]: the [onData]
    and [onExit] callbacks capture that [id] and the [cwd]. *)
Module Solo.

Record Proc := mkProc {
  pid : Z;
  cwd : jsstring;                  (* the cwd captured by its callbacks *)
  exited : bool;                   (* the process has exited *)
  calls : list PtyCall             (* write, resize and kill made on it *)
}.

Record State := mkState {
  activePty : option nat;
  activeId : nat;
  procs : gmap nat Proc;           (* the processes spawned so far *)
  readyOpen : bool;                (* ws.readyState === ws.OPEN *)
  sent : list Frame;               (* what ws.send was called with *)
  pending : list jsstring          (* startSession calls inside isDirectory *)
}.

Definition pty_call (k : PtyCall) (p : Proc) : Proc :=
  mkProc (pid p) (cwd p) (exited p) (calls p ++ [k]).

Definition pty_exit (p : Proc) : Proc :=
  mkProc (pid p) (cwd p) true (calls p).

Definition with_procs (f : gmap nat Proc → gmap nat Proc) (st : State) : State :=
  mkState (activePty st) (activeId st) (f (procs st)) (readyOpen st) (sent st) (pending st).

Definition with_activePty (a : option nat) (st : State) : State :=
  mkState a (activeId st) (procs st) (readyOpen st) (sent st) (pending st).

Definition with_pending (f : list jsstring → list jsstring) (st : State) : State :=
  mkState (activePty st) (activeId st) (procs st) (readyOpen st) (sent st) (f (pending st)).

Definition ws_send (f : Frame) (st : State) : State :=
  mkState (activePty st) (activeId st) (procs st) (readyOpen st) (sent st ++ [f])
          (pending st).

Definition sendControl (msg : Control) (st : State) : State :=
  if readyOpen st then ws_send (Ctl msg) st else st.

(** [killActive()]; an exception of [p.kill()] is caught. *)
Definition killActive (st : State) : State :=
  match activePty st with
  | Some p => with_procs (alter (pty_call PtyKill) p) (with_activePty None st)
  | None => st
  end.

(** [startSession(cwd)] up to its [await]. *)
Definition startSession_call (cwd0 : jsstring) (st : State) : State :=
  with_pending (λ l, l ++ [cwd0]) st.

(** [startSession(cwd)] from the answer of [isDirectory] on. *)
Definition startSession_resume (cwd0 : jsstring) (isdir : bool) (sp : SpawnResult)
    (st : State) : State :=
  if negb isdir then sendControl (Error (NotAValidDirectory cwd0)) st
  else
    let st := killActive st in
    let id := S (activeId st) in                        (* const id = ++activeId *)
    let st := mkState (activePty st) id (procs st) (readyOpen st) (sent st)
                      (pending st) in
    match sp with
    | SpawnThrows err => sendControl (Error (FailedToStart err)) st
    | SpawnOk p =>
        let st := with_procs (insert id (mkProc p cwd0 false [])) st in
        let st := with_activePty (Some id) st in
        sendControl (Spawned cwd0 p) st
    end.

(** The [proc.onData] callback of the process started as [id]. *)
Definition on_data (id : nat) (data : jsstring) (st : State) : State :=
  if decide (id ≠ activeId st) then st
  else if readyOpen st then ws_send (Raw data) st else st.

(** The process started as [id] exits; then its [proc.onExit] callback. *)
Definition on_exit (id : nat) (exitCode : Z) (st : State) : State :=
  match procs st !! id with
  | Some p =>
      let st := with_procs (alter pty_exit id) st in
      if decide (id ≠ activeId st) then st
      else
        let st := sendControl (Exited exitCode (cwd p)) st in
        with_activePty None st
  | None => st
  end.

(** [handleConnection(ws)] on an open socket. *)
Definition handleConnection : State :=
  sendControl Ready (mkState None 0 ∅ true [] []).

(** [ws.on("message", ...)]; [JSON_parse_cwd] as for the server above. *)
Definition on_message (JSON_parse_cwd : jsstring → option jsstring) (msg : jsstring)
    (st : State) : State :=
  match msg with
  | [] => st
  | prefix :: payload =>
      if (prefix =? 48)%N then
        match activePty st with
        | Some p =>
            let filtered := replace_focus payload in
            if bool_decide (filtered ≠ [])
            then with_procs (alter (pty_call (PtyWrite filtered)) p) st
            else st
        | None => st
        end
      else if (prefix =? 49)%N then
        let parts := split_comma payload in
        let cols := parseInt10_arg (parts !! 0%nat) in
        let rows := parseInt10_arg (parts !! 1%nat) in
        match activePty st with
        | Some p =>
            if gt_zero cols && gt_zero rows
            then with_procs (alter (pty_call (PtyResize cols rows)) p) st
            else st
        | None => st
        end
      else if (prefix =? 50)%N then
        match JSON_parse_cwd payload with
        | Some cwd0 => startSession_call cwd0 st
        | None => st
        end
      else st
  end.

(** [ws.on("close", ...)] *)
Definition on_close (st : State) : State :=
  killActive (mkState (activePty st) (activeId st) (procs st) false (sent st)
                      (pending st)).

Inductive Event :=
  | Message (msg : jsstring)
  | IsDirectory (cwd0 : jsstring) (isdir : bool) (sp : SpawnResult)
  | Close
  | Data (id : nat) (data : jsstring)
  | Exit (id : nat) (exitCode : Z).

Definition handle (parse : jsstring → option jsstring) (e : Event) (st : State) : State :=
  match e with
  | Message msg => on_message parse msg st
  | IsDirectory cwd0 isdir sp =>
      startSession_resume cwd0 isdir sp (with_pending (remove_first cwd0) st)
  | Close => on_close st
  | Data id data => on_data id data st
  | Exit id code => on_exit id code st
  end.

Definition proc_running (id : nat) (st : State) : bool :=
  match procs st !! id with
  | Some p => negb (exited p)
  | None => false
  end.

(** When the environment can deliver an event. *)
Definition enabled (e : Event) (st : State) : bool :=
  match e with
  | Message _ => readyOpen st
  | IsDirectory cwd0 _ _ => bool_decide (cwd0 ∈ pending st)
  | Close => readyOpen st
  | Data id _ => proc_running id st
  | Exit id _ => proc_running id st
  end.

Fixpoint run (parse : jsstring → option jsstring) (es : list Event) (st : State)
    : option State :=
  match es with
  | [] => Some st
  | e :: es => if enabled e st then run parse es (handle parse e st) else None
  end.

Definition reachable (parse : jsstring → option jsstring) (st : State) : Prop :=
  ∃ es, run parse es handleConnection = Some st.

(** A process that is out of use: it has exited or it was killed. *)
Definition stopped (p : Proc) : Prop := exited p = true ∨ PtyKill ∈ calls p.

(** What holds of a connection's processes at any time. *)
Record inv (st : State) : Prop := mk_inv {
  inv_active : ∀ p, activePty st = Some p →
      p = activeId st
      ∧ ∃ pr, procs st !! p = Some pr ∧ exited pr = false ∧ PtyKill ∉ calls pr;
  inv_ids : ∀ id pr, procs st !! id = Some pr → (1 ≤ id ≤ activeId st)%nat;
  inv_others : ∀ id pr, procs st !! id = Some pr → activePty st ≠ Some id → stopped pr;
  inv_closed : ∀ pr, activePty st = None → procs st !! activeId st = Some pr →
      exited pr = false → readyOpen st = false;
  inv_killed : ∀ id pr, procs st !! id = Some pr → PtyKill ∈ calls pr →
      last (calls pr) = Some PtyKill
}.

End Solo.

(** ** The replay buffer *)

Lemma threshold_value : REPLAY_TRIM_THRESHOLD = 98304 ∧ REPLAY_BUFFER_SIZE = 65536.
Proof. split; reflexivity. Qed.

Lemma slice_last (s : jsstring) (n : Z) :
  0 < n → n ≤ jslength s →
  slice s (- n) = drop (Z.to_nat (jslength s - n)) s
  ∧ jslength (slice s (- n)) = n.
Proof.
  intros Hn Hle. unfold slice, jslength in *.
  destruct (Z.ltb_spec (- n) 0) as [_|?]; [|lia].
  replace (Z.max (Z.of_nat (length s) + - n) 0) with (Z.of_nat (length s) - n) by lia.
  split; [done|]. rewrite length_drop. lia.
Qed.

Lemma buffer_onData_cases (buf data : jsstring) :
  (jslength (buf ++ data) ≤ REPLAY_TRIM_THRESHOLD ∧ buffer_onData buf data = buf ++ data)
  ∨ (REPLAY_TRIM_THRESHOLD < jslength (buf ++ data)
     ∧ buffer_onData buf data
       = drop (Z.to_nat (jslength (buf ++ data) - REPLAY_BUFFER_SIZE)) (buf ++ data)
     ∧ jslength (buffer_onData buf data) = REPLAY_BUFFER_SIZE).
Proof.
  unfold buffer_onData.
  destruct (Z.ltb_spec REPLAY_TRIM_THRESHOLD (jslength (buf ++ data))) as [H|H].
  - right. split; [done|].
    destruct threshold_value as [E1 E2]. rewrite E1 in H.
    apply slice_last; rewrite E2; lia.
  - left. done.
Qed.

Lemma buffer_onData_bound (buf data : jsstring) :
  jslength (buffer_onData buf data) ≤ REPLAY_TRIM_THRESHOLD.
Proof.
  destruct (buffer_onData_cases buf data) as [[H ->]|(_ & _ & ->)]; [done|].
  destruct threshold_value as [-> ->]. lia.
Qed.

Lemma buffer_onData_suffix (buf data : jsstring) :
  buffer_onData buf data `suffix_of` buf ++ data.
Proof.
  destruct (buffer_onData_cases buf data) as [[_ ->]|(_ & -> & _)]; [done|].
  apply suffix_drop.
Qed.

Lemma buffer_onData_history (buf data hist : jsstring) :
  buf `suffix_of` hist → buffer_onData buf data `suffix_of` hist ++ data.
Proof.
  intros [k ->]. etrans; [apply buffer_onData_suffix|].
  exists k. by rewrite (assoc_L (++)).
Qed.

(** ** Changes outside the invariant's view *)

Lemma session_sim_refl se : session_sim se se.
Proof. unfold session_sim. naive_solver. Qed.

Lemma session_sim_trans se1 se2 se3 :
  session_sim se1 se2 → session_sim se2 se3 → session_sim se1 se3.
Proof.
  unfold session_sim. intros (?&?&?&?&?&Hb1&?) (?&?&?&?&?&Hb2&?).
  repeat split; try congruence; [|naive_solver].
  destruct Hb2 as [->|?]; [done|by right].
Qed.

Lemma conn_sim_refl k : conn_sim k k.
Proof. by split. Qed.

Lemma world_sim_refl w : world_sim w w.
Proof.
  repeat split; intros x.
  - destruct (heap w !! x); constructor. apply session_sim_refl.
  - destruct (conns w !! x); constructor. apply conn_sim_refl.
Qed.

Lemma world_sim_trans w1 w2 w3 : world_sim w1 w2 → world_sim w2 w3 → world_sim w1 w3.
Proof.
  intros (?&?&?&?&Hh1&Hc1) (?&?&?&?&Hh2&Hc2).
  repeat split; try congruence.
  - intros s. specialize (Hh1 s). specialize (Hh2 s).
    destruct Hh1; inversion Hh2; subst; constructor.
    eapply session_sim_trans; eauto.
  - intros c. specialize (Hc1 c). specialize (Hc2 c).
    destruct Hc1 as [k1 k2 [??]|]; inversion Hc2 as [? k3 [??]|]; subst; constructor.
    split; congruence.
Qed.

Lemma world_sim_heap w w' s se' :
  world_sim w w' → heap w' !! s = Some se' →
  ∃ se, heap w !! s = Some se ∧ session_sim se se'.
Proof.
  intros (_&_&_&_&Hh&_) E. specialize (Hh s). rewrite E in Hh.
  inversion Hh; subst. eauto.
Qed.

Lemma world_sim_conn w w' c k' :
  world_sim w w' → conns w' !! c = Some k' →
  ∃ k, conns w !! c = Some k ∧ conn_sim k k'.
Proof.
  intros (_&_&_&_&_&Hc) E. specialize (Hc c). rewrite E in Hc.
  inversion Hc; subst. eauto.
Qed.

Lemma world_sim_conn_fwd w w' c k :
  world_sim w w' → conns w !! c = Some k →
  ∃ k', conns w' !! c = Some k' ∧ conn_sim k k'.
Proof.
  intros (_&_&_&_&_&Hc) E. specialize (Hc c). rewrite E in Hc.
  inversion Hc; subst. eauto.
Qed.

Lemma world_sim_heap_fwd w w' s se :
  world_sim w w' → heap w !! s = Some se →
  ∃ se', heap w' !! s = Some se' ∧ session_sim se se'.
Proof.
  intros (_&_&_&_&Hh&_) E. specialize (Hh s). rewrite E in Hh.
  inversion Hh; subst. eauto.
Qed.

Lemma wf_world_sim w w' : world_sim w w' → wf w → wf w'.
Proof.
  intros Hsim Hwf. pose proof Hsim as (Es&Ep&Enl&Ens&_&_).
  constructor.
  - intros c k' Hk'.
    destruct (world_sim_conn _ _ _ _ Hsim Hk') as (k & Hk & Ecur & Edis).
    destruct (wf_shape _ Hwf _ _ Hk) as [Hd Hc|s i j se Hd Hs Hi Hj Hc].
    + apply shape_idle; congruence.
    + destruct (world_sim_heap_fwd _ _ _ _ Hsim Hs) as (se' & Hs' & (Eod&Eoe&_&Eal&_)).
      apply (shape_bound _ _ _ s i j se');
        [congruence | done | by rewrite Eod | by rewrite Eoe | by rewrite Ecur, Hc, Eal].
  - intros s se' i c Hs' Hi.
    destruct (world_sim_heap _ _ _ _ Hsim Hs') as (se & Hs & (Eod&_)).
    rewrite Eod in Hi.
    destruct (wf_data_owner _ Hwf _ _ _ _ Hs Hi) as (k & Hk & Hin).
    destruct (world_sim_conn_fwd _ _ _ _ Hsim Hk) as (k' & Hk' & _ & Edis).
    exists k'. split; [done|congruence].
  - intros s se' j c Hs' Hj.
    destruct (world_sim_heap _ _ _ _ Hsim Hs') as (se & Hs & (_&Eoe&_)).
    rewrite Eoe in Hj.
    destruct (wf_exit_owner _ Hwf _ _ _ _ Hs Hj) as (k & Hk & Hin).
    destruct (world_sim_conn_fwd _ _ _ _ Hsim Hk) as (k' & Hk' & _ & Edis).
    exists k'. split; [done|congruence].
  - intros s se' Hs'.
    destruct (world_sim_heap _ _ _ _ Hsim Hs') as (se & Hs & (Eod&_)).
    rewrite Eod. eapply wf_data_head; eauto.
  - intros s se' Hs'.
    destruct (world_sim_heap _ _ _ _ Hsim Hs') as (se & Hs & (_&Eoe&_)).
    rewrite Eoe. eapply wf_exit_head; eauto.
  - intros s se' Hs'.
    destruct (world_sim_heap _ _ _ _ Hsim Hs') as (se & Hs & (Eod&_)).
    rewrite Eod, Enl. eapply wf_data_ids; eauto.
  - intros s se' Hs'.
    destruct (world_sim_heap _ _ _ _ Hsim Hs') as (se & Hs & (_&Eoe&_)).
    rewrite Eoe, Enl. eapply wf_exit_ids; eauto.
  - intros s se' Hs'.
    destruct (world_sim_heap _ _ _ _ Hsim Hs') as (se & Hs & (_&_&Er&Ea&_)).
    rewrite Er, Ea. eapply wf_alive; eauto.
  - intros key s Hkey. rewrite Es in Hkey.
    destruct (wf_registry _ Hwf _ _ Hkey) as (se & Hs & Ec & Ea).
    destruct (world_sim_heap_fwd _ _ _ _ Hsim Hs) as (se' & Hs' & (_&_&_&Ea'&Ec'&_)).
    exists se'. repeat split; congruence.
  - intros s se' Hs' Ha.
    destruct (world_sim_heap _ _ _ _ Hsim Hs') as (se & Hs & (_&_&_&Ea'&Ec'&_)).
    rewrite Es, Ec'. eapply wf_registered; eauto; congruence.
  - intros s se' Hs'.
    destruct (world_sim_heap _ _ _ _ Hsim Hs') as (se & Hs & _).
    rewrite Ens. eapply wf_heap; eauto.
  - intros c key Hin. rewrite Ep in Hin.
    destruct (wf_pending _ Hwf _ _ Hin) as [k Hk].
    destruct (world_sim_conn_fwd _ _ _ _ Hsim Hk) as (k' & Hk' & _). eauto.
  - intros s se' Hs'.
    destruct (world_sim_heap _ _ _ _ Hsim Hs') as (se & Hs & (_&_&_&_&_&[->|?]&_)); [|done].
    eapply wf_buffer; eauto.
  - intros s se' Hs'.
    destruct (world_sim_heap _ _ _ _ Hsim Hs') as (se & Hs & (_&_&_&_&_&_&Hk)).
    apply Hk. eapply wf_no_kill; eauto.
Qed.

Lemma world_sim_upd_conn c f w :
  (∀ k, conn_sim k (f k)) → world_sim w (upd_conn c f w).
Proof.
  intros Hf. repeat split; intros x; simpl.
  - destruct (heap w !! x); constructor. apply session_sim_refl.
  - rewrite lookup_alter. case_decide; subst.
    + destruct (conns w !! x); constructor. apply Hf.
    + destruct (conns w !! x); constructor. apply conn_sim_refl.
Qed.

Lemma world_sim_upd_session s f w :
  (∀ se, session_sim se (f se)) → world_sim w (upd_session s f w).
Proof.
  intros Hf. repeat split; intros x; simpl.
  - rewrite lookup_alter. case_decide; subst.
    + destruct (heap w !! x); constructor. apply Hf.
    + destruct (heap w !! x); constructor. apply session_sim_refl.
  - destruct (conns w !! x); constructor. apply conn_sim_refl.
Qed.

Lemma world_sim_ws_send c f w : world_sim w (ws_send c f w).
Proof. apply world_sim_upd_conn. intros k. by split. Qed.

Lemma world_sim_sendControl c m w : world_sim w (sendControl c m w).
Proof.
  unfold sendControl. destruct (conn_open c w);
    [apply world_sim_ws_send | apply world_sim_refl].
Qed.

Lemma world_sim_run_data_listener s data w l :
  world_sim w (run_data_listener s data w l).
Proof.
  unfold run_data_listener. destruct l.2.
  - apply world_sim_upd_session. intros se. unfold session_sim; simpl.
    repeat split; try done. right. apply buffer_onData_bound.
  - destruct (conn_open c w); [apply world_sim_ws_send | apply world_sim_refl].
Qed.

Lemma world_sim_foldl {A} (f : World → A → World) (l : list A) w :
  (∀ w x, world_sim w (f w x)) → world_sim w (foldl f w l).
Proof.
  intros Hf. revert w. induction l as [|x l IH]; intros w; simpl.
  - apply world_sim_refl.
  - eapply world_sim_trans; [apply Hf | apply IH].
Qed.

Lemma world_sim_fire_data s data w : world_sim w (fire_data s data w).
Proof.
  unfold fire_data. destruct (heap w !! s); [|apply world_sim_refl].
  apply world_sim_foldl. intros. apply world_sim_run_data_listener.
Qed.

Lemma world_sim_pty_call s k w :
  k ≠ PtyKill → world_sim w (upd_session s (with_pty (pty_call k)) w).
Proof.
  intros Hk. apply world_sim_upd_session. intros se. unfold session_sim; simpl.
  repeat split; try done; [by left|].
  intros Hn. rewrite elem_of_app, list_elem_of_singleton. naive_solver.
Qed.

(** ** Removing a callback *)

Lemma remove_listener_elem {A} (i : nat) (l : list (nat * A)) y :
  NoDup l.*1 → y ∈ remove_listener i l ↔ y ∈ l ∧ y.1 ≠ i.
Proof.
  induction l as [|[i0 x] l IH]; simpl; intros Hnd.
  - rewrite elem_of_nil. naive_solver.
  - apply NoDup_cons in Hnd as [Hni Hnd]. case_decide; subst.
    + rewrite elem_of_cons. split.
      * intros Hy. split; [by right|]. intros <-. apply Hni.
        apply list_elem_of_fmap. by exists y.
      * intros [[->|?] ?]; done.
    + rewrite !elem_of_cons, IH by done. naive_solver.
Qed.

Lemma remove_listener_sub {A} (i : nat) (l : list (nat * A)) y :
  y ∈ remove_listener i l → y ∈ l.
Proof.
  induction l as [|[i0 x] l IH]; simpl; [done|].
  case_decide; rewrite !elem_of_cons; naive_solver.
Qed.

Lemma remove_listener_NoDup {A} (i : nat) (l : list (nat * A)) :
  NoDup l.*1 → NoDup (remove_listener i l).*1.
Proof.
  induction l as [|[i0 x] l IH]; simpl; [done|].
  intros [Hni Hnd]%NoDup_cons. case_decide; [done|].
  simpl. apply NoDup_cons. split; [|by apply IH].
  intros [y [E Hy]]%list_elem_of_fmap. apply Hni.
  apply list_elem_of_fmap. exists y. split; [done|]. eapply remove_listener_sub; eauto.
Qed.

Lemma remove_listener_Forall {A} (P : nat * A → Prop) i l :
  Forall P l → Forall P (remove_listener i l).
Proof.
  rewrite !Forall_forall. intros H y Hy. apply H. eapply remove_listener_sub; eauto.
Qed.

Lemma listener_id_unique {A} (l : list (nat * A)) i x y :
  NoDup l.*1 → (i, x) ∈ l → (i, y) ∈ l → x = y.
Proof.
  intros Hnd Hx Hy.
  induction l as [|[i0 z] l IH]; [by apply elem_of_nil in Hx|].
  simpl in Hnd. apply NoDup_cons in Hnd as [Hni Hnd].
  apply elem_of_cons in Hx as [Ex|Hx]; apply elem_of_cons in Hy as [Ey|Hy].
  - congruence.
  - inversion Ex; subst. exfalso. apply Hni. apply list_elem_of_fmap. by exists (i0, y).
  - inversion Ey; subst. exfalso. apply Hni. apply list_elem_of_fmap. by exists (i0, x).
  - by apply IH.
Qed.

(** ** [detach] *)

Lemma detach_unfold c w k :
  conns w !! c = Some k →
  detach c w
  = upd_conn c (with_currentSession None)
      (upd_conn c (with_disposables (λ _, [])) (dispose_all (disposables k) w)).
Proof. intros Hk. unfold detach, conn_disposables. by rewrite Hk. Qed.

Lemma world_sim_upd_conn_at c f w :
  (∀ k, conns w !! c = Some k → conn_sim k (f k)) → world_sim w (upd_conn c f w).
Proof.
  intros Hf. repeat split; intros x; simpl.
  - destruct (heap w !! x); constructor. apply session_sim_refl.
  - rewrite lookup_alter. case_decide; subst.
    + destruct (conns w !! x) eqn:E; constructor. by apply Hf.
    + destruct (conns w !! x); constructor. apply conn_sim_refl.
Qed.

Lemma wf_detach c w k :
  wf w → conns w !! c = Some k → wf (detach c w).
Proof.
  intros Hwf Hk. rewrite (detach_unfold _ _ _ Hk).
  destruct (wf_shape _ Hwf _ _ Hk) as [Hd Hc|s i j se Hd Hs Hi Hj Hc]; rewrite Hd.
  { (* nothing was registered *)
    simpl. eapply wf_world_sim; [|done].
    eapply world_sim_trans; apply world_sim_upd_conn_at; simpl.
    - intros k' Hk'. simplify_eq. by split.
    - intros k'. rewrite lookup_alter_eq, Hk. intros [= <-].
      split; simpl; congruence. }
  simpl.
  destruct (wf_data_ids _ Hwf _ _ Hs) as [Hnd Hbd].
  destruct (wf_exit_ids _ Hwf _ _ Hs) as [Hne Hbe].
  destruct (wf_data_head _ Hwf _ _ Hs) as (i0 & drest & Ed & Hdrest).
  destruct (wf_exit_head _ Hwf _ _ Hs) as (j0 & erest & Ee & Herest).
  assert (i ≠ i0) as Hii0.
  { intros ->. rewrite Ed in Hi, Hnd.
    by specialize (listener_id_unique _ _ _ _ Hnd Hi (list_elem_of_here _ _)). }
  assert (j ≠ j0) as Hjj0.
  { intros ->. rewrite Ee in Hj, Hne.
    by specialize (listener_id_unique _ _ _ _ Hne Hj (list_elem_of_here _ _)). }
  constructor; simpl.
  - intros c' k' Hk'. lookups.
    + by apply shape_idle.
    + destruct (wf_shape _ Hwf _ _ Hk') as [?|s' i' j' se' Hd' Hs' Hi' Hj' Hc'];
        [by apply shape_idle|].
      destruct (decide (s' = s)) as [->|Hne'].
      * simplify_eq.
        apply (shape_bound _ _ _ s i' j'
                 (with_pty (pty_with_onExit (remove_listener j))
                    (with_pty (pty_with_onData (remove_listener i)) se))); simpl; try done.
        -- rewrite !lookup_alter_eq, Hs. done.
        -- apply remove_listener_elem; [done|]. split; [done|]. simpl. intros ->.
           by specialize (listener_id_unique _ _ _ _ Hnd Hi Hi') as [= ->].
        -- apply remove_listener_elem; [done|]. split; [done|]. simpl. intros ->.
           by specialize (listener_id_unique _ _ _ _ Hne Hj Hj') as [= ->].
      * apply (shape_bound _ _ _ s' i' j' se'); simpl; try done.
        by rewrite !lookup_alter_ne.
  - intros s' se' i' c' Hs' Hi'.
    assert (∃ se0, heap w !! s' = Some se0 ∧ (i', ForwardOutput c') ∈ onData (pty se0)
                   ∧ ¬ (s' = s ∧ i' = i)) as (se0 & Hs0 & Hi0 & Hnot).
    { lookups.
      - apply remove_listener_elem in Hi' as [Hi' Hne']; [|done]. naive_solver.
      - naive_solver. }
    destruct (wf_data_owner _ Hwf _ _ _ _ Hs0 Hi0) as (k' & Hk' & Hin).
    assert (c' ≠ c).
    { intros ->. simplify_eq. rewrite Hd, !elem_of_cons, elem_of_nil in Hin. naive_solver. }
    exists k'. by rewrite !lookup_alter_ne.
  - intros s' se' j' c' Hs' Hj'.
    assert (∃ se0, heap w !! s' = Some se0 ∧ (j', NotifyExit c') ∈ onExit (pty se0)
                   ∧ ¬ (s' = s ∧ j' = j)) as (se0 & Hs0 & Hj0 & Hnot).
    { lookups.
      - apply remove_listener_elem in Hj' as [Hj' Hne']; [|done]. naive_solver.
      - naive_solver. }
    destruct (wf_exit_owner _ Hwf _ _ _ _ Hs0 Hj0) as (k' & Hk' & Hin).
    assert (c' ≠ c).
    { intros ->. simplify_eq. rewrite Hd, !elem_of_cons, elem_of_nil in Hin. naive_solver. }
    exists k'. by rewrite !lookup_alter_ne.
  - intros s' se' Hs'. lookups; [|by eapply wf_data_head].
    rewrite Ed. simpl. destruct (decide (i0 = i)); [done|].
    eexists _, _. split; [done|]. by apply remove_listener_Forall.
  - intros s' se' Hs'. lookups; [|by eapply wf_exit_head].
    rewrite Ee. simpl. destruct (decide (j0 = j)); [done|].
    eexists _, _. split; [done|]. by apply remove_listener_Forall.
  - intros s' se' Hs'. lookups; [|by eapply wf_data_ids].
    split; [by apply remove_listener_NoDup | by apply remove_listener_Forall].
  - intros s' se' Hs'. lookups; [|by eapply wf_exit_ids].
    split; [by apply remove_listener_NoDup | by apply remove_listener_Forall].
  - intros s' se' Hs'. lookups; by eapply wf_alive.
  - intros key s' Hkey.
    destruct (wf_registry _ Hwf _ _ Hkey) as (se' & Hs' & ? & ?).
    destruct (decide (s = s')) as [<-|?].
    + simplify_eq. eexists. rewrite !lookup_alter_eq, Hs. simpl. done.
    + exists se'. by rewrite !lookup_alter_ne.
  - intros s' se' Hs' Ha. lookups; by eapply wf_registered.
  - intros s' se' Hs'. lookups; by eapply wf_heap.
  - intros c' key Hin. destruct (wf_pending _ Hwf _ _ Hin) as [k' Hk'].
    destruct (decide (c = c')) as [<-|?].
    + rewrite !lookup_alter_eq, Hk. by eexists.
    + rewrite !lookup_alter_ne by done. by eexists.
  - intros s' se' Hs'. lookups; by eapply wf_buffer.
  - intros s' se' Hs'. lookups; by eapply wf_no_kill.
Qed.

(** ** [attach] *)

Lemma wf_subscribe c s w k se :
  wf w → conns w !! c = Some k → disposables k = [] →
  heap w !! s = Some se → alive se = true →
  wf (subscribe c s w).
Proof.
  intros Hwf Hk Hd Hs Ha.
  destruct (wf_data_ids _ Hwf _ _ Hs) as [Hnd Hbd].
  destruct (wf_exit_ids _ Hwf _ _ Hs) as [Hne Hbe].
  assert (∀ {A} (l : list (nat * A)) n,
            Forall (λ e, (e.1 < n)%nat) l → n ∉ l.*1) as Hfresh.
  { intros A l n Hl [y [-> Hy]]%list_elem_of_fmap.
    rewrite Forall_forall in Hl. specialize (Hl _ Hy). lia. }
  assert (∀ {A} (l : list (nat * A)) n m,
            (n ≤ m)%nat → Forall (λ e, (e.1 < n)%nat) l → Forall (λ e, (e.1 < m)%nat) l)
    as Hmono.
  { intros A l n m Hnm Hl. eapply Forall_impl; [done|]. intros; simpl in *; lia. }
  constructor; simpl.
  - intros c' k' Hk'.
    destruct (decide (c' = c)) as [->|Hcc].
    + rewrite !lookup_alter_eq, Hk in Hk'. simpl in Hk'. injection Hk' as <-.
      eapply (shape_bound _ _ _ s (next_listener w) (S (next_listener w))); simpl.
      * by rewrite Hd.
      * rewrite !lookup_alter_eq, Hs. done.
      * simpl. apply elem_of_app. right. apply list_elem_of_singleton. done.
      * simpl. apply elem_of_app. right. apply list_elem_of_singleton. done.
      * simpl. by rewrite Ha.
    + rewrite !lookup_alter_ne in Hk' by done.
      destruct (wf_shape _ Hwf _ _ Hk') as [?|s' i' j' se' Hd' Hs' Hi' Hj' Hc'];
        [by apply shape_idle|].
      destruct (decide (s' = s)) as [->|Hss].
      * simplify_eq.
        eapply (shape_bound _ _ _ s i' j'); simpl; [done| | | |].
        -- rewrite !lookup_alter_eq, Hs. done.
        -- simpl. apply elem_of_app. by left.
        -- simpl. apply elem_of_app. by left.
        -- done.
      * apply (shape_bound _ _ _ s' i' j' se'); simpl; try done.
        by rewrite !lookup_alter_ne.
  - intros s' se' i' c' Hs' Hi'.
    assert (∃ se0, heap w !! s' = Some se0
                   ∧ ((i', ForwardOutput c') ∈ onData (pty se0)
                      ∨ (s' = s ∧ i' = next_listener w ∧ c' = c))) as (se0 & Hs0 & Hi0).
    { lookups; [|naive_solver].
      apply elem_of_app in Hi' as [?|Hi']; [naive_solver|].
      apply list_elem_of_singleton in Hi'. naive_solver. }
    destruct Hi0 as [Hi0|(-> & -> & ->)].
    + destruct (wf_data_owner _ Hwf _ _ _ _ Hs0 Hi0) as (k' & Hk' & Hin).
      destruct (decide (c' = c)) as [->|?].
      * simplify_eq. rewrite Hd in Hin. by apply elem_of_nil in Hin.
      * exists k'. by rewrite !lookup_alter_ne.
    + eexists. rewrite !lookup_alter_eq, Hk. simpl. split; [done|].
      simpl. rewrite Hd. simpl. apply elem_of_cons. by left.
  - intros s' se' j' c' Hs' Hj'.
    assert (∃ se0, heap w !! s' = Some se0
                   ∧ ((j', NotifyExit c') ∈ onExit (pty se0)
                      ∨ (s' = s ∧ j' = S (next_listener w) ∧ c' = c))) as (se0 & Hs0 & Hj0).
    { lookups; [|naive_solver].
      apply elem_of_app in Hj' as [?|Hj']; [naive_solver|].
      apply list_elem_of_singleton in Hj'. naive_solver. }
    destruct Hj0 as [Hj0|(-> & -> & ->)].
    + destruct (wf_exit_owner _ Hwf _ _ _ _ Hs0 Hj0) as (k' & Hk' & Hin).
      destruct (decide (c' = c)) as [->|?].
      * simplify_eq. rewrite Hd in Hin. by apply elem_of_nil in Hin.
      * exists k'. by rewrite !lookup_alter_ne.
    + eexists. rewrite !lookup_alter_eq, Hk. simpl. split; [done|].
      simpl. rewrite Hd. simpl. apply elem_of_cons. right. apply elem_of_cons. by left.
  - intros s' se' Hs'. lookups; [|by eapply wf_data_head].
    destruct (wf_data_head _ Hwf _ _ Hs) as (i0 & rest & -> & Hrest).
    eexists _, _. split; [done|]. apply Forall_app. split; [done|].
    apply Forall_singleton. by eexists.
  - intros s' se' Hs'. lookups; [|by eapply wf_exit_head].
    destruct (wf_exit_head _ Hwf _ _ Hs) as (j0 & rest & -> & Hrest).
    eexists _, _. split; [done|]. apply Forall_app. split; [done|].
    apply Forall_singleton. by eexists.
  - intros s' se' Hs'. lookups.
    + split.
      * rewrite fmap_app. apply NoDup_app. split; [done|]. split; [|apply NoDup_singleton].
        simpl. intros x Hx Hn. apply list_elem_of_singleton in Hn as ->.
        exact (Hfresh _ _ _ Hbd Hx).
      * apply Forall_app. split; [by eapply Hmono; [|done]; lia|].
        apply Forall_singleton. simpl. lia.
    + destruct (wf_data_ids _ Hwf _ _ Hs') as [? ?].
      split; [done|]. eapply Hmono; [|done]. lia.
  - intros s' se' Hs'. lookups.
    + split.
      * rewrite fmap_app. apply NoDup_app. split; [done|]. split; [|apply NoDup_singleton].
        simpl. intros x Hx Hn. apply list_elem_of_singleton in Hn as ->.
        refine (Hfresh _ _ _ (Hmono _ _ _ _ _ Hbe) Hx). lia.
      * apply Forall_app. split; [by eapply Hmono; [|done]; lia|].
        apply Forall_singleton. simpl. lia.
    + destruct (wf_exit_ids _ Hwf _ _ Hs') as [? ?].
      split; [done|]. eapply Hmono; [|done]. lia.
  - intros s' se' Hs'. lookups; by eapply wf_alive.
  - intros key s' Hkey.
    destruct (wf_registry _ Hwf _ _ Hkey) as (se' & Hs' & ? & ?).
    destruct (decide (s = s')) as [<-|?].
    + simplify_eq. eexists. rewrite !lookup_alter_eq, Hs. simpl. done.
    + exists se'. by rewrite !lookup_alter_ne.
  - intros s' se' Hs' Ha'. lookups; by eapply wf_registered.
  - intros s' se' Hs'. lookups; by eapply wf_heap.
  - intros c' key Hin. destruct (wf_pending _ Hwf _ _ Hin) as [k' Hk'].
    destruct (decide (c = c')) as [<-|?].
    + rewrite !lookup_alter_eq, Hk. by eexists.
    + rewrite !lookup_alter_ne by done. by eexists.
  - intros s' se' Hs'. lookups; by eapply wf_buffer.
  - intros s' se' Hs'. lookups; by eapply wf_no_kill.
Qed.

(** ** What [detach] and [attach] leave alone *)

Lemma same_core_refl w : same_core w w.
Proof. by repeat split. Qed.

Lemma same_core_trans w1 w2 w3 : same_core w1 w2 → same_core w2 w3 → same_core w1 w3.
Proof.
  intros (?&?&H1) (?&?&H2). split; [congruence|]. split; [congruence|].
  intros s. by rewrite H2, H1.
Qed.

Lemma same_core_upd_session s f w :
  (∀ se, session_core (f se) = session_core se) → same_core w (upd_session s f w).
Proof.
  intros Hf. repeat split. intros s'. simpl. rewrite lookup_alter.
  case_decide; [subst|done]. destruct (heap w !! s'); simpl; [|done]. by rewrite Hf.
Qed.

Lemma same_core_upd_conn c f w : same_core w (upd_conn c f w).
Proof. by repeat split. Qed.

Lemma same_core_lookup w w' s se :
  same_core w w' → heap w !! s = Some se →
  ∃ se', heap w' !! s = Some se' ∧ session_core se' = session_core se.
Proof.
  intros (_&_&H) Hs. specialize (H s). rewrite Hs in H. simpl in H.
  apply fmap_Some in H as (se' & Hs' & E). by exists se'.
Qed.

Lemma same_core_sym w w' : same_core w w' → same_core w' w.
Proof.
  intros (?&?&H). split; [congruence|]. split; [congruence|]. intros s. by rewrite H.
Qed.

Lemma same_core_existing_alive w w' key :
  same_core w w' → existing_alive key w' = existing_alive key w.
Proof.
  intros Hc. pose proof Hc as (Es&_&H). unfold existing_alive. rewrite Es.
  destruct (sessions w !! key) as [s|]; simpl; [|done].
  specialize (H s).
  destruct (heap w !! s) as [se|], (heap w' !! s) as [se'|]; simpl in *; try done.
  assert (alive se' = alive se) as -> by (unfold session_core in H; congruence).
  done.
Qed.

Lemma dispose_frame d w :
  same_core w (dispose d w) ∧ conns (dispose d w) = conns w
  ∧ pending (dispose d w) = pending w ∧ next_listener (dispose d w) = next_listener w.
Proof.
  destruct d; simpl; (split; [|done]); by apply same_core_upd_session.
Qed.

Lemma dispose_all_frame ds w :
  same_core w (dispose_all ds w) ∧ conns (dispose_all ds w) = conns w
  ∧ pending (dispose_all ds w) = pending w
  ∧ next_listener (dispose_all ds w) = next_listener w.
Proof.
  unfold dispose_all. revert w. induction ds as [|d ds IH]; intros w; simpl.
  - split; [apply same_core_refl|done].
  - destruct (dispose_frame d w) as (H1 & H2 & H3 & H4).
    destruct (IH (dispose d w)) as (H1' & H2' & H3' & H4').
    split; [by eapply same_core_trans|]. repeat split; congruence.
Qed.

(** [detach] resets the two variables of its own connection and touches
    no other connection. *)
Lemma detach_frame c w :
  same_core w (detach c w)
  ∧ pending (detach c w) = pending w
  ∧ next_listener (detach c w) = next_listener w
  ∧ conns (detach c w) !! c
    = (λ k, mkConn None [] (readyOpen k) (sent k)) <$> conns w !! c
  ∧ ∀ c', c' ≠ c → conns (detach c w) !! c' = conns w !! c'.
Proof.
  unfold detach.
  destruct (dispose_all_frame (conn_disposables c w) w) as (H1 & H2 & H3 & H4).
  set (w1 := dispose_all _ w) in *. simpl.
  split; [|repeat split]; try done.
  - rewrite !lookup_alter_eq, H2. by destruct (conns w !! c).
  - intros c' Hc'. by rewrite !lookup_alter_ne, H2.
Qed.

Lemma subscribe_frame c s w :
  same_core w (subscribe c s w)
  ∧ pending (subscribe c s w) = pending w
  ∧ next_listener (subscribe c s w) = S (S (next_listener w))
  ∧ conns (subscribe c s w) !! c
    = (λ k, mkConn (Some s)
              (disposables k ++ [DisposeData s (next_listener w);
                                 DisposeExit s (S (next_listener w))])
              (readyOpen k) (sent k)) <$> conns w !! c
  ∧ ∀ c', c' ≠ c → conns (subscribe c s w) !! c' = conns w !! c'.
Proof.
  simpl. split; [|repeat split].
  - split; [done|]. split; [done|]. intros s'. simpl.
    destruct (decide (s = s')) as [->|?].
    + rewrite !lookup_alter_eq. by destruct (heap w !! s').
    + by rewrite !lookup_alter_ne.
  - rewrite !lookup_alter_eq. destruct (conns w !! c); simpl; [|done].
    unfold with_disposables; simpl. by rewrite <- (assoc_L (++)).
  - intros c' Hc'. by rewrite !lookup_alter_ne.
Qed.

Lemma attach_frame c s w :
  same_core w (attach c s w)
  ∧ pending (attach c s w) = pending w
  ∧ conns (attach c s w) !! c
    = (λ k, mkConn (Some s)
              [DisposeData s (next_listener w); DisposeExit s (S (next_listener w))]
              (readyOpen k) (sent k)) <$> conns w !! c
  ∧ ∀ c', c' ≠ c → conns (attach c s w) !! c' = conns w !! c'.
Proof.
  unfold attach.
  destruct (detach_frame c w) as (H1 & H2 & H3 & H4 & H5).
  destruct (subscribe_frame c s (detach c w)) as (H1' & H2' & H3' & H4' & H5').
  split; [by eapply same_core_trans|]. repeat split.
  - congruence.
  - rewrite H4', H4, H3. by destruct (conns w !! c).
  - intros c' Hc'. by rewrite H5', H5.
Qed.

Lemma wf_attach c s w k se :
  wf w → conns w !! c = Some k → heap w !! s = Some se → alive se = true →
  wf (attach c s w).
Proof.
  intros Hwf Hk Hs Ha. unfold attach.
  destruct (detach_frame c w) as (H1 & _ & _ & H4 & _).
  destruct (same_core_lookup _ _ _ _ H1 Hs) as (se' & Hs' & Ecore).
  rewrite Hk in H4.
  eapply wf_subscribe; [by eapply wf_detach|exact H4|done|exact Hs'|].
  assert (alive se' = alive se) as -> by (unfold session_core in Ecore; congruence).
  done.
Qed.

(** ** [spawnSession], [handleConnection] and the parked calls *)

Lemma existing_alive_None w key :
  wf w → existing_alive key w = None → sessions w !! key = None.
Proof.
  intros Hwf E. destruct (sessions w !! key) as [s|] eqn:Hk; [|done].
  destruct (wf_registry _ Hwf _ _ Hk) as (se & Hs & _ & Ha).
  unfold existing_alive in E. rewrite Hk in E. simpl in E.
  rewrite Hs in E. simpl in E. by rewrite Ha in E.
Qed.

Lemma existing_alive_Some w key s :
  existing_alive key w = Some s →
  sessions w !! key = Some s ∧ ∃ se, heap w !! s = Some se ∧ alive se = true.
Proof.
  unfold existing_alive. intros E.
  destruct (sessions w !! key) as [s'|]; simpl in E; [|done].
  destruct (heap w !! s') as [se|] eqn:Hs; simpl in E; [|done].
  destruct (alive se) eqn:Ha; simplify_eq. eauto.
Qed.

Lemma wf_fresh_session w : wf w → heap w !! next_session w = None.
Proof.
  intros Hwf. destruct (heap w !! next_session w) as [se|] eqn:E; [|done].
  apply (wf_heap _ Hwf) in E. lia.
Qed.

Lemma wf_spawnSession key p w :
  wf w → sessions w !! key = None → wf (spawnSession key p w).2.
Proof.
  intros Hwf Hkey. pose proof (wf_fresh_session _ Hwf) as Hnew.
  assert (∀ s se, heap w !! s = Some se → s ≠ next_session w) as Hold.
  { intros s se Hs ->. congruence. }
  assert (∀ {A} (l : list (nat * A)) n m,
            (n ≤ m)%nat → Forall (λ e, (e.1 < n)%nat) l → Forall (λ e, (e.1 < m)%nat) l)
    as Hmono.
  { intros A l n m Hnm Hl. eapply Forall_impl; [done|]. intros; simpl in *; lia. }
  constructor; simpl.
  - intros c k Hk.
    destruct (wf_shape _ Hwf _ _ Hk) as [?|s i j se Hd Hs Hi Hj Hc]; [by apply shape_idle|].
    apply (shape_bound _ _ _ s i j se); simpl; try done.
    rewrite lookup_insert_ne; [done|]. intros <-. by eapply Hold.
  - intros s se i c Hs Hi. rewrite lookup_insert in Hs. case_decide; simplify_eq/=.
    + apply list_elem_of_singleton in Hi. done.
    + by eapply wf_data_owner.
  - intros s se j c Hs Hj. rewrite lookup_insert in Hs. case_decide; simplify_eq/=.
    + apply list_elem_of_singleton in Hj. done.
    + by eapply wf_exit_owner.
  - intros s se Hs. rewrite lookup_insert in Hs. case_decide; simplify_eq/=.
    + by eexists _, [].
    + by eapply wf_data_head.
  - intros s se Hs. rewrite lookup_insert in Hs. case_decide; simplify_eq/=.
    + by eexists _, [].
    + by eapply wf_exit_head.
  - intros s se Hs. rewrite lookup_insert in Hs. case_decide; simplify_eq/=.
    + split; [apply NoDup_singleton|]. apply Forall_singleton. simpl. lia.
    + destruct (wf_data_ids _ Hwf _ _ Hs). split; [done|]. eapply Hmono; [|done]. lia.
  - intros s se Hs. rewrite lookup_insert in Hs. case_decide; simplify_eq/=.
    + split; [apply NoDup_singleton|]. apply Forall_singleton. simpl. lia.
    + destruct (wf_exit_ids _ Hwf _ _ Hs). split; [done|]. eapply Hmono; [|done]. lia.
  - intros s se Hs. rewrite lookup_insert in Hs. case_decide; simplify_eq/=; [done|].
    by eapply wf_alive.
  - intros key' s Hk. rewrite lookup_insert in Hk. case_decide; simplify_eq/=.
    + eexists. rewrite lookup_insert_eq. done.
    + destruct (wf_registry _ Hwf _ _ Hk) as (se & Hs & ? & ?).
      exists se. rewrite lookup_insert_ne; [done|]. intros <-. by eapply Hold.
  - intros s se Hs Ha. rewrite lookup_insert in Hs. case_decide; simplify_eq/=.
    + by rewrite lookup_insert_eq.
    + pose proof (wf_registered _ Hwf _ _ Hs Ha) as Hr.
      rewrite lookup_insert_ne; [done|]. intros ->. congruence.
  - intros s se Hs. rewrite lookup_insert in Hs. case_decide; simplify_eq/=; [lia|].
    apply (wf_heap _ Hwf) in Hs. lia.
  - intros c key' Hin. by eapply wf_pending.
  - intros s se Hs. rewrite lookup_insert in Hs. case_decide; simplify_eq/=; [done|].
    by eapply wf_buffer.
  - intros s se Hs. rewrite lookup_insert in Hs. case_decide; simplify_eq/=.
    + apply not_elem_of_nil.
    + by eapply wf_no_kill.
Qed.

Lemma wf_with_pending f w :
  (∀ x, x ∈ f (pending w) → x ∈ pending w ∨ is_Some (conns w !! x.1)) →
  wf w → wf (with_pending f w).
Proof.
  intros Hf Hwf. constructor; simpl; try apply Hwf.
  - intros c k Hk.
    destruct (wf_shape _ Hwf _ _ Hk) as [?|s i j se Hd Hs Hi Hj Hc]; [by apply shape_idle|].
    by apply (shape_bound _ _ _ s i j se).
  - intros c key Hin. destruct (Hf _ Hin) as [?|?]; [|done]. by eapply wf_pending.
Qed.

Lemma remove_first_sub {A} `{EqDecision A} (x y : A) l :
  y ∈ remove_first x l → y ∈ l.
Proof.
  induction l as [|z l IH]; simpl; [done|].
  case_decide; rewrite !elem_of_cons; naive_solver.
Qed.

Lemma wf_new_conn c w :
  wf w → conns w !! c = None →
  wf (mkWorld (sessions w) (heap w) (<[c := mkConn None [] true []]> (conns w))
              (pending w) (next_listener w) (next_session w)).
Proof.
  intros Hwf Hc. constructor; simpl; try apply Hwf.
  - intros c' k Hk. rewrite lookup_insert in Hk. case_decide; simplify_eq/=.
    + by apply shape_idle.
    + destruct (wf_shape _ Hwf _ _ Hk) as [?|s i j se Hd Hs Hi Hj Hc'];
        [by apply shape_idle|].
      by apply (shape_bound _ _ _ s i j se).
  - intros s se i c' Hs Hi.
    destruct (wf_data_owner _ Hwf _ _ _ _ Hs Hi) as (k & Hk & Hin).
    exists k. rewrite lookup_insert_ne; [done|]. congruence.
  - intros s se j c' Hs Hj.
    destruct (wf_exit_owner _ Hwf _ _ _ _ Hs Hj) as (k & Hk & Hin).
    exists k. rewrite lookup_insert_ne; [done|]. congruence.
  - intros c' key Hin. destruct (wf_pending _ Hwf _ _ Hin) as [k Hk].
    rewrite lookup_insert. case_decide; eauto.
Qed.

Lemma wf_initial : wf initial.
Proof.
  constructor; simpl; intros; try by (rewrite lookup_empty in *).
  by apply elem_of_nil in H.
Qed.

(** ** Firing the callbacks of connections *)

Lemma fold_forward s data l w :
  Forall (λ e, ∃ c, e.2 = ForwardOutput c) l →
  let w' := foldl (run_data_listener s data) w l in
  sessions w' = sessions w ∧ heap w' = heap w ∧ pending w' = pending w
  ∧ next_listener w' = next_listener w ∧ next_session w' = next_session w
  ∧ ∀ c, conns w' !! c
         = (λ k, with_sent (λ fs, fs ++ if readyOpen k
                                        then map (λ _, Raw data) (forwards_to c l)
                                        else []) k) <$> conns w !! c.
Proof.
  intros Hl. revert w. induction Hl as [|[i x] l [c0 Hx] Hl IH]; intros w; simpl.
  - repeat split. intros c. destruct (conns w !! c) as [[]|]; simpl; [|done].
    unfold with_sent; simpl. by destruct readyOpen0; rewrite (right_id_L [] (++)).
  - simpl in Hx. subst x.
    destruct (IH (run_data_listener s data w (i, ForwardOutput c0)))
      as (E1 & E2 & E3 & E4 & E5 & E6).
    unfold run_data_listener in *. simpl in *.
    assert (∀ P : World → Prop, P w → P (ws_send c0 (Raw data) w) →
              P (if conn_open c0 w then ws_send c0 (Raw data) w else w)) as Hif.
    { intros P ??. by destruct (conn_open c0 w). }
    split; [rewrite E1; by apply Hif|]. split; [rewrite E2; by apply Hif|].
    split; [rewrite E3; by apply Hif|]. split; [rewrite E4; by apply Hif|].
    split; [rewrite E5; by apply Hif|].
    intros c. rewrite E6. unfold forwards_to. rewrite filter_cons. simpl.
    unfold conn_open. destruct (decide (c0 = c)) as [->|Hne].
    + rewrite decide_True by done.
      destruct (conns w !! c) as [k|] eqn:Hk; simpl; [|by rewrite Hk].
      destruct (readyOpen k) eqn:Ho; simpl.
      * rewrite lookup_alter_eq, Hk. simpl. rewrite Ho.
        unfold with_sent; simpl. by rewrite <- (assoc_L (++)).
      * rewrite Hk. simpl. by rewrite Ho.
    + rewrite decide_False by congruence.
      destruct (conns w !! c0) as [k0|]; [destruct (readyOpen k0)|]; simpl;
        by rewrite ?lookup_alter_ne.
Qed.

Lemma fold_notify s key code l w :
  Forall (λ e, ∃ c, e.2 = NotifyExit c) l →
  let w' := foldl (run_exit_listener s key code) w l in
  sessions w' = sessions w ∧ heap w' = heap w ∧ pending w' = pending w
  ∧ next_listener w' = next_listener w ∧ next_session w' = next_session w
  ∧ ∀ c, conns w' !! c
         = (λ k, mkConn (if bool_decide (notifies c l = []) then currentSession k else None)
                   (disposables k) (readyOpen k)
                   (sent k ++ if readyOpen k
                              then map (λ _, Ctl (Exited code key)) (notifies c l)
                              else [])) <$> conns w !! c.
Proof.
  intros Hl. revert w. induction Hl as [|[j x] l [c0 Hx] Hl IH]; intros w; simpl.
  - repeat split. intros c. destruct (conns w !! c) as [[]|]; simpl; [|done].
    by destruct readyOpen0; rewrite (right_id_L [] (++)).
  - simpl in Hx. subst x.
    destruct (IH (run_exit_listener s key code w (j, NotifyExit c0)))
      as (E1 & E2 & E3 & E4 & E5 & E6).
    unfold run_exit_listener, sendControl in *. simpl in *.
    assert (∀ {A} (P : World → A) x, P w = x → P (ws_send c0 (Ctl (Exited code key)) w) = x →
              P (if conn_open c0 w then ws_send c0 (Ctl (Exited code key)) w else w) = x) as Hif.
    { intros A P x ??. by destruct (conn_open c0 w). }
    split; [rewrite E1; by apply (Hif _ sessions)|].
    split; [rewrite E2; by apply (Hif _ heap)|].
    split; [rewrite E3; by apply (Hif _ pending)|].
    split; [rewrite E4; by apply (Hif _ next_listener)|].
    split; [rewrite E5; by apply (Hif _ next_session)|].
    intros c. rewrite E6. unfold notifies. rewrite filter_cons. simpl.
    unfold conn_open. destruct (decide (c0 = c)) as [->|Hne].
    + rewrite decide_True by done. rewrite lookup_alter_eq.
      destruct (conns w !! c) as [k|] eqn:Hk; simpl; [|by rewrite Hk].
      destruct (readyOpen k) eqn:Ho; simpl.
      * rewrite lookup_alter_eq, Hk. simpl. rewrite Ho.
        f_equal. f_equal; [by case_bool_decide|]. by rewrite <- (assoc_L (++)).
      * rewrite Hk. simpl. rewrite Ho. f_equal. f_equal. by case_bool_decide.
    + rewrite decide_False by congruence. rewrite lookup_alter_ne by done.
      destruct (conns w !! c0) as [k0|]; [destruct (readyOpen k0)|]; simpl;
        by rewrite ?lookup_alter_ne.
Qed.

(** ** One connection, at most one callback of each kind *)

Lemma filter_none {A} (P : A → Prop) `{∀ x, Decision (P x)} (l : list A) :
  (∀ x, x ∈ l → ¬ P x) → filter P l = [].
Proof.
  intros Hl. destruct (filter P l) as [|x r] eqn:E; [done|].
  assert (x ∈ filter P l) as [? ?]%list_elem_of_filter by (rewrite E; by left).
  by destruct (Hl x).
Qed.

Lemma filter_unique {A} (P : nat * A → Prop) `{∀ x, Decision (P x)} (l : list (nat * A)) y :
  NoDup l.*1 → y ∈ l → P y → (∀ z, z ∈ l → P z → z = y) → filter P l = [y].
Proof.
  intros Hnd Hy HP Huniq.
  induction l as [|z l IH]; [by apply elem_of_nil in Hy|].
  simpl in Hnd. apply NoDup_cons in Hnd as [Hni Hnd].
  rewrite filter_cons. apply elem_of_cons in Hy as [<-|Hy].
  - rewrite decide_True by done. f_equal.
    apply filter_none. intros z Hz HPz.
    assert (z = y) as -> by (apply Huniq; [by right|done]).
    apply Hni. apply list_elem_of_fmap. by exists y.
  - assert (z ≠ y).
    { intros ->. apply Hni. apply list_elem_of_fmap. by exists y. }
    rewrite decide_False.
    + apply IH; [done|done|]. intros z' Hz'. apply Huniq. by right.
    + intros HPz. specialize (Huniq z (list_elem_of_here _ _) HPz). done.
Qed.

Lemma wf_attached_shape w c k s :
  wf w → conns w !! c = Some k → currentSession k = Some s →
  ∃ i j se, disposables k = [DisposeData s i; DisposeExit s j]
            ∧ heap w !! s = Some se ∧ alive se = true
            ∧ (i, ForwardOutput c) ∈ onData (pty se)
            ∧ (j, NotifyExit c) ∈ onExit (pty se).
Proof.
  intros Hwf Hk Hcur.
  destruct (wf_shape _ Hwf _ _ Hk) as [?|s0 i j se Hd Hs Hi Hj Hc]; [congruence|].
  rewrite Hcur in Hc. destruct (alive se) eqn:Ha; simplify_eq.
  eauto 10.
Qed.

Lemma notifies_attached w c k s se :
  wf w → conns w !! c = Some k → currentSession k = Some s → heap w !! s = Some se →
  ∃ j, notifies c (onExit (pty se)) = [(j, NotifyExit c)].
Proof.
  intros Hwf Hk Hcur Hs.
  destruct (wf_attached_shape _ _ _ _ Hwf Hk Hcur) as (i & j & se' & Hd & Hs' & _ & _ & Hj).
  simplify_eq. exists j.
  destruct (wf_exit_ids _ Hwf _ _ Hs) as [Hnd _].
  apply filter_unique; try done.
  intros [j' x] Hz Hx. simpl in Hx. subst x.
  destruct (wf_exit_owner _ Hwf _ _ _ _ Hs Hz) as (k' & Hk' & Hin).
  simplify_eq. rewrite Hd, !elem_of_cons, elem_of_nil in Hin. naive_solver.
Qed.

Lemma forwards_attached w c k s se :
  wf w → conns w !! c = Some k → currentSession k = Some s → heap w !! s = Some se →
  ∃ i, forwards_to c (onData (pty se)) = [(i, ForwardOutput c)].
Proof.
  intros Hwf Hk Hcur Hs.
  destruct (wf_attached_shape _ _ _ _ Hwf Hk Hcur) as (i & j & se' & Hd & Hs' & _ & Hi & _).
  simplify_eq. exists i.
  destruct (wf_data_ids _ Hwf _ _ Hs) as [Hnd _].
  apply filter_unique; try done.
  intros [i' x] Hz Hx. simpl in Hx. subst x.
  destruct (wf_data_owner _ Hwf _ _ _ _ Hs Hz) as (k' & Hk' & Hin).
  simplify_eq. rewrite Hd, !elem_of_cons, elem_of_nil in Hin. naive_solver.
Qed.

Lemma notifies_elsewhere w c s se :
  wf w → heap w !! s = Some se → alive se = true → conn_session c w ≠ Some s →
  notifies c (onExit (pty se)) = [].
Proof.
  intros Hwf Hs Ha Hne. apply filter_none.
  intros [j x] Hz Hx. simpl in Hx. subst x. apply Hne.
  destruct (wf_exit_owner _ Hwf _ _ _ _ Hs Hz) as (k & Hk & Hin).
  unfold conn_session. rewrite Hk. simpl.
  destruct (wf_shape _ Hwf _ _ Hk) as [Hd|s0 i0 j0 se0 Hd Hs0 _ _ Hc];
    rewrite Hd in Hin; [by apply elem_of_nil in Hin|].
  rewrite !elem_of_cons, elem_of_nil in Hin.
  destruct Hin as [?|[?|[]]]; simplify_eq. by rewrite Hc, Ha.
Qed.

Lemma forwards_elsewhere w c s se :
  wf w → heap w !! s = Some se → alive se = true → conn_session c w ≠ Some s →
  forwards_to c (onData (pty se)) = [].
Proof.
  intros Hwf Hs Ha Hne. apply filter_none.
  intros [j x] Hz Hx. simpl in Hx. subst x. apply Hne.
  destruct (wf_data_owner _ Hwf _ _ _ _ Hs Hz) as (k & Hk & Hin).
  unfold conn_session. rewrite Hk. simpl.
  destruct (wf_shape _ Hwf _ _ Hk) as [Hd|s0 i0 j0 se0 Hd Hs0 _ _ Hc];
    rewrite Hd in Hin; [by apply elem_of_nil in Hin|].
  rewrite !elem_of_cons, elem_of_nil in Hin.
  destruct Hin as [?|[?|[]]]; simplify_eq. by rewrite Hc, Ha.
Qed.

(** ** Process output and process exit as world updates *)

Lemma fire_data_spec s se data w :
  wf w → heap w !! s = Some se →
  let w' := fire_data s data w in
  sessions w' = sessions w
  ∧ heap w' = alter (with_buffer (λ b, buffer_onData b data)) s (heap w)
  ∧ pending w' = pending w
  ∧ next_listener w' = next_listener w ∧ next_session w' = next_session w
  ∧ ∀ c, conns w' !! c
         = (λ k, with_sent (λ fs, fs ++ if readyOpen k
                                        then map (λ _, Raw data)
                                                 (forwards_to c (onData (pty se)))
                                        else []) k) <$> conns w !! c.
Proof.
  intros Hwf Hs. unfold fire_data. rewrite Hs.
  destruct (wf_data_head _ Hwf _ _ Hs) as (i0 & rest & -> & Hrest). simpl.
  unfold run_data_listener at 2. simpl.
  destruct (fold_forward s data rest
              (upd_session s (with_buffer (λ b, buffer_onData b data)) w) Hrest)
    as (E1 & E2 & E3 & E4 & E5 & E6).
  repeat split; try done;
    intros c; rewrite E6; simpl; unfold forwards_to; rewrite filter_cons; simpl;
    by rewrite decide_False.
Qed.

Lemma fire_exit_spec s se code w :
  wf w → heap w !! s = Some se →
  let w' := fire_exit s code w in
  sessions w' = delete (cwd se) (sessions w)
  ∧ heap w' = alter (with_alive false) s (alter (with_pty pty_stop) s (heap w))
  ∧ pending w' = pending w
  ∧ next_listener w' = next_listener w ∧ next_session w' = next_session w
  ∧ ∀ c, conns w' !! c
         = (λ k, mkConn (if bool_decide (notifies c (onExit (pty se)) = [])
                         then currentSession k else None)
                   (disposables k) (readyOpen k)
                   (sent k ++ if readyOpen k
                              then map (λ _, Ctl (Exited code (cwd se)))
                                       (notifies c (onExit (pty se)))
                              else [])) <$> conns w !! c.
Proof.
  intros Hwf Hs. unfold fire_exit. rewrite Hs.
  destruct (wf_exit_head _ Hwf _ _ Hs) as (j0 & rest & -> & Hrest). simpl.
  unfold run_exit_listener at 2. simpl.
  match goal with |- context [foldl _ ?w0 rest] =>
    destruct (fold_notify s (cwd se) code rest w0 Hrest) as (E1 & E2 & E3 & E4 & E5 & E6)
  end.
  repeat split; try done;
    intros c; rewrite E6; simpl; unfold notifies; rewrite filter_cons; simpl;
    by rewrite decide_False.
Qed.

Lemma wf_fire_data s data w : wf w → wf (fire_data s data w).
Proof. intros. eapply wf_world_sim; [apply world_sim_fire_data|done]. Qed.

Lemma wf_fire_exit s se code w :
  wf w → heap w !! s = Some se → running (pty se) = true → wf (fire_exit s code w).
Proof.
  intros Hwf Hs Hrun.
  destruct (fire_exit_spec s se code w Hwf Hs) as (E1 & E2 & E3 & E4 & E5 & E6).
  set (w' := fire_exit s code w) in *. clearbody w'.
  assert (alive se = true) as Ha by (by rewrite (wf_alive _ Hwf _ _ Hs)).
  assert (∀ s' se', heap w' !! s' = Some se' →
            ∃ se0, heap w !! s' = Some se0
                   ∧ onData (pty se') = onData (pty se0) ∧ onExit (pty se') = onExit (pty se0)
                   ∧ cwd se' = cwd se0 ∧ buffer se' = buffer se0
                   ∧ calls (pty se') = calls (pty se0)
                   ∧ ((s' = s ∧ alive se' = false ∧ running (pty se') = false)
                      ∨ (s' ≠ s ∧ se' = se0))) as Hheap.
  { intros s' se' Hs'. rewrite E2 in Hs'. lookups; eexists; split; eauto 10. }
  assert (∀ s' se0, heap w !! s' = Some se0 → s' ≠ s → heap w' !! s' = Some se0) as Hheap'.
  { intros s' se0 Hs' Hne. rewrite E2. by rewrite !lookup_alter_ne. }
  constructor.
  - intros c k' Hk'. rewrite E6 in Hk'.
    apply fmap_Some in Hk' as (k & Hk & ->).
    destruct (wf_shape _ Hwf _ _ Hk) as [Hd Hc|s0 i j se0 Hd Hs0 Hi Hj Hc].
    + apply shape_idle; simpl; [done|]. rewrite Hc. by case_bool_decide.
    + destruct (decide (s0 = s)) as [->|Hne].
      * simplify_eq.
        eapply (shape_bound _ _ _ s i j); simpl; [done| | | |].
        -- rewrite E2, !lookup_alter_eq, Hs. done.
        -- done.
        -- done.
        -- simpl. rewrite bool_decide_eq_false_2; [done|].
           intros Hnil.
           by eapply (filter_nil_not_elem_of _ _ (j, NotifyExit c) Hnil).
      * apply (shape_bound _ _ _ s0 i j se0); simpl; try done; [by apply Hheap'|].
        rewrite Hc. case_bool_decide as Hn; [done|].
        destruct (notifies c (onExit (pty se))) as [|[j' x] r] eqn:En; [done|].
        assert ((j', x) ∈ notifies c (onExit (pty se))) as Hin by (rewrite En; by left).
        apply list_elem_of_filter in Hin as [Hx Hin]. simpl in Hx. subst x.
        destruct (wf_exit_owner _ Hwf _ _ _ _ Hs Hin) as (k' & Hk' & Hin').
        simplify_eq. rewrite Hd, !elem_of_cons, elem_of_nil in Hin'. naive_solver.
  - intros s' se' i c Hs' Hi.
    destruct (Hheap _ _ Hs') as (se0 & Hs0 & Ed & _).
    rewrite Ed in Hi. destruct (wf_data_owner _ Hwf _ _ _ _ Hs0 Hi) as (k & Hk & Hin).
    eexists. rewrite E6, Hk. simpl. done.
  - intros s' se' j c Hs' Hj.
    destruct (Hheap _ _ Hs') as (se0 & Hs0 & _ & Ee & _).
    rewrite Ee in Hj. destruct (wf_exit_owner _ Hwf _ _ _ _ Hs0 Hj) as (k & Hk & Hin).
    eexists. rewrite E6, Hk. simpl. done.
  - intros s' se' Hs'. destruct (Hheap _ _ Hs') as (se0 & Hs0 & -> & _).
    by eapply wf_data_head.
  - intros s' se' Hs'. destruct (Hheap _ _ Hs') as (se0 & Hs0 & _ & -> & _).
    by eapply wf_exit_head.
  - intros s' se' Hs'. destruct (Hheap _ _ Hs') as (se0 & Hs0 & -> & _).
    rewrite E4. by eapply wf_data_ids.
  - intros s' se' Hs'. destruct (Hheap _ _ Hs') as (se0 & Hs0 & _ & -> & _).
    rewrite E4. by eapply wf_exit_ids.
  - intros s' se' Hs'.
    destruct (Hheap _ _ Hs') as (se0 & Hs0 & _ & _ & _ & _ & _ & [(_ & -> & ->)|(_ & ->)]);
      [done|by eapply wf_alive].
  - intros key s' Hkey. rewrite E1 in Hkey.
    apply lookup_delete_Some in Hkey as [Hne Hkey].
    destruct (wf_registry _ Hwf _ _ Hkey) as (se0 & Hs0 & Ec & Ha0).
    exists se0. split; [|done]. apply Hheap'; [done|]. intros ->. simplify_eq.
  - intros s' se' Hs' Ha'.
    destruct (Hheap _ _ Hs') as (se0 & Hs0 & _ & _ & _ & _ & _ & [(_ & ? & _)|(Hne & ->)]);
      [congruence|].
    pose proof (wf_registered _ Hwf _ _ Hs0 Ha') as Hr.
    rewrite E1. apply lookup_delete_Some. split; [|done].
    intros Heq. rewrite <- Heq in Hr.
    pose proof (wf_registered _ Hwf _ _ Hs Ha). congruence.
  - intros s' se' Hs'. destruct (Hheap _ _ Hs') as (se0 & Hs0 & _).
    rewrite E5. by eapply wf_heap.
  - intros c key Hin. rewrite E3 in Hin.
    destruct (wf_pending _ Hwf _ _ Hin) as [k Hk]. rewrite E6, Hk. by eexists.
  - intros s' se' Hs'. destruct (Hheap _ _ Hs') as (se0 & Hs0 & _ & _ & _ & -> & _).
    by eapply wf_buffer.
  - intros s' se' Hs'. destruct (Hheap _ _ Hs') as (se0 & Hs0 & _ & _ & _ & _ & -> & _).
    by eapply wf_no_kill.
Qed.

(** ** Every transition keeps the invariant *)

Lemma conn_open_true c w :
  conn_open c w = true → ∃ k, conns w !! c = Some k ∧ readyOpen k = true.
Proof. unfold conn_open. destruct (conns w !! c); [eauto|done]. Qed.

Lemma wf_selectProject_resume c key isdir sp w :
  wf w → is_Some (conns w !! c) → wf (selectProject_resume c key isdir sp w).
Proof.
  intros Hwf [k Hk]. unfold selectProject_resume.
  destruct isdir; simpl; [|by eapply wf_world_sim; [apply world_sim_sendControl|]].
  destruct (existing_alive key w) as [s|] eqn:Ee.
  - destruct (existing_alive_Some _ _ _ Ee) as (_ & se & Hs & Ha).
    pose proof (wf_attach _ _ _ _ _ Hwf Hk Hs Ha) as Hwf1.
    eapply wf_world_sim; [apply world_sim_sendControl|].
    match goal with |- wf (if ?b then _ else _) => destruct b end; [|done].
    eapply wf_world_sim; [apply world_sim_ws_send|done].
  - destruct sp as [p|err]; [|by eapply wf_world_sim; [apply world_sim_sendControl|]].
    pose proof (wf_spawnSession key p w Hwf (existing_alive_None _ _ Hwf Ee)) as Hwf1.
    destruct (spawnSession key p w) as [s w1] eqn:Esp.
    eapply wf_world_sim; [apply world_sim_sendControl|].
    unfold spawnSession in Esp. simpl in Esp. injection Esp as <- <-.
    eapply wf_attach; [exact Hwf1|exact Hk| |]; simpl.
    + apply lookup_insert_eq.
    + done.
Qed.

Lemma wf_on_message parse c msg w :
  wf w → conn_open c w = true → wf (on_message parse c msg w).
Proof.
  intros Hwf (k & Hk & _)%conn_open_true. unfold on_message.
  destruct msg as [|prefix payload]; [done|].
  repeat case_match; try done.
  - eapply wf_world_sim; [by apply world_sim_pty_call|done].
  - eapply wf_world_sim; [by apply world_sim_pty_call|done].
  - apply wf_with_pending; [|by eapply wf_detach].
    intros [c' key]. cbv beta. rewrite elem_of_app, list_elem_of_singleton.
    intros [?|[= -> ->]]; [by left|]. right. cbn [fst].
    destruct (detach_frame c w) as (_ & _ & _ & -> & _). rewrite Hk. by eexists.
Qed.

Lemma wf_handle parse e w : wf w → enabled e w = true → wf (handle parse e w).
Proof.
  intros Hwf Hen. destruct e as [c|c msg|c key isdir sp|c|s data|s code]; simpl in *.
  - apply bool_decide_eq_true in Hen. unfold handleConnection.
    eapply wf_world_sim; [apply world_sim_sendControl|]. by apply wf_new_conn.
  - by apply wf_on_message.
  - apply bool_decide_eq_true in Hen.
    apply wf_selectProject_resume.
    + apply wf_with_pending; [|done]. intros x Hx. left. by eapply remove_first_sub.
    + simpl. by eapply wf_pending.
  - apply conn_open_true in Hen as (k & Hk & _). unfold on_close.
    eapply wf_detach.
    + eapply wf_world_sim; [|done]. apply world_sim_upd_conn. intros. by split.
    + simpl. by rewrite lookup_alter_eq, Hk.
  - by apply wf_fire_data.
  - unfold pty_running in Hen. destruct (heap w !! s) as [se|] eqn:Hs; [|done].
    by eapply wf_fire_exit.
Qed.

Lemma wf_run parse es w w' : wf w → run parse es w = Some w' → wf w'.
Proof.
  revert w. induction es as [|e es IH]; intros w Hwf Hrun; simpl in Hrun.
  - by simplify_eq.
  - destruct (enabled e w) eqn:Hen; [|done].
    eapply IH; [|done]. by apply wf_handle.
Qed.

Lemma wf_reachable parse w : reachable parse w → wf w.
Proof.
  intros [es Hsteps]. revert Hsteps. generalize wf_initial. generalize initial.
  induction es as [|e es IH]; intros w0 Hwf Hsteps; inversion Hsteps; subst; [done|].
  match goal with H : step _ _ _ _ |- _ => destruct H end.
  eapply IH; [|done]. by apply wf_handle.
Qed.

Lemma run_steps parse es w w' : run parse es w = Some w' ↔ steps parse w es w'.
Proof.
  revert w. induction es as [|e es IH]; intros w; simpl.
  - split; [intros [= ->]; constructor|by inversion 1].
  - destruct (enabled e w) eqn:Hen.
    + rewrite IH. split.
      * intros ?. econstructor; [by constructor|done].
      * inversion 1 as [|? ? ? ? ? Hstep]; subst. by destruct Hstep.
    + split; [done|]. inversion 1 as [|? ? ? ? ? Hstep]; subst.
      destruct Hstep. congruence.
Qed.

(** ** What a select does, branch by branch *)


Lemma sendControl_open c m w :
  conn_open c w = true → sendControl c m w = ws_send c (Ctl m) w.
Proof. unfold sendControl. by intros ->. Qed.

Lemma sendControl_closed c m w :
  conn_open c w = false → sendControl c m w = w.
Proof. unfold sendControl. by intros ->. Qed.

Lemma same_core_ws_send c f w : same_core w (ws_send c f w).
Proof. apply same_core_upd_conn. Qed.

Lemma same_core_sendControl c m w : same_core w (sendControl c m w).
Proof.
  unfold sendControl. destruct (conn_open c w);
    [apply same_core_ws_send|apply same_core_refl].
Qed.

Lemma sendControl_other c m w c' :
  c' ≠ c → conns (sendControl c m w) !! c' = conns w !! c'.
Proof.
  intros Hne. unfold sendControl. destruct (conn_open c w); [|done].
  simpl. by rewrite lookup_alter_ne.
Qed.

Lemma sendControl_pending c m w : pending (sendControl c m w) = pending w.
Proof. unfold sendControl. by destruct (conn_open c w). Qed.

(** The branch of [selectProject] that finds a live session. *)
Lemma resume_attach c key sp w k s se :
  conns w !! c = Some k → readyOpen k = true →
  existing_alive key w = Some s → heap w !! s = Some se →
  let w' := selectProject_resume c key true sp w in
  conns w' !! c
  = Some (mkConn (Some s)
            [DisposeData s (next_listener w); DisposeExit s (S (next_listener w))]
            true
            (sent k ++ replay_frames (buffer se) ++ [Ctl (Attached key (pid (pty se)))]))
  ∧ same_core w w'
  ∧ pending w' = pending w
  ∧ (∀ c', c' ≠ c → conns w' !! c' = conns w !! c')
  ∧ heap w' = heap (attach c s w).
Proof.
  intros Hk Ho Hex Hs. unfold selectProject_resume. cbn [negb]. rewrite Hex.
  destruct (attach_frame c s w) as (Hcore & Hp & Hc & Hoth).
  remember (attach c s w) as w1 eqn:Ew1. rewrite Hk in Hc. simpl in Hc.
  destruct (same_core_lookup _ _ _ _ Hcore Hs) as (se1 & Hs1 & Ecore).
  assert (buffer se1 = buffer se ∧ pid (pty se1) = pid (pty se)) as [Eb Ep]
    by (unfold session_core in Ecore; split; congruence).
  rewrite Hs1, Eb.
  assert (conn_open c w1 = true) as Ho1 by (unfold conn_open; by rewrite Hc, Ho).
  rewrite Ho1, andb_true_r.
  set (w2 := if bool_decide (buffer se ≠ []) then ws_send c (Raw (buffer se)) w1 else w1).
  assert (heap w2 = heap w1 ∧ sessions w2 = sessions w1 ∧ pending w2 = pending w1
          ∧ next_session w2 = next_session w1
          ∧ (∀ c', c' ≠ c → conns w2 !! c' = conns w1 !! c')
          ∧ conns w2 !! c
            = Some (mkConn (Some s)
                      [DisposeData s (next_listener w); DisposeExit s (S (next_listener w))]
                      true (sent k ++ replay_frames (buffer se))))
    as (Eh & Es & Epd & Ens & Hoth2 & Hc2).
  { unfold w2, replay_frames. case_bool_decide; simpl.
    - split_and!; try done; [by intros; rewrite lookup_alter_ne|].
      by rewrite lookup_alter_eq, Hc, Ho.
    - split_and!; try done. by rewrite Hc, Ho, (right_id_L [] (++)). }
  clearbody w2. rewrite Eh, Hs1, Ep.
  assert (conn_open c w2 = true) as Ho2 by (unfold conn_open; by rewrite Hc2).
  rewrite (sendControl_open _ _ _ Ho2). simpl.
  split.
  { rewrite lookup_alter_eq, Hc2. unfold with_sent; simpl.
    by rewrite <- (assoc_L (++)). }
  split.
  { destruct Hcore as (?&?&Hcore). split; [simpl; congruence|].
    split; [simpl; congruence|]. intros s'. simpl. by rewrite Eh. }
  split; [congruence|]. split; [|done].
  intros c' Hne. by rewrite lookup_alter_ne, Hoth2, Hoth.
Qed.

(** The branch of [selectProject] that spawns. *)
Lemma resume_spawn c key p w k :
  conns w !! c = Some k → readyOpen k = true →
  existing_alive key w = None →
  let w' := selectProject_resume c key true (SpawnOk p) w in
  let s := next_session w in
  conns w' !! c
  = Some (mkConn (Some s)
            [DisposeData s (S (S (next_listener w)));
             DisposeExit s (S (S (S (next_listener w))))]
            true (sent k ++ [Ctl (Spawned key p)]))
  ∧ sessions w' = <[key := s]> (sessions w)
  ∧ next_session w' = S s
  ∧ session_core <$> heap w' !! s = Some (p, true, [], key, [], true)
  ∧ (∀ s', s' ≠ s → session_core <$> heap w' !! s' = session_core <$> heap w !! s')
  ∧ pending w' = pending w
  ∧ (∀ c', c' ≠ c → conns w' !! c' = conns w !! c')
  ∧ heap w' = heap (attach c s (spawnSession key p w).2).
Proof.
  intros Hk Ho Hex. unfold selectProject_resume. cbn [negb]. rewrite Hex.
  destruct (spawnSession key p w) as [s w0] eqn:Esp.
  unfold spawnSession in Esp. simpl in Esp. injection Esp as <- <-.
  match goal with |- context [attach c ?s ?w0] =>
    destruct (attach_frame c s w0) as (Hcore & Hp & Hc & Hoth);
    remember (attach c s w0) as w1 eqn:Ew1
  end.
  simpl in Hc, Hp, Hoth. rewrite Hk in Hc. simpl in Hc.
  assert (conn_open c w1 = true) as Ho1 by (unfold conn_open; by rewrite Hc, Ho).
  rewrite (sendControl_open _ _ _ Ho1). simpl.
  destruct Hcore as (Es & Ens & Hcore). simpl in Es, Ens, Hcore.
  split; [by rewrite lookup_alter_eq, Hc, Ho|].
  split; [done|]. split; [done|].
  split; [by rewrite Hcore, lookup_insert_eq|].
  split; [by intros s' Hne; rewrite Hcore, lookup_insert_ne|].
  split; [done|]. split; [|subst w1; reflexivity].
  intros c' Hne. by rewrite lookup_alter_ne, Hoth.
Qed.

Lemma resume_invalid c key sp w k :
  conns w !! c = Some k → readyOpen k = true →
  let w' := selectProject_resume c key false sp w in
  conns w' !! c = Some (with_sent (λ fs, fs ++ [Ctl (Error (NotAValidDirectory key))]) k)
  ∧ sessions w' = sessions w ∧ heap w' = heap w
  ∧ next_session w' = next_session w ∧ next_listener w' = next_listener w
  ∧ pending w' = pending w
  ∧ (∀ c', c' ≠ c → conns w' !! c' = conns w !! c').
Proof.
  intros Hk Ho. unfold selectProject_resume. simpl.
  rewrite sendControl_open by (unfold conn_open; by rewrite Hk).
  simpl. rewrite lookup_alter_eq, Hk. repeat split.
  intros c' Hne. by rewrite lookup_alter_ne.
Qed.

(** ** A select frame, handled without interruption *)

Lemma message_select parse c payload key w :
  parse payload = Some key →
  handle parse (Message c (50%N :: payload)) w = selectProject_call c key (detach c w).
Proof. intros E. simpl. by rewrite E. Qed.

Lemma existing_alive_lookup w key s se :
  sessions w !! key = Some s → heap w !! s = Some se → alive se = true →
  existing_alive key w = Some s.
Proof. intros Hk Hs Ha. unfold existing_alive. rewrite Hk. simpl. rewrite Hs. simpl. by rewrite Ha. Qed.

Lemma select_message_frame parse c payload key w k :
  conns w !! c = Some k → parse payload = Some key →
  let w1 := handle parse (Message c (50%N :: payload)) w in
  conns w1 !! c = Some (mkConn None [] (readyOpen k) (sent k))
  ∧ (∀ c', c' ≠ c → conns w1 !! c' = conns w !! c')
  ∧ same_core w w1
  ∧ pending w1 = pending w ++ [(c, key)]
  ∧ next_listener w1 = next_listener w
  ∧ heap w1 = heap (detach c w).
Proof.
  intros Hk E. rewrite (message_select _ _ _ _ _ E).
  destruct (detach_frame c w) as (H1 & H2 & H3 & H4 & H5).
  unfold selectProject_call, with_pending. cbn [conns pending next_listener heap].
  rewrite H4, Hk, H2. split; [done|]. split; [done|]. split; [|done].
  destruct H1 as (?&?&?). by split.
Qed.

Lemma remove_first_snoc {A} `{EqDecision A} (x : A) l :
  x ∈ remove_first x (l ++ [x]) ∨ remove_first x (l ++ [x]) = l.
Proof.
  induction l as [|y l IH]; simpl.
  - right. by rewrite decide_True.
  - case_decide; subst.
    + left. apply elem_of_app. right. by left.
    + destruct IH as [? | ->]; [left; by right|by right].
Qed.

Lemma select_frame_attach parse w c payload key sp k s se :
  conns w !! c = Some k → readyOpen k = true → parse payload = Some key →
  existing_alive key w = Some s → heap w !! s = Some se →
  let w1 := handle parse (Message c (50%N :: payload)) w in
  let w2 := handle parse (IsDirectory c key true sp) w1 in
  conns w2 !! c
  = Some (mkConn (Some s)
            [DisposeData s (next_listener w); DisposeExit s (S (next_listener w))]
            true
            (sent k ++ replay_frames (buffer se) ++ [Ctl (Attached key (pid (pty se)))]))
  ∧ same_core w w2
  ∧ (∀ c', c' ≠ c → conns w2 !! c' = conns w !! c')
  ∧ pending w2 = remove_first (c, key) (pending w ++ [(c, key)]).
Proof.
  intros Hk Ho E Hex Hs.
  destruct (select_message_frame parse c payload key w k Hk E)
    as (Hc1 & Hoth1 & Hcore1 & Hp1 & Hn1 & _).
  set (w1 := handle parse (Message c (50%N :: payload)) w) in *. clearbody w1.
  destruct (same_core_lookup _ _ _ _ Hcore1 Hs) as (se1 & Hs1 & Ecore).
  assert (buffer se1 = buffer se ∧ pid (pty se1) = pid (pty se)) as [Eb Ep]
    by (unfold session_core in Ecore; split; congruence).
  cbn [handle].
  set (w1' := with_pending (remove_first (c, key)) w1).
  destruct (resume_attach c key sp w1' (mkConn None [] (readyOpen k) (sent k)) s se1)
    as (Hc2 & Hcore2 & Hp2 & Hoth2 & _); try done.
  { unfold w1'. change (existing_alive key w1 = Some s).
    by rewrite (same_core_existing_alive _ _ _ Hcore1). }
  cbn zeta in Hc2, Hcore2, Hp2, Hoth2. simpl in Hc2.
  rewrite Eb, Ep in Hc2. change (next_listener w1') with (next_listener w1) in Hc2.
  rewrite Hn1 in Hc2.
  split; [exact Hc2|]. split.
  { eapply same_core_trans; [exact Hcore1|]. exact Hcore2. }
  split.
  { intros c' Hne. rewrite (Hoth2 _ Hne). by apply Hoth1. }
  rewrite Hp2. unfold w1'. simpl. by rewrite Hp1.
Qed.

Lemma select_frame_spawn parse w c payload key p k :
  conns w !! c = Some k → readyOpen k = true → parse payload = Some key →
  existing_alive key w = None →
  let w1 := handle parse (Message c (50%N :: payload)) w in
  let w2 := handle parse (IsDirectory c key true (SpawnOk p)) w1 in
  let s := next_session w in
  conns w2 !! c
  = Some (mkConn (Some s)
            [DisposeData s (S (S (next_listener w)));
             DisposeExit s (S (S (S (next_listener w))))]
            true (sent k ++ [Ctl (Spawned key p)]))
  ∧ sessions w2 = <[key := s]> (sessions w)
  ∧ next_session w2 = S s
  ∧ session_core <$> heap w2 !! s = Some (p, true, [], key, [], true)
  ∧ (∀ s', s' ≠ s → session_core <$> heap w2 !! s' = session_core <$> heap w !! s')
  ∧ (∀ c', c' ≠ c → conns w2 !! c' = conns w !! c')
  ∧ pending w2 = remove_first (c, key) (pending w ++ [(c, key)]).
Proof.
  intros Hk Ho E Hex.
  destruct (select_message_frame parse c payload key w k Hk E)
    as (Hc1 & Hoth1 & Hcore1 & Hp1 & Hn1 & _).
  set (w1 := handle parse (Message c (50%N :: payload)) w) in *. clearbody w1.
  cbn [handle].
  set (w1' := with_pending (remove_first (c, key)) w1).
  destruct (resume_spawn c key p w1' (mkConn None [] (readyOpen k) (sent k)))
    as (Hc2 & Hs2 & Hn2 & Hnew & Hold & Hp2 & Hoth2 & _); try done.
  { unfold w1'. change (existing_alive key w1 = None).
    by rewrite (same_core_existing_alive _ _ _ Hcore1). }
  cbn zeta in *. destruct Hcore1 as (Es1 & Ens1 & Hcore1).
  change (next_session w1') with (next_session w1) in *.
  change (next_listener w1') with (next_listener w1) in *.
  change (sessions w1') with (sessions w1) in *.
  change (heap w1') with (heap w1) in *.
  change (conns w1') with (conns w1) in *.
  rewrite Ens1 in *. rewrite Hn1 in Hc2. simpl in Hc2.
  split; [exact Hc2|]. split; [by rewrite Hs2, Es1|]. split; [done|].
  split; [done|]. split.
  { intros s' Hne. by rewrite (Hold _ Hne), Hcore1. }
  split.
  { intros c' Hne. rewrite (Hoth2 _ Hne). by apply Hoth1. }
  rewrite Hp2. unfold w1'. simpl. by rewrite Hp1.
Qed.

Lemma conn_lookup_open c w k :
  conns w !! c = Some k → readyOpen k = true → conn_open c w = true.
Proof. intros Hk Ho. unfold conn_open. by rewrite Hk. Qed.

Lemma select_frame_wf parse w c payload key sp k :
  wf w → conns w !! c = Some k → readyOpen k = true → parse payload = Some key →
  let w1 := handle parse (Message c (50%N :: payload)) w in
  let w2 := handle parse (IsDirectory c key true sp) w1 in
  enabled (Message c (50%N :: payload)) w = true
  ∧ enabled (IsDirectory c key true sp) w1 = true
  ∧ wf w1 ∧ wf w2.
Proof.
  intros Hwf Hk Ho E w1 w2.
  assert (enabled (Message c (50%N :: payload)) w = true) as En1
    by (by eapply conn_lookup_open).
  assert (wf w1) as Hwf1 by (by apply wf_handle).
  assert (enabled (IsDirectory c key true sp) w1 = true) as En2.
  { simpl. apply bool_decide_eq_true.
    destruct (select_message_frame parse c payload key w k Hk E) as (_&_&_&Hp&_).
    fold w1 in Hp. rewrite Hp. apply elem_of_app. right. by left. }
  split_and!; try done. by apply wf_handle.
Qed.

Lemma attached_listeners w c k s :
  wf w → conns w !! c = Some k → currentSession k = Some s →
  (∃ i, (i, ForwardOutput c) ∈ data_listeners s w)
  ∧ (∃ j, (j, NotifyExit c) ∈ exit_listeners s w).
Proof.
  intros Hwf Hk Hc.
  destruct (wf_attached_shape _ _ _ _ Hwf Hk Hc) as (i & j & se & _ & Hs & _ & Hi & Hj).
  unfold data_listeners, exit_listeners. rewrite Hs. eauto.
Qed.

(** C1. A select frame whose cwd is an existing directory, arriving on an
    open connection and handled through to the end of [selectProject]:
    the frame can be delivered, its [selectProject] call is then waiting
    in [isDirectory] and can be resumed, so the two handler runs are a
    run of the server;
    when the registry holds a live session for the cwd, the connection
    ends attached to that very session (subscribed to its output and
    exit), the client is sent the session's current buffer followed by
    the "attached" message with cwd and pid, and the registry is left as
    it was; when no live session exists and [pty.spawn] returns a process,
    a new session object is created for it, stored in the registry under
    the cwd, the connection ends attached to it and the client is sent
    the "spawned" message with cwd and pid. *)
Theorem C1_select_attaches_or_spawns parse w c k payload key sp :
  reachable parse w →
  conns w !! c = Some k → readyOpen k = true →
  parse payload = Some key →
  let w1 := handle parse (Message c (50%N :: payload)) w in
  let w2 := handle parse (IsDirectory c key true sp) w1 in
  enabled (Message c (50%N :: payload)) w = true
  ∧ (c, key) ∈ pending w1
  ∧ enabled (IsDirectory c key true sp) w1 = true
  ∧ run parse [Message c (50%N :: payload); IsDirectory c key true sp] w = Some w2
  ∧ (∀ s se, sessions w !! key = Some s → heap w !! s = Some se → alive se = true →
     conn_session c w2 = Some s
     ∧ (∃ i, (i, ForwardOutput c) ∈ data_listeners s w2)
     ∧ (∃ j, (j, NotifyExit c) ∈ exit_listeners s w2)
     ∧ conn_sent c w2
       = sent k ++ replay_frames (buffer se) ++ [Ctl (Attached key (pid (pty se)))]
     ∧ raw_bytes (replay_frames (buffer se)) = buffer se
     ∧ sessions w2 = sessions w ∧ next_session w2 = next_session w)
  ∧ (existing_alive key w = None → ∀ p, sp = SpawnOk p →
     let s := next_session w in
     heap w !! s = None
     ∧ session_core <$> heap w2 !! s = Some (p, true, [], key, [], true)
     ∧ sessions w2 = <[key := s]> (sessions w)
     ∧ next_session w2 = S s
     ∧ conn_session c w2 = Some s
     ∧ (∃ i, (i, ForwardOutput c) ∈ data_listeners s w2)
     ∧ (∃ j, (j, NotifyExit c) ∈ exit_listeners s w2)
     ∧ conn_sent c w2 = sent k ++ [Ctl (Spawned key p)]).
Proof.
  intros Hreach Hk Ho E w1 w2. pose proof (wf_reachable _ _ Hreach) as Hwf.
  destruct (select_frame_wf parse w c payload key sp k Hwf Hk Ho E)
    as (En1 & En2 & _ & Hwf2).
  fold w1 in En2. fold w1 w2 in Hwf2.
  split; [exact En1|].
  split; [cbn [enabled] in En2; by apply bool_decide_eq_true in En2|].
  split; [exact En2|].
  split; [cbn [run]; rewrite En1; fold w1; rewrite En2; reflexivity|].
  split.
  - intros s se Hkey Hs Ha.
    pose proof (existing_alive_lookup _ _ _ _ Hkey Hs Ha) as Hex.
    destruct (select_frame_attach parse w c payload key sp k s se Hk Ho E Hex Hs)
      as (Hc2 & (Es & Ens & _) & _).
    fold w1 w2 in Hc2, Es, Ens.
    destruct (attached_listeners w2 c _ s Hwf2 Hc2 eq_refl) as [Hi Hj].
    unfold conn_session, conn_sent. rewrite Hc2. simpl.
    repeat split; try done.
    unfold replay_frames, raw_bytes. case_bool_decide as Hb; simpl.
    + by rewrite (right_id_L [] (++)).
    + destruct (buffer se); [done|]. by destruct Hb.
  - intros Hex p -> s.
    destruct (select_frame_spawn parse w c payload key p k Hk Ho E Hex)
      as (Hc2 & Es & Ens & Hnew & _).
    fold w1 w2 in Hc2, Es, Ens, Hnew.
    destruct (attached_listeners w2 c _ s Hwf2 Hc2 eq_refl) as [Hi Hj].
    unfold conn_session, conn_sent. rewrite Hc2. simpl.
    repeat split; try done. by apply wf_fresh_session.
Qed.

(** A valid select on an open connection ends attached to the session
    registered for the key and reports it. *)
Lemma select_frame_succeeds parse w c k payload key p :
  conns w !! c = Some k → readyOpen k = true → parse payload = Some key →
  let w1 := handle parse (Message c (50%N :: payload)) w in
  let w2 := handle parse (IsDirectory c key true (SpawnOk p)) w1 in
  enabled (Message c (50%N :: payload)) w = true
  ∧ enabled (IsDirectory c key true (SpawnOk p)) w1 = true
  ∧ ∃ s, conn_session c w2 = Some s
         ∧ sessions w2 !! key = Some s
         ∧ ((∃ se, existing_alive key w = Some s ∧ heap w !! s = Some se
                   ∧ conn_sent c w2
                     = sent k ++ replay_frames (buffer se)
                         ++ [Ctl (Attached key (pid (pty se)))])
            ∨ (existing_alive key w = None ∧ s = next_session w
               ∧ conn_sent c w2 = sent k ++ [Ctl (Spawned key p)])).
Proof.
  intros Hk Ho E w1 w2.
  split; [by eapply conn_lookup_open|]. split.
  { simpl. apply bool_decide_eq_true.
    destruct (select_message_frame parse c payload key w k Hk E) as (_&_&_&Hp&_).
    fold w1 in Hp. rewrite Hp. apply elem_of_app. right. by left. }
  destruct (existing_alive key w) as [s|] eqn:Hex.
  - destruct (existing_alive_Some _ _ _ Hex) as (Hkey & se & Hs & Ha).
    destruct (select_frame_attach parse w c payload key (SpawnOk p) k s se Hk Ho E Hex Hs)
      as (Hc2 & (Es & _) & _).
    fold w1 w2 in Hc2, Es. exists s.
    unfold conn_session, conn_sent. rewrite Hc2, Es. simpl.
    split; [done|]. split; [done|]. left. by exists se.
  - destruct (select_frame_spawn parse w c payload key p k Hk Ho E Hex)
      as (Hc2 & Es & _).
    fold w1 w2 in Hc2, Es. exists (next_session w).
    unfold conn_session, conn_sent. rewrite Hc2, Es. simpl.
    split; [done|]. split; [by rewrite lookup_insert_eq|]. by right.
Qed.

(** C6. A select frame whose cwd is not an existing directory, arriving on
    an open connection: the client is sent the "error" message, no
    session is created, the registry and every session's process, buffer
    and liveness are as before, and the connection stays open and idle so
    that a following select of a valid directory on it succeeds: it ends
    attached to the session registered for that directory and is told
    "attached" or "spawned". *)
Theorem C6_invalid_directory_is_reported parse w c k payload key sp :
  conns w !! c = Some k → readyOpen k = true →
  parse payload = Some key →
  let w1 := handle parse (Message c (50%N :: payload)) w in
  let w2 := handle parse (IsDirectory c key false sp) w1 in
  conn_sent c w2 = sent k ++ [Ctl (Error (NotAValidDirectory key))]
  ∧ sessions w2 = sessions w
  ∧ next_session w2 = next_session w
  ∧ (∀ s, session_core <$> heap w2 !! s = session_core <$> heap w !! s)
  ∧ conn_open c w2 = true
  ∧ conn_session c w2 = None
  ∧ ∀ payload' key' p, parse payload' = Some key' →
      let w3 := handle parse (Message c (50%N :: payload')) w2 in
      let w4 := handle parse (IsDirectory c key' true (SpawnOk p)) w3 in
      enabled (Message c (50%N :: payload')) w2 = true
      ∧ enabled (IsDirectory c key' true (SpawnOk p)) w3 = true
      ∧ ∃ s, conn_session c w4 = Some s
             ∧ sessions w4 !! key' = Some s
             ∧ ((∃ se, existing_alive key' w2 = Some s ∧ heap w2 !! s = Some se
                       ∧ conn_sent c w4
                         = conn_sent c w2 ++ replay_frames (buffer se)
                             ++ [Ctl (Attached key' (pid (pty se)))])
                ∨ (existing_alive key' w2 = None ∧ s = next_session w2
                   ∧ conn_sent c w4 = conn_sent c w2 ++ [Ctl (Spawned key' p)])).
Proof.
  intros Hk Ho E w1 w2.
  destruct (select_message_frame parse c payload key w k Hk E)
    as (Hc1 & Hoth1 & (Es1 & Ens1 & Hcore1) & Hp1 & Hn1 & _).
  fold w1 in Hc1, Hoth1, Es1, Ens1, Hcore1, Hp1, Hn1.
  destruct (resume_invalid c key sp (with_pending (remove_first (c, key)) w1)
              (mkConn None [] (readyOpen k) (sent k)) Hc1 Ho)
    as (Hc2 & Es2 & Eh2 & Ens2 & _).
  change (selectProject_resume c key false sp (with_pending (remove_first (c, key)) w1))
    with w2 in *.
  simpl in Hc2, Es2, Eh2, Ens2.
  assert (conn_sent c w2 = sent k ++ [Ctl (Error (NotAValidDirectory key))]) as Hsent
    by (unfold conn_sent; by rewrite Hc2).
  split; [done|]. split; [congruence|]. split; [congruence|].
  split; [by intros s; rewrite Eh2|].
  split; [by unfold conn_open; rewrite Hc2|].
  split; [by unfold conn_session; rewrite Hc2|].
  intros payload' key' p E'. rewrite Hsent.
  by apply (select_frame_succeeds parse w2 c _ payload' key' p Hc2).
Qed.

(** C10. A select frame carrying the cwd of the session the connection is
    already attached to is not a no-op: the handler first detaches the
    connection (its callbacks leave the session), then [selectProject]
    attaches it again to the same session, and the client is sent the
    whole current buffer once more, followed by the "attached" message. *)
Theorem C10_reselect_same_cwd_replays parse w c k s se payload sp :
  reachable parse w →
  conns w !! c = Some k → readyOpen k = true →
  currentSession k = Some s → heap w !! s = Some se →
  parse payload = Some (cwd se) →
  let w1 := handle parse (Message c (50%N :: payload)) w in
  let w2 := handle parse (IsDirectory c (cwd se) true sp) w1 in
  existing_alive (cwd se) w = Some s
  ∧ conn_session c w1 = None
  ∧ forwards_to c (data_listeners s w1) = []
  ∧ notifies c (exit_listeners s w1) = []
  ∧ conn_session c w2 = Some s
  ∧ (∃ i, forwards_to c (data_listeners s w2) = [(i, ForwardOutput c)])
  ∧ conn_sent c w2
    = sent k ++ replay_frames (buffer se) ++ [Ctl (Attached (cwd se) (pid (pty se)))]
  ∧ raw_bytes (replay_frames (buffer se)) = buffer se
  ∧ w2 ≠ w.
Proof.
  intros Hreach Hk Ho Hcur Hs E w1 w2. pose proof (wf_reachable _ _ Hreach) as Hwf.
  destruct (wf_attached_shape _ _ _ _ Hwf Hk Hcur) as (i & j & se' & _ & Hs' & Ha & _).
  simplify_eq.
  pose proof (wf_registered _ Hwf _ _ Hs Ha) as Hreg.
  pose proof (existing_alive_lookup _ _ _ _ Hreg Hs Ha) as Hex.
  destruct (select_frame_wf parse w c payload (cwd se) sp k Hwf Hk Ho E)
    as (_ & _ & Hwf1 & Hwf2).
  fold w1 w2 in Hwf1, Hwf2.
  destruct (select_message_frame parse c payload (cwd se) w k Hk E)
    as (Hc1 & _ & Hcore1 & _).
  fold w1 in Hc1, Hcore1.
  destruct (same_core_lookup _ _ _ _ Hcore1 Hs) as (se1 & Hs1 & Ecore1).
  assert (alive se1 = true) as Ha1 by (unfold session_core in Ecore1; congruence).
  assert (conn_session c w1 = None) as Hidle by (unfold conn_session; by rewrite Hc1).
  destruct (select_frame_attach parse w c payload (cwd se) sp k s se Hk Ho E Hex Hs)
    as (Hc2 & Hcore2 & _).
  fold w1 w2 in Hc2, Hcore2.
  destruct (same_core_lookup _ _ _ _ Hcore2 Hs) as (se2 & Hs2 & _).
  destruct (forwards_attached w2 c _ s se2 Hwf2 Hc2 eq_refl Hs2) as [i2 Hi2].
  split; [done|]. split; [done|].
  split.
  { unfold data_listeners. rewrite Hs1.
    apply (forwards_elsewhere w1 c s se1 Hwf1 Hs1 Ha1). by rewrite Hidle. }
  split.
  { unfold exit_listeners. rewrite Hs1.
    apply (notifies_elsewhere w1 c s se1 Hwf1 Hs1 Ha1). by rewrite Hidle. }
  split; [by unfold conn_session; rewrite Hc2|].
  split; [exists i2; unfold data_listeners; by rewrite Hs2|].
  assert (conn_sent c w2
          = sent k ++ replay_frames (buffer se)
              ++ [Ctl (Attached (cwd se) (pid (pty se)))]) as Hsent
    by (unfold conn_sent; by rewrite Hc2).
  split; [done|]. split.
  { unfold replay_frames, raw_bytes. case_bool_decide as Hb; simpl.
    - by rewrite (right_id_L [] (++)).
    - destruct (buffer se); [done|]. by destruct Hb. }
  intros Heq. rewrite Heq in Hsent. unfold conn_sent in Hsent. rewrite Hk in Hsent.
  apply (f_equal length) in Hsent. rewrite !length_app in Hsent. simpl in Hsent. lia.
Qed.

(** ** Detaching removes the connection's callbacks and nothing else *)

Lemma filter_all {A} (P : A → Prop) `{∀ x, Decision (P x)} (l : list A) :
  (∀ x, x ∈ l → P x) → filter P l = l.
Proof.
  induction l as [|x l IH]; [done|]. intros Hl. rewrite filter_cons.
  rewrite decide_True by (apply Hl; by left). f_equal. apply IH.
  intros; apply Hl; by right.
Qed.

Lemma remove_listener_filter {A} (i : nat) (l : list (nat * A)) :
  NoDup l.*1 → remove_listener i l = filter (λ e, e.1 ≠ i) l.
Proof.
  induction l as [|[i0 x] l IH]; simpl; [done|].
  intros [Hni Hnd]%NoDup_cons. rewrite filter_cons. simpl.
  destruct (decide (i0 = i)) as [->|Hne].
  - rewrite decide_False by (intros ?; done). symmetry.
    apply filter_all. intros y Hy <-. apply Hni. apply list_elem_of_fmap. by exists y.
  - rewrite decide_True by done. f_equal. by apply IH.
Qed.

Lemma filter_ext_in {A} (P Q : A → Prop) `{∀ x, Decision (P x)} `{∀ x, Decision (Q x)}
    (l : list A) :
  (∀ x, x ∈ l → (P x ↔ Q x)) → filter P l = filter Q l.
Proof.
  induction l as [|x l IH]; [done|]. intros Hl. rewrite !filter_cons.
  rewrite IH by (intros; apply Hl; by right).
  destruct (decide (P x)) as [HP|HP], (decide (Q x)) as [HQ|HQ]; try done.
  - destruct HQ. by apply (Hl x); [left|].
  - destruct HP. by apply (Hl x); [left|].
Qed.

Lemma detach_listeners w c k :
  wf w → conns w !! c = Some k →
  (∀ s, data_listeners s (detach c w)
        = filter (λ e, e.2 ≠ ForwardOutput c) (data_listeners s w))
  ∧ (∀ s, exit_listeners s (detach c w)
          = filter (λ e, e.2 ≠ NotifyExit c) (exit_listeners s w)).
Proof.
  intros Hwf Hk. rewrite (detach_unfold _ _ _ Hk).
  assert (∀ s se i, heap w !! s = Some se → (i, ForwardOutput c) ∈ onData (pty se) →
            DisposeData s i ∈ disposables k) as Hdo.
  { intros s se i Hs Hi. destruct (wf_data_owner _ Hwf _ _ _ _ Hs Hi) as (k' & ? & ?).
    by simplify_eq. }
  assert (∀ s se j, heap w !! s = Some se → (j, NotifyExit c) ∈ onExit (pty se) →
            DisposeExit s j ∈ disposables k) as Heo.
  { intros s se j Hs Hj. destruct (wf_exit_owner _ Hwf _ _ _ _ Hs Hj) as (k' & ? & ?).
    by simplify_eq. }
  destruct (wf_shape _ Hwf _ _ Hk) as [Hd Hc|s0 i j se0 Hd Hs0 Hi Hj Hc];
    rewrite Hd in *; unfold data_listeners, exit_listeners; simpl.
  - split; intros s; destruct (heap w !! s) as [se|] eqn:Hs; try done.
    + symmetry. apply filter_all. intros [i x] Hin Hx. simpl in Hx. subst x.
      specialize (Hdo _ _ _ Hs Hin). by apply elem_of_nil in Hdo.
    + symmetry. apply filter_all. intros [j x] Hin Hx. simpl in Hx. subst x.
      specialize (Heo _ _ _ Hs Hin). by apply elem_of_nil in Heo.
  - destruct (wf_data_ids _ Hwf _ _ Hs0) as [Hnd _].
    destruct (wf_exit_ids _ Hwf _ _ Hs0) as [Hne _].
    split; intros s; destruct (decide (s = s0)) as [->|Hss].
    + rewrite !lookup_alter_eq, Hs0. simpl.
      rewrite remove_listener_filter by done. apply filter_ext_in.
      intros [i' x] Hin. simpl. split.
      * intros Hii ->. specialize (Hdo _ _ _ Hs0 Hin).
        rewrite !elem_of_cons, elem_of_nil in Hdo. naive_solver.
      * intros Hx ->. by specialize (listener_id_unique _ _ _ _ Hnd Hi Hin) as <-.
    + rewrite !lookup_alter_ne by done.
      destruct (heap w !! s) as [se|] eqn:Hs; [|done].
      symmetry. apply filter_all. intros [i' x] Hin Hx. simpl in Hx. subst x.
      specialize (Hdo _ _ _ Hs Hin). rewrite !elem_of_cons, elem_of_nil in Hdo.
      naive_solver.
    + rewrite !lookup_alter_eq, Hs0. simpl.
      rewrite remove_listener_filter by done. apply filter_ext_in.
      intros [j' x] Hin. simpl. split.
      * intros Hjj ->. specialize (Heo _ _ _ Hs0 Hin).
        rewrite !elem_of_cons, elem_of_nil in Heo. naive_solver.
      * intros Hx ->. by specialize (listener_id_unique _ _ _ _ Hne Hj Hin) as <-.
    + rewrite !lookup_alter_ne by done.
      destruct (heap w !! s) as [se|] eqn:Hs; [|done].
      symmetry. apply filter_all. intros [j' x] Hin Hx. simpl in Hx. subst x.
      specialize (Heo _ _ _ Hs Hin). rewrite !elem_of_cons, elem_of_nil in Heo.
      naive_solver.
Qed.

Lemma detach_effect w c k :
  wf w → conns w !! c = Some k →
  let w' := detach c w in
  sessions w' = sessions w
  ∧ (∀ s, session_core <$> heap w' !! s = session_core <$> heap w !! s)
  ∧ (∀ s, PtyKill ∉ session_calls s w')
  ∧ (∀ s, data_listeners s w' = filter (λ e, e.2 ≠ ForwardOutput c) (data_listeners s w))
  ∧ (∀ s, exit_listeners s w' = filter (λ e, e.2 ≠ NotifyExit c) (exit_listeners s w))
  ∧ (∀ c', c' ≠ c → conns w' !! c' = conns w !! c')
  ∧ conn_session c w' = None.
Proof.
  intros Hwf Hk w'.
  destruct (detach_frame c w) as ((Es & _ & Hcore) & _ & _ & Hc & Hoth).
  destruct (detach_listeners w c k Hwf Hk) as [Hd He].
  pose proof (wf_detach _ _ _ Hwf Hk) as Hwf'.
  split_and!; try done.
  - intros s. unfold session_calls. destruct (heap w' !! s) as [se|] eqn:Hs.
    + by eapply wf_no_kill.
    + apply not_elem_of_nil.
  - unfold conn_session. fold w' in Hc. by rewrite Hc, Hk.
Qed.

(** C2. Closing the transport, a plain [detach], and the [detach] that the
    select handler performs before [selectProject], each remove the
    connection's own output and exit callbacks from the sessions and
    nothing else: the registry is the same, every session keeps its
    process (pid, running state, calls received; no kill is ever issued),
    its cwd, its replay buffer and its liveness flag, and the callbacks
    and variables of the other connections are untouched. *)
Theorem C2_detach_only_unsubscribes parse w c k w' :
  reachable parse w → conns w !! c = Some k →
  w' = detach c w
  ∨ w' = handle parse (Close c) w
  ∨ (∃ payload key, parse payload = Some key
                    ∧ w' = handle parse (Message c (50%N :: payload)) w) →
  sessions w' = sessions w
  ∧ (∀ s, session_core <$> heap w' !! s = session_core <$> heap w !! s)
  ∧ (∀ s, PtyKill ∉ session_calls s w')
  ∧ (∀ s, data_listeners s w' = filter (λ e, e.2 ≠ ForwardOutput c) (data_listeners s w))
  ∧ (∀ s, exit_listeners s w' = filter (λ e, e.2 ≠ NotifyExit c) (exit_listeners s w))
  ∧ (∀ c', c' ≠ c → conn_session c' w' = conn_session c' w
                    ∧ conn_sent c' w' = conn_sent c' w)
  ∧ conn_session c w' = None.
Proof.
  intros Hreach Hk Hw'. pose proof (wf_reachable _ _ Hreach) as Hwf.
  assert (∀ w0 w1 : World, (∀ c', c' ≠ c → conns w1 !! c' = conns w0 !! c') →
            ∀ c', c' ≠ c → conn_session c' w1 = conn_session c' w0
                           ∧ conn_sent c' w1 = conn_sent c' w0) as Hview.
  { intros w0 w1 H c' Hne. unfold conn_session, conn_sent. by rewrite (H _ Hne). }
  destruct Hw' as [->|[->|(payload & key & E & ->)]].
  - destruct (detach_effect w c k Hwf Hk) as (?&?&?&?&?&?&?). split_and!; eauto.
  - cbn [handle]. unfold on_close.
    set (w0 := upd_conn c (with_readyOpen false) w).
    assert (wf w0) as Hwf0.
    { eapply wf_world_sim; [|done]. apply world_sim_upd_conn. intros. by split. }
    assert (conns w0 !! c = Some (with_readyOpen false k)) as Hk0
      by (unfold w0; simpl; by rewrite lookup_alter_eq, Hk).
    destruct (detach_effect w0 c _ Hwf0 Hk0) as (?&?&?&?&?&Hoth&?).
    split_and!; eauto. apply Hview. intros c' Hne. rewrite (Hoth _ Hne).
    unfold w0. simpl. by rewrite lookup_alter_ne.
  - rewrite (message_select _ _ _ _ _ E).
    destruct (detach_effect w c k Hwf Hk) as (?&?&?&?&?&?&?). split_and!; eauto.
Qed.

(** ** Process exit *)

Lemma reachable_step parse w e :
  reachable parse w → enabled e w = true → reachable parse (handle parse e w).
Proof.
  intros [es Hes] Hen. exists (es ++ [e]).
  apply run_steps. apply run_steps in Hes. revert Hes. generalize initial.
  induction es as [|e0 es IH]; intros w0 Hes; simpl in *.
  - simplify_eq. by rewrite Hen.
  - destruct (enabled e0 w0); [|done]. by apply IH.
Qed.

(** C4. When the process of a session exits, the session is marked dead
    and its own registry entry is removed; the exit cannot fire a second
    time; every connection attached at that moment has its session
    reference cleared and, its transport being open, is sent the "exited"
    message with the exit code and the cwd; connections not attached to
    the session are not affected; and a following select of the same cwd
    finds no live session and spawns a new process. *)
Theorem C4_process_exit parse w s se code :
  reachable parse w → heap w !! s = Some se → running (pty se) = true →
  let w' := handle parse (Exit s code) w in
  enabled (Exit s code) w = true
  ∧ sessions w !! cwd se = Some s
  ∧ alive <$> heap w' !! s = Some false
  ∧ sessions w' = delete (cwd se) (sessions w)
  ∧ existing_alive (cwd se) w' = None
  ∧ (∀ code', enabled (Exit s code') w' = false)
  ∧ (∀ c k, conns w !! c = Some k → currentSession k = Some s →
       conn_session c w' = None
       ∧ conn_sent c w'
         = sent k ++ (if readyOpen k then [Ctl (Exited code (cwd se))] else []))
  ∧ (∀ c k, conns w !! c = Some k → currentSession k ≠ Some s → conns w' !! c = Some k)
  ∧ (∀ c k payload p, conns w' !! c = Some k → readyOpen k = true →
       parse payload = Some (cwd se) →
       let w1 := handle parse (Message c (50%N :: payload)) w' in
       let w2 := handle parse (IsDirectory c (cwd se) true (SpawnOk p)) w1 in
       heap w' !! next_session w' = None
       ∧ sessions w2 !! cwd se = Some (next_session w')
       ∧ session_core <$> heap w2 !! next_session w' = Some (p, true, [], cwd se, [], true)
       ∧ conn_session c w2 = Some (next_session w')
       ∧ conn_sent c w2 = sent k ++ [Ctl (Spawned (cwd se) p)]).
Proof.
  intros Hreach Hs Hrun w'. pose proof (wf_reachable _ _ Hreach) as Hwf.
  assert (enabled (Exit s code) w = true) as Hen
    by (simpl; unfold pty_running; by rewrite Hs).
  assert (alive se = true) as Ha by (by rewrite (wf_alive _ Hwf _ _ Hs)).
  pose proof (wf_handle parse _ _ Hwf Hen) as Hwf'. fold w' in Hwf'.
  destruct (fire_exit_spec s se code w Hwf Hs) as (E1 & E2 & E3 & E4 & E5 & E6).
  change (fire_exit s code w) with w' in *.
  assert (existing_alive (cwd se) w' = None) as Hex.
  { unfold existing_alive. by rewrite E1, lookup_delete_eq. }
  split; [done|]. split; [by apply wf_registered|].
  split; [by rewrite E2, !lookup_alter_eq, Hs|].
  split; [done|]. split; [done|]. split.
  { intros code'. simpl. unfold pty_running.
    by rewrite E2, !lookup_alter_eq, Hs. }
  split.
  { intros c k Hk Hcur.
    destruct (notifies_attached w c k s se Hwf Hk Hcur Hs) as [j Hj].
    unfold conn_session, conn_sent. rewrite E6, Hk, Hj. simpl.
    split; [done|]. by destruct (readyOpen k). }
  split.
  { intros c k Hk Hcur. rewrite E6, Hk.
    rewrite (notifies_elsewhere w c s se Hwf Hs Ha)
      by (unfold conn_session; rewrite Hk; done).
    simpl. destruct k as [cur ds op fs]; simpl. f_equal. f_equal.
    destruct op; by rewrite (right_id_L [] (++)). }
  intros c k payload p Hk Ho E w1 w2.
  destruct (select_frame_spawn parse w' c payload (cwd se) p k Hk Ho E Hex)
    as (Hc2 & Es2 & _ & Hnew & _).
  fold w1 w2 in Hc2, Es2, Hnew.
  split; [by apply wf_fresh_session|]. split; [by rewrite Es2, lookup_insert_eq|].
  split; [done|]. unfold conn_session, conn_sent. by rewrite Hc2.
Qed.

(** ** The replay buffer along a run *)

(** C5. In every reachable world each session's replay buffer holds at
    most 98304 code units, the ceiling 64 KiB times the slack factor 1.5;
    and a publish either appends the chunk, when the result stays within
    that bound, or else appends it and keeps exactly the last 65536 code
    units, so that what is dropped is a prefix: the oldest output. *)
Theorem C5_replay_buffer_bounded_and_trimmed parse w s se :
  reachable parse w → heap w !! s = Some se →
  jslength (buffer se) ≤ 98304
  ∧ REPLAY_TRIM_THRESHOLD = 98304 ∧ REPLAY_BUFFER_SIZE = 64 * 1024
  ∧ ∀ data,
      let w' := handle parse (Data s data) w in
      ∃ se', heap w' !! s = Some se'
             ∧ jslength (buffer se') ≤ 98304
             ∧ ((jslength (buffer se ++ data) ≤ 98304
                 ∧ buffer se' = buffer se ++ data)
                ∨ (98304 < jslength (buffer se ++ data)
                   ∧ jslength (buffer se') = 65536
                   ∧ ∃ evicted, buffer se ++ data = evicted ++ buffer se')).
Proof.
  intros Hreach Hs. pose proof (wf_reachable _ _ Hreach) as Hwf.
  destruct threshold_value as [Et Eb].
  split; [rewrite <- Et; by eapply wf_buffer|]. split; [done|]. split; [done|].
  intros data w'.
  destruct (fire_data_spec s se data w Hwf Hs) as (_ & E2 & _).
  change (fire_data s data w) with w' in E2.
  exists (with_buffer (λ b, buffer_onData b data) se).
  split; [by rewrite E2, lookup_alter_eq, Hs|]. simpl.
  split; [rewrite <- Et; apply buffer_onData_bound|].
  destruct (buffer_onData_cases (buffer se) data) as [[Hle ->]|(Hgt & Hdrop & Hlen)].
  - left. by rewrite <- Et.
  - right. rewrite <- Et, Hlen, Eb. split; [done|]. split; [done|].
    destruct (buffer_onData_suffix (buffer se) data) as [ev Hev]. by exists ev.
Qed.

(** ** Buffers and published output *)

Lemma same_core_buffer w w' s :
  same_core w w' → buffer <$> heap w' !! s = buffer <$> heap w !! s.
Proof.
  intros (_ & _ & H). specialize (H s).
  destruct (heap w' !! s) as [se'|], (heap w !! s) as [se|]; simpl in *; try done.
  f_equal. unfold session_core in H. congruence.
Qed.

Lemma same_core_attach c s w : same_core w (attach c s w).
Proof. by destruct (attach_frame c s w) as (? & _). Qed.

Lemma same_core_detach c w : same_core w (detach c w).
Proof. by destruct (detach_frame c w) as (? & _). Qed.

Lemma resume_buffers c key isdir sp w s :
  heap w !! next_session w = None →
  let w' := selectProject_resume c key isdir sp w in
  buffer <$> heap w' !! s = buffer <$> heap w !! s
  ∨ (heap w !! s = None ∧ buffer <$> heap w' !! s = Some []).
Proof.
  intros Hfresh. unfold selectProject_resume. destruct isdir; cbn [negb].
  2:{ left. apply same_core_buffer, same_core_sendControl. }
  destruct (existing_alive key w) as [s0|].
  - left. apply same_core_buffer.
    eapply same_core_trans; [|apply same_core_sendControl].
    eapply same_core_trans; [apply same_core_attach|].
    match goal with |- same_core _ (if ?b then _ else _) => destruct b end;
      [apply same_core_ws_send|apply same_core_refl].
  - destruct sp as [p|err]; [|left; apply same_core_buffer, same_core_sendControl].
    destruct (spawnSession key p w) as [s1 w1] eqn:Esp.
    unfold spawnSession in Esp. simpl in Esp. injection Esp as <- <-.
    match goal with |- context [sendControl c ?m (attach c ?s1 ?w1)] =>
      rewrite (same_core_buffer w1 (sendControl c m (attach c s1 w1)))
        by (eapply same_core_trans; [apply same_core_attach|apply same_core_sendControl])
    end.
    simpl. destruct (decide (s = next_session w)) as [->|Hne].
    + right. by rewrite lookup_insert_eq.
    + left. by rewrite lookup_insert_ne.
Qed.

Lemma on_message_buffers parse c msg w s :
  buffer <$> heap (on_message parse c msg w) !! s = buffer <$> heap w !! s.
Proof.
  unfold on_message. destruct msg as [|prefix payload]; [done|].
  repeat case_match; try done.
  - simpl. rewrite lookup_alter. case_decide; [subst|done]. by destruct (heap w !! s).
  - simpl. rewrite lookup_alter. case_decide; [subst|done]. by destruct (heap w !! s).
  - unfold selectProject_call, with_pending. cbn [heap].
    apply same_core_buffer, same_core_detach.
Qed.

Lemma handle_buffer parse e w s se' :
  wf w → enabled e w = true → heap (handle parse e w) !! s = Some se' →
  (heap w !! s = None ∧ buffer se' = [])
  ∨ (∃ se, heap w !! s = Some se
           ∧ buffer se' `suffix_of` buffer se ++ mjoin (chunks s [e])).
Proof.
  intros Hwf Hen Hs'.
  assert (∀ w', heap w' !! s = Some se' →
            buffer <$> heap w' !! s = buffer <$> heap w !! s →
            mjoin (chunks s [e]) = [] →
            ∃ se, heap w !! s = Some se
                  ∧ buffer se' `suffix_of` buffer se ++ mjoin (chunks s [e])) as Hsame.
  { intros w' E1 E2 E3. rewrite E1 in E2. simpl in E2.
    destruct (heap w !! s) as [se|]; simplify_eq/=.
    exists se. split; [done|]. rewrite E3, (right_id_L [] (++)). by rewrite E2. }
  destruct e as [c|c msg|c key isdir sp|c|s0 data|s0 code]; simpl in *.
  - right. unfold handleConnection in Hs'. apply (Hsame _ Hs'); [|done].
    apply same_core_buffer.
    eapply same_core_trans; [|apply same_core_sendControl]. by repeat split.
  - right. apply (Hsame _ Hs'); [|done]. apply on_message_buffers.
  - destruct (resume_buffers c key isdir sp
                (with_pending (remove_first (c, key)) w) s (wf_fresh_session _ Hwf))
      as [E|[E1 E2]].
    + right. by apply (Hsame _ Hs').
    + left. rewrite Hs' in E2. simpl in *. by simplify_eq.
  - right. unfold on_close in Hs'. apply (Hsame _ Hs'); [|done].
    apply same_core_buffer.
    eapply same_core_trans; [apply same_core_upd_conn|apply same_core_detach].
  - unfold pty_running in Hen. destruct (heap w !! s0) as [se0|] eqn:Hs0; [|done].
    destruct (fire_data_spec s0 se0 data w Hwf Hs0) as (_ & E2 & _).
    rewrite E2 in Hs'. rewrite lookup_alter in Hs'. right. case_decide; subst.
    + rewrite Hs0 in Hs'. simpl in Hs'. simplify_eq. exists se0.
      split; [done|]. simpl. rewrite ?decide_True by done. simpl.
      rewrite (right_id_L [] (++)). apply buffer_onData_suffix.
    + exists se'. split; [done|]. rewrite ?decide_False by done.
      simpl. by rewrite (right_id_L [] (++)).
  - unfold pty_running in Hen. destruct (heap w !! s0) as [se0|] eqn:Hs0; [|done].
    destruct (fire_exit_spec s0 se0 code w Hwf Hs0) as (_ & E2 & _).
    right. apply (Hsame _ Hs'); [|done]. rewrite E2.
    destruct (decide (s0 = s)) as [->|?];
      [rewrite !lookup_alter_eq; by destruct (heap w !! s)|by rewrite !lookup_alter_ne].
Qed.

Lemma chunks_app s es1 es2 : chunks s (es1 ++ es2) = chunks s es1 ++ chunks s es2.
Proof. apply omap_app. Qed.

Lemma published_app s es1 es2 :
  published s (es1 ++ es2) = published s es1 ++ published s es2.
Proof. unfold published. by rewrite chunks_app, join_app. Qed.

Lemma published_cons s e es :
  published s (e :: es) = mjoin (chunks s [e]) ++ published s es.
Proof. apply (published_app s [e] es). Qed.

Lemma buffer_history_from parse es w0 w (hist : nat → list N) :
  wf w0 → run parse es w0 = Some w →
  (∀ s se, heap w0 !! s = Some se → buffer se `suffix_of` hist s) →
  ∀ s se, heap w !! s = Some se → buffer se `suffix_of` hist s ++ published s es.
Proof.
  revert w0 hist. induction es as [|e es IH]; intros w0 hist Hwf Hrun Hh s se Hs.
  - simpl in Hrun. simplify_eq. unfold published. simpl.
    rewrite (right_id_L [] (++)). by apply Hh.
  - simpl in Hrun. destruct (enabled e w0) eqn:Hen; [|done].
    rewrite published_cons, (assoc_L (++)).
    apply (IH (handle parse e w0) (λ s, hist s ++ mjoin (chunks s [e]))); try done.
    + by apply wf_handle.
    + intros s' se' Hs'.
      destruct (handle_buffer parse e w0 s' se' Hwf Hen Hs') as [[_ ->]|(se0 & Hs0 & Hsuf)].
      * apply suffix_nil.
      * etrans; [exact Hsuf|]. apply suffix_app. by eapply Hh.
Qed.

(** The replay buffer is always a suffix of what the process has printed. *)
Lemma buffer_history parse es w s se :
  run parse es initial = Some w → heap w !! s = Some se →
  buffer se `suffix_of` published s es.
Proof.
  intros Hrun Hs.
  apply (buffer_history_from parse es initial w (λ _, []) wf_initial Hrun); [|done].
  intros s' se'. simpl. by rewrite lookup_empty.
Qed.

(** ** The live stream of an attached connection *)

Lemma on_message_other parse c msg w c' :
  c' ≠ c → conns (on_message parse c msg w) !! c' = conns w !! c'.
Proof.
  intros Hne. unfold on_message. destruct msg as [|prefix payload]; [done|].
  repeat case_match; try done.
  unfold selectProject_call, with_pending. cbn [conns].
  destruct (detach_frame c w) as (_ & _ & _ & _ & Hoth). by apply Hoth.
Qed.

Lemma resume_other c key isdir sp w c' :
  c' ≠ c → conns (selectProject_resume c key isdir sp w) !! c' = conns w !! c'.
Proof.
  intros Hne. unfold selectProject_resume. destruct isdir; cbn [negb].
  2:{ by apply sendControl_other. }
  destruct (existing_alive key w) as [s0|].
  - rewrite sendControl_other by done.
    destruct (attach_frame c s0 w) as (_ & _ & _ & Hoth).
    match goal with |- context [if ?b then _ else _] => destruct b end.
    + simpl. rewrite lookup_alter_ne by done. by apply Hoth.
    + by apply Hoth.
  - destruct sp as [p|err]; [|by apply sendControl_other].
    destruct (spawnSession key p w) as [s1 w1] eqn:Esp.
    unfold spawnSession in Esp. simpl in Esp. injection Esp as <- <-.
    rewrite sendControl_other by done.
    match goal with |- context [attach c ?s1 ?w1] =>
      destruct (attach_frame c s1 w1) as (_ & _ & _ & Hoth)
    end.
    by rewrite Hoth.
Qed.

Lemma with_sent_nil k : with_sent (λ fs, fs ++ []) k = k.
Proof. destruct k. unfold with_sent. simpl. by rewrite (right_id_L [] (++)). Qed.

(** An event in which an attached, open connection takes no part and
    which is not the exit of its session changes nothing in the
    connection but the frames sent, and adds exactly the chunk that the
    session's process emitted, if the event is such an emission. *)
Lemma quiet_step parse e w c k s :
  wf w → enabled e w = true →
  event_of_conn c e = false → exit_of s e = false →
  conns w !! c = Some k → currentSession k = Some s → readyOpen k = true →
  conns (handle parse e w) !! c
  = Some (with_sent (λ fs, fs ++ map Raw (chunks s [e])) k).
Proof.
  intros Hwf Hen Hev Hex Hk Hcur Ho.
  destruct (wf_attached_shape _ _ _ _ Hwf Hk Hcur) as (i & j & se & _ & Hs & Ha & _).
  destruct e as [c'|c' msg|c' key isdir sp|c'|s' data|s' code]; simpl in Hev, Hex;
    try apply bool_decide_eq_false in Hev; try apply bool_decide_eq_false in Hex;
    cbn [handle chunks omap map]; rewrite ?with_sent_nil.
  - unfold handleConnection. rewrite sendControl_other by done. simpl.
    by rewrite lookup_insert_ne.
  - by rewrite on_message_other.
  - by rewrite resume_other.
  - unfold on_close. destruct (detach_frame c' (upd_conn c' (with_readyOpen false) w))
      as (_ & _ & _ & _ & Hoth).
    rewrite Hoth by done. simpl. by rewrite lookup_alter_ne.
  - simpl in Hen. unfold pty_running in Hen.
    destruct (heap w !! s') as [se'|] eqn:Hs'; [|done].
    destruct (fire_data_spec s' se' data w Hwf Hs') as (_ & _ & _ & _ & _ & E6).
    rewrite E6, Hk. simpl. rewrite Ho.
    destruct (decide (s' = s)) as [->|Hne].
    + destruct (forwards_attached w c k s _ Hwf Hk Hcur Hs') as [i' ->]. done.
    + rewrite (forwards_elsewhere w c s' se' Hwf Hs').
      * simpl. by rewrite with_sent_nil.
      * by rewrite (wf_alive _ Hwf _ _ Hs').
      * unfold conn_session. rewrite Hk. simpl. congruence.
  - simpl in Hen. unfold pty_running in Hen.
    destruct (heap w !! s') as [se'|] eqn:Hs'; [|done].
    destruct (fire_exit_spec s' se' code w Hwf Hs') as (_ & _ & _ & _ & _ & E6).
    rewrite E6, Hk. simpl.
    rewrite (notifies_elsewhere w c s' se' Hwf Hs').
    + simpl. destruct k as [cur ds op fs]; simpl.
      by destruct op; rewrite (right_id_L [] (++)).
    + by rewrite (wf_alive _ Hwf _ _ Hs').
    + unfold conn_session. rewrite Hk. simpl. congruence.
Qed.

Lemma quiet_run parse es w w2 c k s :
  wf w → run parse es w = Some w2 →
  (∀ e, e ∈ es → event_of_conn c e = false ∧ exit_of s e = false) →
  conns w !! c = Some k → currentSession k = Some s → readyOpen k = true →
  conns w2 !! c = Some (with_sent (λ fs, fs ++ map Raw (chunks s es)) k).
Proof.
  revert w k. induction es as [|e es IH]; intros w k Hwf Hrun Hq Hk Hcur Ho.
  - simpl in Hrun. simplify_eq. by rewrite with_sent_nil.
  - simpl in Hrun. destruct (enabled e w) eqn:Hen; [|done].
    destruct (Hq e) as [Hq1 Hq2]; [by left|].
    pose proof (quiet_step parse e w c k s Hwf Hen Hq1 Hq2 Hk Hcur Ho) as Hk1.
    rewrite (IH _ _ (wf_handle parse _ _ Hwf Hen) Hrun
               (λ e' He', Hq e' (list_elem_of_further _ _ _ He')) Hk1 Hcur Ho).
    f_equal. change (e :: es) with ([e] ++ es). rewrite chunks_app, map_app.
    destruct k. unfold with_sent. simpl. by rewrite <- (assoc_L (++)).
Qed.

Lemma raw_bytes_app fs1 fs2 : raw_bytes (fs1 ++ fs2) = raw_bytes fs1 ++ raw_bytes fs2.
Proof. unfold raw_bytes. by rewrite map_app, join_app. Qed.

Lemma raw_bytes_replay buf : raw_bytes (replay_frames buf) = buf.
Proof.
  unfold replay_frames, raw_bytes. case_bool_decide as Hb; simpl.
  - by rewrite (right_id_L [] (++)).
  - destruct buf; [done|]. by destruct Hb.
Qed.

Lemma raw_bytes_raw l : raw_bytes (map Raw l) = mjoin l.
Proof. unfold raw_bytes. rewrite map_map. simpl. by rewrite map_id. Qed.

(** C3. Whatever happened before (earlier attaches and detaches included),
    when a connection is attached to a live session by a select, the
    replay it is sent is a suffix of all the output the session's process
    has printed since the session was created; and from then on, as long
    as the connection stays attached and the process alive, the connection
    is sent exactly the chunks printed after the attach, each once and in
    order.  The attach (subscription and replay) is one handler run, so a
    chunk is printed either before it, and is then part of the replay's
    history, or after it, and is then streamed: the bytes received from
    the attach on are a suffix of everything printed so far. *)
Theorem C3_replay_then_live_stream parse es1 w c k key sp s se es2 w2 :
  run parse es1 initial = Some w →
  conns w !! c = Some k → readyOpen k = true →
  (c, key) ∈ pending w →
  existing_alive key w = Some s → heap w !! s = Some se →
  run parse es2 (handle parse (IsDirectory c key true sp) w) = Some w2 →
  (∀ e, e ∈ es2 → event_of_conn c e = false ∧ exit_of s e = false) →
  buffer se `suffix_of` published s es1
  ∧ conn_sent c w2
    = sent k ++ replay_frames (buffer se) ++ [Ctl (Attached key (pid (pty se)))]
        ++ map Raw (chunks s es2)
  ∧ raw_bytes (replay_frames (buffer se) ++ [Ctl (Attached key (pid (pty se)))]
               ++ map Raw (chunks s es2))
    = buffer se ++ published s es2
  ∧ buffer se ++ published s es2
    `suffix_of` published s (es1 ++ IsDirectory c key true sp :: es2).
Proof.
  intros Hrun1 Hk Ho Hpend Hex Hs Hrun2 Hquiet.
  pose proof (wf_run parse _ _ _ wf_initial Hrun1) as Hwf.
  pose proof (buffer_history parse es1 w s se Hrun1 Hs) as Hsuf.
  assert (enabled (IsDirectory c key true sp) w = true) as Hen
    by (simpl; by apply bool_decide_eq_true).
  pose proof (wf_handle parse _ _ Hwf Hen) as Hwf1.
  destruct (resume_attach c key sp (with_pending (remove_first (c, key)) w) k s se)
    as (Hc1 & _); try done.
  change (selectProject_resume c key true sp (with_pending (remove_first (c, key)) w))
    with (handle parse (IsDirectory c key true sp) w) in Hc1.
  pose proof (quiet_run parse es2 _ w2 c _ s Hwf1 Hrun2 Hquiet Hc1 eq_refl eq_refl) as Hc2.
  split; [done|]. split.
  { unfold conn_sent. rewrite Hc2. simpl. by rewrite <- !(assoc_L (++)). }
  split.
  { rewrite !raw_bytes_app, raw_bytes_replay, raw_bytes_raw. done. }
  rewrite published_app, published_cons. simpl. by apply suffix_app.
Qed.

(** ** Two selects for the same key, interleaved at the await *)

Lemma remove_first_other {A} `{EqDecision A} (x y : A) l :
  y ≠ x → y ∈ l → y ∈ remove_first x l.
Proof.
  intros Hne. induction l as [|z l IH]; simpl; [done|].
  rewrite elem_of_cons. intros [->|Hin].
  - rewrite decide_False by done. by left.
  - case_decide; [done|]. right. by apply IH.
Qed.

Lemma progress_other key n c' ph' w w1 :
  conns w1 !! c' = conns w !! c' →
  (∀ x, x ∈ pending w → x.1 = c' → x ∈ pending w1) →
  select_progress key n c' ph' w → select_progress key n c' ph' w1.
Proof.
  intros Hc Hp [Hopen Hph]. split; [by rewrite Hc|].
  destruct ph'; [done| |].
  - by apply Hp.
  - unfold conn_session in *. by rewrite Hc.
Qed.

Lemma park_step parse w0 key n ps sp w c payload :
  parse payload = Some key →
  select_progress key n c Unsent w → race_state w0 key n ps sp w →
  let w1 := handle parse (Message c (50%N :: payload)) w in
  enabled (Message c (50%N :: payload)) w = true
  ∧ select_progress key n c Parked w1
  ∧ race_state w0 key n ps sp w1
  ∧ ∀ c' ph', c' ≠ c → select_progress key n c' ph' w → select_progress key n c' ph' w1.
Proof.
  intros E [(k & Hk & Ho) _] (Rn & Rex & Rold & Rnew) w1.
  destruct (select_message_frame parse c payload key w k Hk E)
    as (Hc1 & Hoth1 & Hcore1 & Hp1 & _).
  fold w1 in Hc1, Hoth1, Hcore1, Hp1.
  split; [by eapply conn_lookup_open|]. split.
  { split; [by eexists|]. rewrite Hp1. apply elem_of_app. right. by left. }
  split.
  { pose proof Hcore1 as (_ & Ens & Hcore). split; [congruence|].
    split; [by rewrite (same_core_existing_alive _ _ _ Hcore1)|].
    split; [by intros s Hne; rewrite Hcore, Rold|].
    destruct sp.
    - destruct Rnew as (p & ? & ?). exists p. split; [done|]. by rewrite Hcore.
    - specialize (Hcore n). rewrite Rnew in Hcore.
      by destruct (heap w1 !! n). }
  intros c' ph' Hne. apply progress_other; [by apply Hoth1|].
  intros x Hx _. rewrite Hp1. apply elem_of_app. by left.
Qed.

Lemma resume_step parse w0 key n ps sp w c p :
  p ∈ ps →
  select_progress key n c Parked w → race_state w0 key n ps sp w →
  let w1 := handle parse (IsDirectory c key true (SpawnOk p)) w in
  enabled (IsDirectory c key true (SpawnOk p)) w = true
  ∧ select_progress key n c Resumed w1
  ∧ race_state w0 key n ps true w1
  ∧ ∀ c' ph', c' ≠ c → select_progress key n c' ph' w → select_progress key n c' ph' w1.
Proof.
  intros Hp [(k & Hk & Ho) Hpend] (Rn & Rex & Rold & Rnew) w1.
  split; [simpl; by apply bool_decide_eq_true|].
  set (w' := with_pending (remove_first (c, key)) w).
  assert (∀ x c', x ∈ pending w → x.1 = c' → c' ≠ c → x ∈ pending w') as Hpend'.
  { intros x c' Hx Hx1 Hne. unfold w'. simpl. apply remove_first_other; [|done].
    intros ->. by simpl in *. }
  destruct sp.
  - destruct (existing_alive_Some _ _ _ Rex) as (_ & se & Hs & _).
    destruct (resume_attach c key (SpawnOk p) w' k n se) as (Hc1 & Hcore1 & Hp1 & Hoth1 & _);
      try done.
    change (selectProject_resume c key true (SpawnOk p) w') with w1 in *.
    split; [|split].
    + split; [by eexists|]. unfold conn_session. by rewrite Hc1.
    + pose proof Hcore1 as (_ & Ens & Hcore). simpl in Ens, Hcore.
      split; [congruence|].
      split; [by rewrite (same_core_existing_alive _ _ _ Hcore1)|].
      split; [by intros s Hne; rewrite Hcore, Rold|].
      destruct Rnew as (p' & ? & ?). exists p'. split; [done|]. by rewrite Hcore.
    + intros c' ph' Hne. apply progress_other; [by apply Hoth1|].
      intros x Hx Hx1. rewrite Hp1. by eapply Hpend'.
  - destruct (resume_spawn c key p w' k) as (Hc1 & Es1 & Ens1 & Hnew1 & Hold1 & Hp1 & Hoth1 & _);
      try done.
    change (selectProject_resume c key true (SpawnOk p) w') with w1 in *.
    change (next_session w') with (next_session w) in *. rewrite Rn in *.
    split; [|split].
    + split; [by eexists|]. unfold conn_session. by rewrite Hc1.
    + split; [done|]. split.
      { apply fmap_Some in Hnew1 as (se1 & Hse1 & Ecore).
        apply (existing_alive_lookup _ _ _ se1); [by rewrite Es1, lookup_insert_eq|done|].
        unfold session_core in Ecore. congruence. }
      split; [by intros s Hne; rewrite (Hold1 _ Hne); apply Rold|].
      by exists p.
    + intros c' ph' Hne. apply progress_other; [by apply Hoth1|].
      intros x Hx Hx1. rewrite Hp1. by eapply Hpend'.
Qed.

Lemma run_cons parse e es w :
  enabled e w = true → run parse (e :: es) w = run parse es (handle parse e w).
Proof. intros H. simpl. by rewrite H. Qed.

Lemma merge_nil_l_inv {A} (l2 l : list A) : merge [] l2 l → l = l2.
Proof.
  intros H. remember [] as l1 eqn:E. induction H; try done.
  f_equal. by apply IHmerge.
Qed.

Lemma merge_nil_r_inv {A} (l1 l : list A) : merge l1 [] l → l = l1.
Proof.
  intros H. remember [] as l2 eqn:E. induction H; try done.
  f_equal. by apply IHmerge.
Qed.

Lemma interleavings_fuel_merge {A} (n : nat) (l1 l2 l : list A) :
  (length l1 + length l2 < n)%nat →
  l ∈ interleavings_fuel n l1 l2 ↔ merge l1 l2 l.
Proof.
  revert l1 l2 l. induction n as [|n IH]; intros l1 l2 l Hn; [lia|].
  destruct l1 as [|x r1]; simpl.
  { rewrite list_elem_of_singleton. split; [intros ->; constructor|apply merge_nil_l_inv]. }
  destruct l2 as [|y r2].
  { rewrite list_elem_of_singleton. split; [intros ->; constructor|apply merge_nil_r_inv]. }
  simpl in Hn. rewrite elem_of_app, !list_elem_of_fmap. split.
  - intros [(l' & -> & Hl')|(l' & -> & Hl')].
    + apply merge_left. apply IH; [simpl; lia|done].
    + apply merge_right. apply IH; [simpl; lia|done].
  - inversion 1; subst.
    + left. eexists. split; [done|]. apply IH; [simpl; lia|done].
    + right. eexists. split; [done|]. apply IH; [simpl; lia|done].
Qed.

(** [interleavings] lists exactly the merges. *)
Lemma interleavings_merge {A} (l1 l2 l : list A) :
  l ∈ interleavings l1 l2 ↔ merge l1 l2 l.
Proof. apply interleavings_fuel_merge. lia. Qed.

(** C9. Two select requests for the same key from two open connections,
    issued while the key has no live session and scheduled in any of the
    orders that the await in [selectProject] allows: every schedule runs
    to its end, exactly one session (one process) is created, it is the
    one registered for the key, and both connections end attached to it;
    [pty.spawn] is taken to succeed. *)
Theorem C9_concurrent_selects_spawn_once parse w c1 k1 c2 k2 payload1 payload2 key p1 p2 es :
  reachable parse w →
  c1 ≠ c2 →
  conns w !! c1 = Some k1 → readyOpen k1 = true →
  conns w !! c2 = Some k2 → readyOpen k2 = true →
  parse payload1 = Some key → parse payload2 = Some key →
  existing_alive key w = None →
  es ∈ interleavings
         [Message c1 (50%N :: payload1); IsDirectory c1 key true (SpawnOk p1)]
         [Message c2 (50%N :: payload2); IsDirectory c2 key true (SpawnOk p2)] →
  ∃ w', run parse es w = Some w'
        ∧ next_session w' = S (next_session w)
        ∧ heap w !! next_session w = None
        ∧ (∀ s, s ≠ next_session w →
             session_core <$> heap w' !! s = session_core <$> heap w !! s)
        ∧ (∃ p, (p = p1 ∨ p = p2)
                ∧ session_core <$> heap w' !! next_session w
                  = Some (p, true, [], key, [], true))
        ∧ sessions w' !! key = Some (next_session w)
        ∧ conn_session c1 w' = Some (next_session w)
        ∧ conn_session c2 w' = Some (next_session w).
Proof.
  intros Hreach Hne Hk1 Ho1 Hk2 Ho2 E1 E2 Hex Hin.
  pose proof (wf_fresh_session _ (wf_reachable _ _ Hreach)) as Hfresh.
  set (n := next_session w) in *.
  assert (select_progress key n c1 Unsent w) as P1 by (split; [by eexists|done]).
  assert (select_progress key n c2 Unsent w) as P2 by (split; [by eexists|done]).
  assert (race_state w key n [p1; p2] false w) as R by (by repeat split).
  assert (p1 ∈ [p1; p2]) as Hp1 by (by left).
  assert (p2 ∈ [p1; p2]) as Hp2 by (right; by left).
  assert (c2 ≠ c1) as Hne' by done.
  assert (∀ w', select_progress key n c1 Resumed w' →
                select_progress key n c2 Resumed w' →
                race_state w key n [p1; p2] true w' →
                next_session w' = S n
                ∧ heap w !! n = None
                ∧ (∀ s, s ≠ n → session_core <$> heap w' !! s = session_core <$> heap w !! s)
                ∧ (∃ p, (p = p1 ∨ p = p2)
                        ∧ session_core <$> heap w' !! n = Some (p, true, [], key, [], true))
                ∧ sessions w' !! key = Some n
                ∧ conn_session c1 w' = Some n
                ∧ conn_session c2 w' = Some n) as Hfinal.
  { intros w' [_ Q1] [_ Q2] (Rn & Rex & Rold & (p & Hp & Hcore)).
    split_and!; try done.
    - exists p. split; [|done]. rewrite !elem_of_cons, elem_of_nil in Hp. naive_solver.
    - by destruct (existing_alive_Some _ _ _ Rex). }
  cbv [interleavings interleavings_fuel length Nat.add map app] in Hin.
  rewrite !elem_of_cons, elem_of_nil in Hin.
  destruct Hin as [->|[->|[->|[->|[->|[->|[]]]]]]].
  - (* select 1, resume 1, select 2, resume 2 *)
    destruct (park_step parse _ _ _ _ _ _ c1 _ E1 P1 R) as (En1 & P1a & Ra & Oa).
    destruct (resume_step parse _ _ _ _ _ _ c1 _ Hp1 P1a Ra) as (En2 & P1b & Rb & Ob).
    destruct (park_step parse _ _ _ _ _ _ c2 _ E2 (Ob _ _ Hne' (Oa _ _ Hne' P2)) Rb)
      as (En3 & P2c & Rc & Oc).
    destruct (resume_step parse _ _ _ _ _ _ c2 _ Hp2 P2c Rc) as (En4 & P2d & Rd & Od).
    eexists. rewrite !run_cons by done. split; [reflexivity|].
    apply Hfinal; [exact (Od _ _ Hne (Oc _ _ Hne P1b))|exact P2d|exact Rd].
  - (* select 1, select 2, resume 1, resume 2 *)
    destruct (park_step parse _ _ _ _ _ _ c1 _ E1 P1 R) as (En1 & P1a & Ra & Oa).
    destruct (park_step parse _ _ _ _ _ _ c2 _ E2 (Oa _ _ Hne' P2) Ra)
      as (En2 & P2b & Rb & Ob).
    destruct (resume_step parse _ _ _ _ _ _ c1 _ Hp1 (Ob _ _ Hne P1a) Rb)
      as (En3 & P1c & Rc & Oc).
    destruct (resume_step parse _ _ _ _ _ _ c2 _ Hp2 (Oc _ _ Hne' P2b) Rc)
      as (En4 & P2d & Rd & Od).
    eexists. rewrite !run_cons by done. split; [reflexivity|].
    apply Hfinal; [exact (Od _ _ Hne P1c)|exact P2d|exact Rd].
  - (* select 1, select 2, resume 2, resume 1 *)
    destruct (park_step parse _ _ _ _ _ _ c1 _ E1 P1 R) as (En1 & P1a & Ra & Oa).
    destruct (park_step parse _ _ _ _ _ _ c2 _ E2 (Oa _ _ Hne' P2) Ra)
      as (En2 & P2b & Rb & Ob).
    destruct (resume_step parse _ _ _ _ _ _ c2 _ Hp2 P2b Rb) as (En3 & P2c & Rc & Oc).
    destruct (resume_step parse _ _ _ _ _ _ c1 _ Hp1 (Oc _ _ Hne (Ob _ _ Hne P1a)) Rc)
      as (En4 & P1d & Rd & Od).
    eexists. rewrite !run_cons by done. split; [reflexivity|].
    apply Hfinal; [exact P1d|exact (Od _ _ Hne' P2c)|exact Rd].
  - (* select 2, select 1, resume 1, resume 2 *)
    destruct (park_step parse _ _ _ _ _ _ c2 _ E2 P2 R) as (En1 & P2a & Ra & Oa).
    destruct (park_step parse _ _ _ _ _ _ c1 _ E1 (Oa _ _ Hne P1) Ra)
      as (En2 & P1b & Rb & Ob).
    destruct (resume_step parse _ _ _ _ _ _ c1 _ Hp1 P1b Rb) as (En3 & P1c & Rc & Oc).
    destruct (resume_step parse _ _ _ _ _ _ c2 _ Hp2 (Oc _ _ Hne' (Ob _ _ Hne' P2a)) Rc)
      as (En4 & P2d & Rd & Od).
    eexists. rewrite !run_cons by done. split; [reflexivity|].
    apply Hfinal; [exact (Od _ _ Hne P1c)|exact P2d|exact Rd].
  - (* select 2, select 1, resume 2, resume 1 *)
    destruct (park_step parse _ _ _ _ _ _ c2 _ E2 P2 R) as (En1 & P2a & Ra & Oa).
    destruct (park_step parse _ _ _ _ _ _ c1 _ E1 (Oa _ _ Hne P1) Ra)
      as (En2 & P1b & Rb & Ob).
    destruct (resume_step parse _ _ _ _ _ _ c2 _ Hp2 (Ob _ _ Hne' P2a) Rb)
      as (En3 & P2c & Rc & Oc).
    destruct (resume_step parse _ _ _ _ _ _ c1 _ Hp1 (Oc _ _ Hne P1b) Rc)
      as (En4 & P1d & Rd & Od).
    eexists. rewrite !run_cons by done. split; [reflexivity|].
    apply Hfinal; [exact P1d|exact (Od _ _ Hne' P2c)|exact Rd].
  - (* select 2, resume 2, select 1, resume 1 *)
    destruct (park_step parse _ _ _ _ _ _ c2 _ E2 P2 R) as (En1 & P2a & Ra & Oa).
    destruct (resume_step parse _ _ _ _ _ _ c2 _ Hp2 P2a Ra) as (En2 & P2b & Rb & Ob).
    destruct (park_step parse _ _ _ _ _ _ c1 _ E1 (Ob _ _ Hne (Oa _ _ Hne P1)) Rb)
      as (En3 & P1c & Rc & Oc).
    destruct (resume_step parse _ _ _ _ _ _ c1 _ Hp1 P1c Rc) as (En4 & P1d & Rd & Od).
    eexists. rewrite !run_cons by done. split; [reflexivity|].
    apply Hfinal; [exact P1d|exact (Od _ _ Hne' (Oc _ _ Hne' P2b))|exact Rd].
Qed.

(** ** Resize frames *)

Lemma digit_not_white_space c d : digit_value c = Some d → is_white_space c = false.
Proof.
  unfold digit_value, is_white_space. intros H.
  destruct ((48 <=? c)%N && (c <=? 57)%N) eqn:E; [|done].
  apply andb_true_iff in E as [E1%N.leb_le E2%N.leb_le].
  apply orb_false_iff. split.
  - apply bool_decide_eq_false. rewrite !elem_of_cons, elem_of_nil. lia.
  - apply andb_false_iff. left. apply N.leb_gt. lia.
Qed.

Lemma digit_not_sign c d : digit_value c = Some d → (c =? 45)%N = false ∧ (c =? 43)%N = false.
Proof.
  unfold digit_value. intros H.
  destruct ((48 <=? c)%N && (c <=? 57)%N) eqn:E; [|done].
  apply andb_true_iff in E as [E1%N.leb_le E2%N.leb_le].
  split; apply N.eqb_neq; lia.
Qed.

Lemma digits_prefix_app f rest :
  forallb (λ c, bool_decide (is_Some (digit_value c))) f = true →
  no_digit_head rest → digits_prefix (f ++ rest) = digits_prefix f.
Proof.
  intros Hf Hrest. induction f as [|c f IH]; simpl in *.
  - destruct rest as [|c r]; [done|]. simpl in *. by rewrite Hrest.
  - apply andb_true_iff in Hf as [Hc Hf]. apply bool_decide_eq_true in Hc as [d Hd].
    rewrite Hd. f_equal. by apply IH.
Qed.

(** On a decimal field, followed or not by characters that are not
    digits, [parseInt] returns the Number for the integer the field
    denotes. *)
Lemma parseInt10_decimal f n rest :
  decimal_field f = Some n → no_digit_head rest →
  parseInt10 (f ++ rest) = number_of_Z n.
Proof.
  unfold decimal_field. intros Hf Hrest.
  destruct (bool_decide (f ≠ [])) eqn:Hne; [|done].
  destruct (forallb _ f) eqn:Hall; simpl in Hf; [|done]. simplify_eq.
  apply bool_decide_eq_true in Hne.
  destruct f as [|c f]; [done|]. pose proof Hall as Hall'. simpl in Hall.
  apply andb_true_iff in Hall as [Hc _]. apply bool_decide_eq_true in Hc as [d Hd].
  unfold parseInt10. cbn [trim_start app].
  rewrite (digit_not_white_space _ _ Hd).
  destruct (digit_not_sign _ _ Hd) as [-> ->].
  change (c :: f ++ rest) with ((c :: f) ++ rest).
  rewrite (digits_prefix_app _ _ Hall' Hrest). cbn [digits_prefix]. rewrite Hd.
  f_equal. lia.
Qed.

(** Integers up to 2^53 in magnitude are doubles. *)
Lemma number_of_Z_exact z : Z.abs z < 2 ^ 53 → number_of_Z z = Num z.
Proof. intros Hz. unfold number_of_Z. by rewrite (proj2 (Z.ltb_lt _ _) Hz). Qed.


Lemma split_comma_free x : 44%N ∉ x → split_comma x = [x].
Proof.
  induction x as [|c x IH]; [done|]. intros Hx. simpl.
  destruct (N.eqb_spec c 44) as [->|_]; [destruct Hx; by left|].
  rewrite IH; [done|]. intros ?. apply Hx. by right.
Qed.

Lemma split_comma_first x y :
  44%N ∉ x → split_comma (x ++ 44%N :: y) = x :: split_comma y.
Proof.
  intros Hx. induction x as [|c x IH]; [done|]. simpl.
  destruct (N.eqb_spec c 44) as [->|_]; [destruct Hx; by left|].
  rewrite IH; [done|]. intros ?. apply Hx. by right.
Qed.

Lemma conn_live_session_heap c w s :
  conn_live_session c w = Some s → ∃ se, heap w !! s = Some se ∧ alive se = true.
Proof.
  unfold conn_live_session. intros H.
  destruct (conn_session c w) as [s'|]; simpl in H; [|done].
  destruct (heap w !! s') as [se|] eqn:Hs; simpl in H; [|done].
  destruct (alive se) eqn:Ha; simplify_eq. eauto.
Qed.

Lemma session_calls_pty_call s k w se :
  heap w !! s = Some se →
  session_calls s (upd_session s (with_pty (pty_call k)) w) = session_calls s w ++ [k].
Proof.
  intros Hs. unfold session_calls. simpl. by rewrite lookup_alter_eq, Hs.
Qed.


(** ** Input frames *)

Lemma focus_free_tail a s : focus_free (a :: s) → focus_free s.
Proof. intros H u v x Hx ->. by apply (H (a :: u) v x Hx). Qed.

Lemma replace_focus_step a t :
  focus_free (a :: t) → replace_focus (a :: t) = a :: replace_focus t.
Proof.
  intros Hfree. simpl. destruct t as [|b [|x r]]; try done.
  destruct ((a =? 27)%N && (b =? 91)%N && ((x =? 73)%N || (x =? 79)%N)) eqn:E; [|done].
  apply andb_true_iff in E as [[Ea%N.eqb_eq Eb%N.eqb_eq]%andb_true_iff Ex].
  apply orb_true_iff in Ex. subst a b.
  destruct (Hfree [] r x); [|done].
  destruct Ex as [?%N.eqb_eq|?%N.eqb_eq]; [by left|by right].
Qed.

Lemma replace_focus_free s : focus_free s → replace_focus s = s.
Proof.
  induction s as [|a t IH]; [done|]. intros Hfree.
  rewrite replace_focus_step by done. f_equal. apply IH. by eapply focus_free_tail.
Qed.

Lemma replace_focus_skip pre x rest :
  focus_free pre → x = 73%N ∨ x = 79%N →
  replace_focus (pre ++ focus_report x ++ rest) = pre ++ replace_focus rest.
Proof.
  intros Hfree Hx. induction pre as [|a pre IH].
  - simpl. by destruct Hx as [-> | ->].
  - pose proof (focus_free_tail _ _ Hfree) as Hfree'.
    rewrite <- !app_comm_cons, <- (IH Hfree').
    destruct pre as [|b [|y r]].
    + simpl. by rewrite andb_false_r.
    + simpl. destruct Hx as [-> | ->]; by rewrite andb_false_r.
    + change (((b :: y :: r) ++ focus_report x ++ rest))
        with (b :: y :: (r ++ focus_report x ++ rest)).
      cbn [replace_focus].
      destruct ((a =? 27)%N && (b =? 91)%N && ((y =? 73)%N || (y =? 79)%N)) eqn:E; [|done].
      apply andb_true_iff in E as [[Ea%N.eqb_eq Eb%N.eqb_eq]%andb_true_iff Ey].
      apply orb_true_iff in Ey. subst a b.
      destruct (Hfree [] r y); [|done].
      destruct Ey as [?%N.eqb_eq|?%N.eqb_eq]; [by left|by right].
Qed.

(** C8 (as amended). On a connection attached to a live session, an input
    frame is written to the process as its payload filtered by one
    left-to-right pass that removes each focus report, ESC [ I or
    ESC [ O, and keeps every other code unit in place; when nothing is
    left, nothing is written.  A payload without focus reports is
    written unchanged, bracketed-paste toggles included. *)
Theorem C8_input_filter_strips_focus_reports parse w c s payload :
  conn_live_session c w = Some s →
  let w' := handle parse (Message c (48%N :: payload)) w in
  (replace_focus payload ≠ [] →
     w' = upd_session s (with_pty (pty_call (PtyWrite (replace_focus payload)))) w
     ∧ session_calls s w' = session_calls s w ++ [PtyWrite (replace_focus payload)])
  ∧ (replace_focus payload = [] → w' = w)
  ∧ (focus_free payload → replace_focus payload = payload)
  ∧ (∀ pre x rest,
       payload = pre ++ focus_report x ++ rest → focus_free pre →
       x = 73%N ∨ x = 79%N →
       replace_focus payload = pre ++ replace_focus rest).
Proof.
  intros Hlive w'.
  destruct (conn_live_session_heap _ _ _ Hlive) as (se & Hs & _).
  assert (w' = if bool_decide (replace_focus payload ≠ [])
               then upd_session s (with_pty (pty_call (PtyWrite (replace_focus payload)))) w
               else w) as Hw'.
  { unfold w'. cbn [handle]. unfold on_message. cbn [N.eqb Pos.eqb]. by rewrite Hlive. }
  split; [|split; [|split]].
  - intros Hne. rewrite Hw', bool_decide_eq_true_2 by done.
    split; [done|]. by eapply session_calls_pty_call.
  - intros He. rewrite Hw', bool_decide_eq_false_2; [done|]. by intros [].
  - apply replace_focus_free.
  - intros pre x rest -> Hfree Hx. by apply replace_focus_skip.
Qed.

(** ** The theorems at concrete inputs *)

Lemma demo_spawned_reachable : reachable parse_plain_cwd demo_spawned.
Proof.
  exists [Connect 0; Message 0 (select_frame "/a");
          IsDirectory 0 (of_ascii "/a") true (SpawnOk 4242)].
  apply run_steps. vm_compute. reflexivity.
Qed.

Lemma demo_hello_reachable : reachable parse_plain_cwd demo_hello.
Proof.
  exists [Connect 0; Message 0 (select_frame "/a");
          IsDirectory 0 (of_ascii "/a") true (SpawnOk 4242);
          Data 0 (of_ascii "hello")].
  apply run_steps. vm_compute. reflexivity.
Qed.

(** The scenario of a first select: connect, select a fresh directory.
    The two handler runs of the select are a run of the server from the
    state after the connect, and they end in [demo_spawned]. *)
Lemma C1_witness :
  run parse_plain_cwd [Connect 0] initial = Some (exec [Connect 0] initial)
  ∧ run parse_plain_cwd
      [Message 0 (select_frame "/a"); IsDirectory 0 (of_ascii "/a") true (SpawnOk 4242)]
      (exec [Connect 0] initial)
    = Some demo_spawned
  ∧ conn_session 0 demo_spawned = Some 0%nat
  ∧ conn_sent 0 demo_spawned = [Ctl Ready; Ctl (Spawned (of_ascii "/a") 4242)].
Proof.
  assert (run parse_plain_cwd [Connect 0] initial = Some (exec [Connect 0] initial))
    as Hrun0 by (vm_compute; reflexivity).
  assert (reachable parse_plain_cwd (exec [Connect 0] initial)) as Hreach.
  { exists [Connect 0]. apply run_steps. exact Hrun0. }
  split; [exact Hrun0|].
  destruct (C1_select_attaches_or_spawns parse_plain_cwd (exec [Connect 0] initial) 0%nat
              (mkConn None [] true [Ctl Ready]) (tail (select_frame "/a"))
              (of_ascii "/a") (SpawnOk 4242) Hreach)
    as (_ & _ & _ & Hrun & _ & Hspawn);
    [vm_compute; reflexivity|reflexivity|vm_compute; reflexivity|].
  destruct (Hspawn ltac:(vm_compute; reflexivity) 4242 eq_refl)
    as (_ & _ & _ & _ & Hsess & _ & _ & Hsent).
  split; [exact Hrun|]. split; [exact Hsess|exact Hsent].
Defined.

(** Closing the transport of an attached connection. *)
Lemma C2_witness :
  let w' := handle parse_plain_cwd (Close 0) demo_hello in
  sessions w' = sessions demo_hello
  ∧ session_core <$> heap w' !! 0%nat
    = Some (4242, true, [], of_ascii "/a", of_ascii "hello", true)
  ∧ data_listeners 0 w' = [(0%nat, BufferOutput)]
  ∧ conn_session 0 w' = None.
Proof.
  destruct (C2_detach_only_unsubscribes parse_plain_cwd demo_hello 0%nat
              (mkConn (Some 0%nat) [DisposeData 0 2; DisposeExit 0 3] true
                 [Ctl Ready; Ctl (Spawned (of_ascii "/a") 4242); Raw (of_ascii "hello")])
              (handle parse_plain_cwd (Close 0) demo_hello)
              demo_hello_reachable)
    as (Hs & Hcore & _ & Hd & _ & _ & Hc);
    [vm_compute; reflexivity|right; left; reflexivity|].
  split; [exact Hs|]. split; [exact (Hcore 0%nat)|]. split; [exact (Hd 0%nat)|exact Hc].
Defined.

(** Spawn by one connection, output, close, then a select of the same
    directory from a second connection, followed by more output. *)
Lemma C3_witness :
  let es1 := [Connect 0; Message 0 (select_frame "/a");
              IsDirectory 0 (of_ascii "/a") true (SpawnOk 4242);
              Data 0 (of_ascii "hello"); Close 0;
              Connect 1; Message 1 (select_frame "/a")] in
  let es2 := [Data 0 (of_ascii " world")] in
  let w2 := exec (es1 ++ IsDirectory 1 (of_ascii "/a") true (SpawnOk 7) :: es2) initial in
  conn_sent 1 w2
  = [Ctl Ready; Raw (of_ascii "hello"); Ctl (Attached (of_ascii "/a") 4242);
     Raw (of_ascii " world")]
  ∧ of_ascii "hello world" `suffix_of` published 0 (es1 ++ IsDirectory 1 (of_ascii "/a") true (SpawnOk 7) :: es2).
Proof.
  intros es1 es2 w2.
  destruct (C3_replay_then_live_stream parse_plain_cwd es1 (exec es1 initial) 1%nat
              (mkConn None [] true [Ctl Ready]) (of_ascii "/a") (SpawnOk 7) 0%nat
              (mkSession (mkPty 4242 true [(0%nat, BufferOutput)] [(1%nat, SessionExit)] [])
                 (of_ascii "/a") (of_ascii "hello") true)
              es2 w2)
    as (_ & Hsent & _ & Hsuf).
  - vm_compute. reflexivity.
  - vm_compute. reflexivity.
  - reflexivity.
  - vm_compute. apply list_elem_of_here.
  - vm_compute. reflexivity.
  - vm_compute. reflexivity.
  - vm_compute. reflexivity.
  - intros e He. apply list_elem_of_singleton in He. subst e. split; reflexivity.
  - split; [exact Hsent|exact Hsuf].
Defined.

(** The process of a session exits while a connection is attached. *)
Lemma C4_witness :
  let w' := handle parse_plain_cwd (Exit 0 3) demo_hello in
  sessions w' = ∅
  ∧ conn_session 0 w' = None
  ∧ conn_sent 0 w'
    = [Ctl Ready; Ctl (Spawned (of_ascii "/a") 4242); Raw (of_ascii "hello");
       Ctl (Exited 3 (of_ascii "/a"))].
Proof.
  destruct (C4_process_exit parse_plain_cwd demo_hello 0%nat
              (mkSession (mkPty 4242 true [(0%nat, BufferOutput); (2%nat, ForwardOutput 0)]
                            [(1%nat, SessionExit); (3%nat, NotifyExit 0)] [])
                 (of_ascii "/a") (of_ascii "hello") true)
              3 demo_hello_reachable)
    as (_ & _ & _ & Hs & _ & _ & Hatt & _); [vm_compute; reflexivity|reflexivity|].
  destruct (Hatt 0%nat
              (mkConn (Some 0%nat) [DisposeData 0 2; DisposeExit 0 3] true
                 [Ctl Ready; Ctl (Spawned (of_ascii "/a") 4242); Raw (of_ascii "hello")]))
    as [Hc Hsent]; [vm_compute; reflexivity|reflexivity|].
  split; [|split; [exact Hc|exact Hsent]].
  rewrite Hs. vm_compute. reflexivity.
Defined.

(** A session's buffer after its process printed five code units. *)
Lemma C5_witness :
  jslength (of_ascii "hello") ≤ 98304
  ∧ ∃ se', heap (handle parse_plain_cwd (Data 0 (of_ascii "!")) demo_hello) !! 0%nat = Some se'
           ∧ buffer se' = of_ascii "hello!".
Proof.
  destruct (C5_replay_buffer_bounded_and_trimmed parse_plain_cwd demo_hello 0%nat
              (mkSession (mkPty 4242 true [(0%nat, BufferOutput); (2%nat, ForwardOutput 0)]
                            [(1%nat, SessionExit); (3%nat, NotifyExit 0)] [])
                 (of_ascii "/a") (of_ascii "hello") true)
              demo_hello_reachable)
    as (Hlen & _ & _ & Hpub); [vm_compute; reflexivity|].
  split; [exact Hlen|].
  destruct (Hpub (of_ascii "!")) as (se' & Hs' & _ & [[_ Hb]|(Hgt & _)]).
  - exists se'. split; [exact Hs'|exact Hb].
  - exfalso. vm_compute in Hgt. discriminate Hgt.
Defined.

(** A select of a missing directory on a fresh connection, then a select
    of a valid one. *)
Lemma C6_witness :
  let w1 := handle parse_plain_cwd (Message 0 (select_frame "/nope")) (exec [Connect 0] initial) in
  let w2 := handle parse_plain_cwd (IsDirectory 0 (of_ascii "/nope") false (SpawnOk 1)) w1 in
  conn_sent 0 w2 = [Ctl Ready; Ctl (Error (NotAValidDirectory (of_ascii "/nope")))]
  ∧ sessions w2 = ∅
  ∧ conn_open 0 w2 = true.
Proof.
  destruct (C6_invalid_directory_is_reported parse_plain_cwd (exec [Connect 0] initial) 0%nat
              (mkConn None [] true [Ctl Ready]) (tail (select_frame "/nope"))
              (of_ascii "/nope") (SpawnOk 1))
    as (Hsent & Hs & _ & _ & Ho & _);
    [vm_compute; reflexivity|reflexivity|vm_compute; reflexivity|].
  split; [exact Hsent|]. split; [exact Hs|exact Ho].
Defined.



(** An input frame holding one focus report between two letters. *)
Lemma C8_witness :
  session_calls 0
    (handle parse_plain_cwd (Message 0 ([48; 97; 27; 91; 73; 98]%N)) demo_spawned)
  = [PtyWrite (of_ascii "ab")].
Proof.
  destruct (C8_input_filter_strips_focus_reports parse_plain_cwd demo_spawned 0%nat 0%nat
              [97; 27; 91; 73; 98]%N)
    as (Hfwd & _); [vm_compute; reflexivity|].
  destruct Hfwd as [_ Hcalls]; [vm_compute; discriminate|].
  exact Hcalls.
Defined.

(** An input frame holding a focus report and no bracketed-paste toggle:
    removing the toggles would leave the payload as it is, and the
    handler writes it without the focus report. *)
Lemma C8_counterexample :
  ¬ (∀ w c s payload data,
       conn_live_session c w = Some s →
       session_calls s (handle parse_plain_cwd (Message c (48%N :: payload)) w)
       = session_calls s w ++ [PtyWrite data] →
       data = strip_paste_toggles payload).
Proof.
  intros H.
  specialize (H demo_spawned 0%nat 0%nat [97; 27; 91; 73; 98]%N [97; 98]%N).
  vm_compute in H. specialize (H eq_refl eq_refl). discriminate H.
Qed.

(** Two connections select the same fresh directory; both selects are
    parked before either resumes, and the second resumes first. *)
Lemma C9_witness :
  let es := [Message 0 (select_frame "/a"); Message 1 (select_frame "/a");
             IsDirectory 1 (of_ascii "/a") true (SpawnOk 2);
             IsDirectory 0 (of_ascii "/a") true (SpawnOk 1)] in
  ∃ w', run parse_plain_cwd es (exec [Connect 0; Connect 1] initial) = Some w'
        ∧ next_session w' = 1%nat
        ∧ conn_session 0 w' = Some 0%nat
        ∧ conn_session 1 w' = Some 0%nat.
Proof.
  intros es.
  destruct (C9_concurrent_selects_spawn_once parse_plain_cwd
              (exec [Connect 0; Connect 1] initial)
              0%nat (mkConn None [] true [Ctl Ready]) 1%nat (mkConn None [] true [Ctl Ready])
              (tail (select_frame "/a")) (tail (select_frame "/a"))
              (of_ascii "/a") 1 2 es)
    as (w' & Hrun & Hn & _ & _ & _ & _ & H1 & H2).
  - exists [Connect 0; Connect 1]. apply run_steps. vm_compute. reflexivity.
  - lia.
  - vm_compute. reflexivity.
  - reflexivity.
  - vm_compute. reflexivity.
  - reflexivity.
  - vm_compute. reflexivity.
  - vm_compute. reflexivity.
  - vm_compute. reflexivity.
  - vm_compute. do 2 apply list_elem_of_further. apply list_elem_of_here.
  - exists w'. split; [exact Hrun|]. split; [exact Hn|]. split; [exact H1|exact H2].
Defined.

(** A connection selects the directory of the session it is attached to,
    after the process printed "hello". *)
Lemma C10_witness :
  let w1 := handle parse_plain_cwd (Message 0 (select_frame "/a")) demo_hello in
  let w2 := handle parse_plain_cwd (IsDirectory 0 (of_ascii "/a") true (SpawnOk 9)) w1 in
  conn_session 0 w1 = None
  ∧ conn_session 0 w2 = Some 0%nat
  ∧ conn_sent 0 w2
    = [Ctl Ready; Ctl (Spawned (of_ascii "/a") 4242); Raw (of_ascii "hello");
       Raw (of_ascii "hello"); Ctl (Attached (of_ascii "/a") 4242)].
Proof.
  destruct (C10_reselect_same_cwd_replays parse_plain_cwd demo_hello 0%nat
              (mkConn (Some 0%nat) [DisposeData 0 2; DisposeExit 0 3] true
                 [Ctl Ready; Ctl (Spawned (of_ascii "/a") 4242); Raw (of_ascii "hello")])
              0%nat
              (mkSession (mkPty 4242 true [(0%nat, BufferOutput); (2%nat, ForwardOutput 0)]
                            [(1%nat, SessionExit); (3%nat, NotifyExit 0)] [])
                 (of_ascii "/a") (of_ascii "hello") true)
              (tail (select_frame "/a")) (SpawnOk 9) demo_hello_reachable)
    as (_ & Hidle & _ & _ & Hc & _ & Hsent & _);
    [vm_compute; reflexivity|reflexivity|reflexivity|vm_compute; reflexivity
    |vm_compute; reflexivity|].
  split; [exact Hidle|]. split; [exact Hc|exact Hsent].
Defined.

(** ** Further concrete checks *)

(** [parseInt] stops at the first character that is not a digit. *)
Example parseInt10_prefix :
  parseInt10 (of_ascii "1abc") = Num 1
  ∧ parseInt10 (of_ascii "abc") = NaN
  ∧ parseInt10 (of_ascii "-5") = Num (-5)
  ∧ parseInt10_arg None = NaN.
Proof. split_and!; vm_compute; reflexivity. Qed.

(** [parseInt] returns a double: 2^53 + 1 is read as 2^53, 2^53 + 3 as
    2^53 + 4, the largest double is read as itself, and a 1 followed by
    309 zeros as Infinity. *)
Example parseInt10_rounds :
  parseInt10 (of_ascii "9007199254740993") = Num 9007199254740992
  ∧ parseInt10 (of_ascii "9007199254740995") = Num 9007199254740996
  ∧ parseInt10 (of_ascii "-9007199254740993") = Num (-9007199254740992)
  ∧ number_of_Z (2 ^ 1024 - 2 ^ 971) = Num (2 ^ 1024 - 2 ^ 971)
  ∧ number_of_Z (2 ^ 1024 - 2 ^ 970 - 1) = Num (2 ^ 1024 - 2 ^ 971)
  ∧ number_of_Z (2 ^ 1024 - 2 ^ 970) = PosInfinity
  ∧ parseInt10 (49%N :: replicate 309 48%N) = PosInfinity.
Proof. split_and!; vm_compute; reflexivity. Qed.

(** The resize frame of the specification's scenario, 1abc,24: the tag 1
    followed by the payload abc,24.  Its cols field is not a number and
    the handler ignores the frame.  A frame with a cols field beyond the
    doubles is forwarded with Infinity. *)
Example resize_scenario_frame_is_ignored :
  handle parse_plain_cwd (Message 0 (of_ascii "1abc,24")) demo_spawned = demo_spawned
  ∧ session_calls 0
      (handle parse_plain_cwd (Message 0 (of_ascii "19007199254740993,24")) demo_spawned)
    = [PtyResize (Num 9007199254740992) (Num 24)]
  ∧ session_calls 0
      (handle parse_plain_cwd
         (Message 0 (49%N :: 49%N :: replicate 309 48%N ++ of_ascii ",24")) demo_spawned)
    = [PtyResize PosInfinity (Num 24)].
Proof. split_and!; vm_compute; reflexivity. Qed.

(** A chunk one code unit above the threshold is cut down to the last
    65536 code units. *)
Example buffer_onData_trims :
  jslength (buffer_onData [] (replicate 98305 120%N)) = 65536
  ∧ jslength (buffer_onData [] (replicate 98304 120%N)) = 98304.
Proof. split; vm_compute; reflexivity. Qed.

(** A global replace does not rescan its own result. *)
Example replace_focus_single_pass :
  replace_focus [27; 27; 91; 73; 91; 79]%N = [27; 91; 79]%N.
Proof. reflexivity. Qed.

(** The toggle that switches bracketed paste on passes the filter. *)
Example paste_toggle_is_forwarded :
  replace_focus (PASTE_ON ++ [120%N]) = PASTE_ON ++ [120%N]
  ∧ strip_paste_toggles (PASTE_ON ++ [120%N]) = [120%N]
  ∧ session_calls 0
      (handle parse_plain_cwd (Message 0 (48%N :: PASTE_ON ++ [120%N])) demo_spawned)
    = [PtyWrite (PASTE_ON ++ [120%N])].
Proof. repeat split; vm_compute; reflexivity. Qed.

(** A select whose transport closes during the await still attaches, and
    the closed connection is then sent nothing. *)
Example close_during_await :
  let w := exec [Connect 0; Message 0 (select_frame "/a"); Close 0;
                 IsDirectory 0 (of_ascii "/a") true (SpawnOk 5);
                 Data 0 (of_ascii "x"); Exit 0 0] initial in
  conn_sent 0 w = [Ctl Ready] ∧ conn_open 0 w = false ∧ next_session w = 1%nat.
Proof. repeat split; vm_compute; reflexivity. Qed.

(** * Further properties of the PTY manager *)

(** ** The registry *)

(** X1. In every reachable world the registry holds exactly the live
    sessions, each under its own cwd; a session is flagged alive exactly
    while its process runs; so there is at most one live session for a
    directory. *)
Theorem registry_holds_exactly_the_live_sessions parse w :
  reachable parse w →
  (∀ key s, sessions w !! key = Some s
            ↔ ∃ se, heap w !! s = Some se ∧ alive se = true ∧ cwd se = key)
  ∧ (∀ s se, heap w !! s = Some se → alive se = running (pty se))
  ∧ (∀ s1 se1 s2 se2,
       heap w !! s1 = Some se1 → heap w !! s2 = Some se2 →
       alive se1 = true → alive se2 = true → cwd se1 = cwd se2 → s1 = s2).
Proof.
  intros Hwf%wf_reachable. split; [|split].
  - intros key s. split.
    + intros Hk. destruct (wf_registry _ Hwf _ _ Hk) as (se & ? & ? & ?). by exists se.
    + intros (se & Hs & Ha & <-). by apply wf_registered.
  - intros s se Hs. by eapply wf_alive.
  - intros s1 se1 s2 se2 H1 H2 A1 A2 E.
    pose proof (wf_registered _ Hwf _ _ H1 A1) as R1.
    pose proof (wf_registered _ Hwf _ _ H2 A2) as R2.
    rewrite E in R1. congruence.
Qed.

Lemma registry_holds_exactly_the_live_sessions_witness :
  sessions demo_hello !! of_ascii "/a" = Some 0%nat
  ∧ ∀ s se, heap demo_hello !! s = Some se → alive se = running (pty se).
Proof.
  destruct (registry_holds_exactly_the_live_sessions parse_plain_cwd demo_hello
              demo_hello_reachable) as (Hreg & Hrun & _).
  split; [|exact Hrun].
  apply Hreg.
  exists (mkSession (mkPty 4242 true [(0%nat, BufferOutput); (2%nat, ForwardOutput 0)]
                       [(1%nat, SessionExit); (3%nat, NotifyExit 0)] [])
            (of_ascii "/a") (of_ascii "hello") true).
  split; [vm_compute; reflexivity|]. split; reflexivity.
Defined.

(** ** [detach] twice *)

Lemma world_eq (w1 w2 : World) :
  sessions w1 = sessions w2 → heap w1 = heap w2 → conns w1 = conns w2 →
  pending w1 = pending w2 → next_listener w1 = next_listener w2 →
  next_session w1 = next_session w2 → w1 = w2.
Proof. destruct w1, w2. simpl. by intros -> -> -> -> -> ->. Qed.

(** X2. A second [detach] right after a first changes nothing: the first
    has emptied the connection's disposables and cleared its session. *)
Theorem detach_idempotent c w : detach c (detach c w) = detach c w.
Proof.
  destruct (detach_frame c w) as (_ & _ & _ & Hc & _).
  assert (conn_disposables c (detach c w) = []) as Hd.
  { unfold conn_disposables. rewrite Hc. by destruct (conns w !! c). }
  unfold detach at 1. rewrite Hd. cbn [dispose_all foldl].
  apply world_eq; try reflexivity.
  cbn [conns upd_conn]. apply map_eq. intros c'.
  destruct (decide (c = c')) as [<-|Hne].
  - rewrite !lookup_alter_eq, Hc. by destruct (conns w !! c).
  - by rewrite !lookup_alter_ne.
Qed.

(** ** Output fan-out *)

(** X3. One chunk of process output is forwarded, in that handler run, to
    every open connection attached to the session, once, and to nobody
    else; it is appended to the session's buffer whoever listens. *)
Theorem output_reaches_exactly_the_attached parse w s se data c k :
  reachable parse w → heap w !! s = Some se → running (pty se) = true →
  conns w !! c = Some k →
  let w' := handle parse (Data s data) w in
  conns w' !! c
  = Some (with_sent (λ fs, fs ++ if bool_decide (currentSession k = Some s) && readyOpen k
                                 then [Raw data] else []) k)
  ∧ buffer <$> heap w' !! s = Some (buffer_onData (buffer se) data)
  ∧ ∀ s', s' ≠ s → heap w' !! s' = heap w !! s'.
Proof.
  intros Hwf%wf_reachable Hs Hrun Hk w'.
  destruct (fire_data_spec s se data w Hwf Hs) as (_ & E2 & _ & _ & _ & E6).
  change (fire_data s data w) with w' in *.
  split; [|split].
  - rewrite E6, Hk. simpl. f_equal. f_equal.
    case_bool_decide as Hcur; simpl.
    + destruct (forwards_attached w c k s se Hwf Hk Hcur Hs) as [i ->].
      by destruct (readyOpen k).
    + rewrite (forwards_elsewhere w c s se Hwf Hs).
      * by destruct (readyOpen k).
      * by rewrite (wf_alive _ Hwf _ _ Hs).
      * unfold conn_session. by rewrite Hk.
  - by rewrite E2, lookup_alter_eq, Hs.
  - intros s' Hne. by rewrite E2, lookup_alter_ne.
Qed.

Lemma output_reaches_exactly_the_attached_witness :
  conn_sent 0 (handle parse_plain_cwd (Data 0 (of_ascii "!")) demo_hello)
  = [Ctl Ready; Ctl (Spawned (of_ascii "/a") 4242); Raw (of_ascii "hello");
     Raw (of_ascii "!")].
Proof.
  destruct (output_reaches_exactly_the_attached parse_plain_cwd demo_hello 0%nat
              (mkSession (mkPty 4242 true [(0%nat, BufferOutput); (2%nat, ForwardOutput 0)]
                            [(1%nat, SessionExit); (3%nat, NotifyExit 0)] [])
                 (of_ascii "/a") (of_ascii "hello") true)
              (of_ascii "!") 0%nat
              (mkConn (Some 0%nat) [DisposeData 0 2; DisposeExit 0 3] true
                 [Ctl Ready; Ctl (Spawned (of_ascii "/a") 4242); Raw (of_ascii "hello")])
              demo_hello_reachable)
    as (Hc & _); [vm_compute; reflexivity|reflexivity|vm_compute; reflexivity|].
  unfold conn_sent. rewrite Hc. reflexivity.
Defined.

(** ** One session per connection *)

(** X4. In every reachable world a connection has its output and exit
    callbacks on at most one session, one of each and always both
    together.  That session is the one the connection is attached to as
    long as it is alive; when its process has exited, which clears the
    connection's session and disposes nothing, the callbacks are still
    on the dead session and the connection is attached to none.  A
    connection whose [currentSession] is set has exactly one callback of
    each kind on that session, which is alive and registered under its
    cwd. *)
Theorem connection_subscribed_to_at_most_one_session parse w c :
  reachable parse w →
  (∀ s1 i1 s2 i2,
     (i1, ForwardOutput c) ∈ data_listeners s1 w →
     (i2, ForwardOutput c) ∈ data_listeners s2 w → s1 = s2 ∧ i1 = i2)
  ∧ (∀ s1 j1 s2 j2,
       (j1, NotifyExit c) ∈ exit_listeners s1 w →
       (j2, NotifyExit c) ∈ exit_listeners s2 w → s1 = s2 ∧ j1 = j2)
  ∧ (∀ s, (∃ i, (i, ForwardOutput c) ∈ data_listeners s w)
          ↔ (∃ j, (j, NotifyExit c) ∈ exit_listeners s w))
  ∧ (∀ s i, (i, ForwardOutput c) ∈ data_listeners s w →
       ∃ se, heap w !! s = Some se
             ∧ conn_session c w = (if alive se then Some s else None)
             ∧ (alive se = false → running (pty se) = false ∧ sessions w !! cwd se ≠ Some s))
  ∧ (∀ s, conn_session c w = Some s →
       (∃ i, forwards_to c (data_listeners s w) = [(i, ForwardOutput c)])
       ∧ (∃ j, notifies c (exit_listeners s w) = [(j, NotifyExit c)])
       ∧ ∃ se, heap w !! s = Some se ∧ alive se = true
               ∧ sessions w !! cwd se = Some s).
Proof.
  intros Hwf%wf_reachable.
  assert (∀ s i, (i, ForwardOutput c) ∈ data_listeners s w →
            ∃ k s0 i0 j0 se0, conns w !! c = Some k
                          ∧ disposables k = [DisposeData s0 i0; DisposeExit s0 j0]
                          ∧ heap w !! s0 = Some se0
                          ∧ (j0, NotifyExit c) ∈ onExit (pty se0)
                          ∧ currentSession k = (if alive se0 then Some s0 else None)
                          ∧ s = s0 ∧ i = i0) as Hd.
  { intros s i Hi. unfold data_listeners in Hi.
    destruct (heap w !! s) as [se|] eqn:Hs; [|by apply elem_of_nil in Hi].
    destruct (wf_data_owner _ Hwf _ _ _ _ Hs Hi) as (k & Hk & Hin).
    destruct (wf_shape _ Hwf _ _ Hk) as [Hd|s0 i0 j0 se0 Hd Hs0 _ Hj0 Hcur];
      rewrite Hd in Hin; [by apply elem_of_nil in Hin|].
    rewrite !elem_of_cons, elem_of_nil in Hin.
    destruct Hin as [?|[?|[]]]; simplify_eq. eexists k, _, _, _, _. by split_and!; eauto. }
  assert (∀ s j, (j, NotifyExit c) ∈ exit_listeners s w →
            ∃ k s0 i0 j0 se0, conns w !! c = Some k
                          ∧ disposables k = [DisposeData s0 i0; DisposeExit s0 j0]
                          ∧ heap w !! s0 = Some se0
                          ∧ (i0, ForwardOutput c) ∈ onData (pty se0)
                          ∧ s = s0 ∧ j = j0) as He.
  { intros s j Hj. unfold exit_listeners in Hj.
    destruct (heap w !! s) as [se|] eqn:Hs; [|by apply elem_of_nil in Hj].
    destruct (wf_exit_owner _ Hwf _ _ _ _ Hs Hj) as (k & Hk & Hin).
    destruct (wf_shape _ Hwf _ _ Hk) as [Hd'|s0 i0 j0 se0 Hd' Hs0 Hi0 _ _];
      rewrite Hd' in Hin; [by apply elem_of_nil in Hin|].
    rewrite !elem_of_cons, elem_of_nil in Hin.
    destruct Hin as [?|[?|[]]]; simplify_eq. eexists k, _, _, _, _. by split_and!; eauto. }
  split_and!.
  - intros s1 i1 s2 i2 H1 H2.
    destruct (Hd _ _ H1) as (k1 & ? & ? & ? & ? & Hk1 & Hd1 & _ & _ & _ & -> & ->).
    destruct (Hd _ _ H2) as (k2 & ? & ? & ? & ? & Hk2 & Hd2 & _ & _ & _ & -> & ->).
    simplify_eq. by rewrite Hd1 in Hd2; simplify_eq.
  - intros s1 j1 s2 j2 H1 H2.
    destruct (He _ _ H1) as (k1 & ? & ? & ? & ? & Hk1 & Hd1 & _ & _ & -> & ->).
    destruct (He _ _ H2) as (k2 & ? & ? & ? & ? & Hk2 & Hd2 & _ & _ & -> & ->).
    simplify_eq. by rewrite Hd1 in Hd2; simplify_eq.
  - intros s. split.
    + intros [i Hi].
      destruct (Hd _ _ Hi) as (k & s0 & i0 & j0 & se0 & _ & _ & Hs0 & Hj0 & _ & -> & _).
      exists j0. unfold exit_listeners. by rewrite Hs0.
    + intros [j Hj].
      destruct (He _ _ Hj) as (k & s0 & i0 & j0 & se0 & _ & _ & Hs0 & Hi0 & -> & _).
      exists i0. unfold data_listeners. by rewrite Hs0.
  - intros s i Hi.
    destruct (Hd _ _ Hi) as (k & s0 & i0 & j0 & se0 & Hk & _ & Hs0 & _ & Hcur & -> & _).
    exists se0. split; [done|]. split; [unfold conn_session; by rewrite Hk|].
    intros Ha. split; [by rewrite <- (wf_alive _ Hwf _ _ Hs0)|].
    intros Hreg. destruct (wf_registry _ Hwf _ _ Hreg) as (se1 & Hs1 & _ & Ha1).
    congruence.
  - intros s Hcur. unfold conn_session in Hcur.
    destruct (conns w !! c) as [k|] eqn:Hk; [|done]. simpl in Hcur.
    destruct (wf_attached_shape _ _ _ _ Hwf Hk Hcur) as (i & j & se & _ & Hs & Ha & _).
    destruct (forwards_attached w c k s se Hwf Hk Hcur Hs) as [i' Hi'].
    destruct (notifies_attached w c k s se Hwf Hk Hcur Hs) as [j' Hj'].
    unfold data_listeners, exit_listeners. rewrite Hs.
    split; [by exists i'|]. split; [by exists j'|].
    exists se. split; [done|]. split; [done|]. by apply wf_registered.
Qed.

(** After the process of the session of [demo_hello] has exited with
    code 3, the connection is attached to no session, and its output
    callback is still on the dead session. *)
Lemma connection_subscribed_to_at_most_one_session_witness :
  let w := handle parse_plain_cwd (Exit 0 3) demo_hello in
  (2%nat, ForwardOutput 0) ∈ data_listeners 0 w
  ∧ conn_session 0 w = None
  ∧ ∃ se, heap w !! 0%nat = Some se ∧ alive se = false.
Proof.
  cbv zeta.
  assert ((2%nat, ForwardOutput 0)
          ∈ data_listeners 0 (handle parse_plain_cwd (Exit 0 3) demo_hello)) as Hin.
  { apply list_elem_of_In. vm_compute. auto. }
  destruct (connection_subscribed_to_at_most_one_session parse_plain_cwd
              (handle parse_plain_cwd (Exit 0 3) demo_hello) 0%nat)
    as (_ & _ & _ & Hwhere & _).
  { apply (reachable_step _ demo_hello (Exit 0 3) demo_hello_reachable).
    vm_compute. reflexivity. }
  destruct (Hwhere 0%nat 2%nat Hin) as (se & Hs & Hcur & _).
  split; [exact Hin|].
  assert (alive se = false) as Ha.
  { revert Hs. vm_compute. intros [= <-]. reflexivity. }
  split; [by rewrite Hcur, Ha|]. exists se. by split.
Defined.

(** ** Frames are only added, and only to open sockets *)

Lemma frames_kept_refl k : frames_kept k k.
Proof. by split. Qed.

Lemma frames_kept_trans k1 k2 k3 :
  frames_kept k1 k2 → frames_kept k2 k3 → frames_kept k1 k3.
Proof.
  intros [P1 C1] [P2 C2]. split; [by etrans|].
  intros Ho. destruct (C1 Ho) as [E1 Ho2]. destruct (C2 Ho2) as [E2 Ho3].
  split; congruence.
Qed.

Lemma conns_kept_refl w : conns_kept w w.
Proof. intros c k Hk. exists k. split; [done|apply frames_kept_refl]. Qed.

Lemma conns_kept_trans w1 w2 w3 : conns_kept w1 w2 → conns_kept w2 w3 → conns_kept w1 w3.
Proof.
  intros H1 H2 c k Hk. destruct (H1 _ _ Hk) as (k2 & Hk2 & F1).
  destruct (H2 _ _ Hk2) as (k3 & Hk3 & F2). exists k3. split; [done|].
  by eapply frames_kept_trans.
Qed.

Lemma conns_kept_same w w' : conns w' = conns w → conns_kept w w'.
Proof. intros E c k Hk. exists k. rewrite E. split; [done|apply frames_kept_refl]. Qed.

Lemma conns_kept_upd_conn c f w :
  (∀ k, conns w !! c = Some k → frames_kept k (f k)) → conns_kept w (upd_conn c f w).
Proof.
  intros Hf c' k Hk. simpl. destruct (decide (c = c')) as [<-|Hne].
  - exists (f k). rewrite lookup_alter_eq, Hk. split; [done|by apply Hf].
  - exists k. rewrite lookup_alter_ne by done. split; [done|apply frames_kept_refl].
Qed.

Lemma conns_kept_send c f w : conn_open c w = true → conns_kept w (ws_send c f w).
Proof.
  intros Ho. apply conns_kept_upd_conn. intros k Hk. split; simpl.
  - by apply prefix_app_r.
  - unfold conn_open in Ho. rewrite Hk in Ho. congruence.
Qed.

Lemma conns_kept_guarded_send (b : bool) c f w :
  conns_kept w (if b && conn_open c w then ws_send c f w else w).
Proof.
  destruct b; simpl; [|apply conns_kept_refl].
  destruct (conn_open c w) eqn:Ho; [by apply conns_kept_send|apply conns_kept_refl].
Qed.

Lemma conns_kept_sendControl c m w : conns_kept w (sendControl c m w).
Proof. apply (conns_kept_guarded_send true). Qed.

Lemma conns_kept_foldl {A} (f : World → A → World) (l : list A) w :
  (∀ w x, conns_kept w (f w x)) → conns_kept w (foldl f w l).
Proof.
  intros Hf. revert w. induction l as [|x l IH]; intros w; simpl.
  - apply conns_kept_refl.
  - eapply conns_kept_trans; [apply Hf|apply IH].
Qed.

Lemma conns_kept_detach c w : conns_kept w (detach c w).
Proof.
  destruct (detach_frame c w) as (_ & _ & _ & Hc & Hoth).
  intros c' k Hk. destruct (decide (c' = c)) as [->|Hne].
  - rewrite Hc, Hk. simpl. eexists. split; [done|]. by split.
  - rewrite (Hoth _ Hne). exists k. split; [done|apply frames_kept_refl].
Qed.

Lemma conns_kept_attach c s w : conns_kept w (attach c s w).
Proof.
  destruct (attach_frame c s w) as (_ & _ & Hc & Hoth).
  intros c' k Hk. destruct (decide (c' = c)) as [->|Hne].
  - rewrite Hc, Hk. simpl. eexists. split; [done|]. by split.
  - rewrite (Hoth _ Hne). exists k. split; [done|apply frames_kept_refl].
Qed.

Lemma conns_kept_resume c key isdir sp w :
  conns_kept w (selectProject_resume c key isdir sp w).
Proof.
  unfold selectProject_resume. destruct isdir; cbn [negb];
    [|apply conns_kept_sendControl].
  destruct (existing_alive key w) as [s|].
  - eapply conns_kept_trans; [apply conns_kept_attach|].
    eapply conns_kept_trans; [apply conns_kept_guarded_send|].
    apply conns_kept_sendControl.
  - destruct sp as [p|err]; [|apply conns_kept_sendControl].
    destruct (spawnSession key p w) as [s w1] eqn:Esp.
    unfold spawnSession in Esp. simpl in Esp. injection Esp as <- <-.
    eapply conns_kept_trans; [|apply conns_kept_sendControl].
    eapply conns_kept_trans; [|apply conns_kept_attach].
    by apply conns_kept_same.
Qed.

Lemma conns_kept_on_message parse c msg w : conns_kept w (on_message parse c msg w).
Proof.
  unfold on_message. destruct msg as [|prefix payload]; [apply conns_kept_refl|].
  repeat case_match; try apply conns_kept_refl; try by apply conns_kept_same.
  eapply conns_kept_trans; [apply conns_kept_detach|]. by apply conns_kept_same.
Qed.

Lemma conns_kept_handle parse e w :
  enabled e w = true → conns_kept w (handle parse e w).
Proof.
  intros Hen. destruct e as [c|c msg|c key isdir sp|c|s data|s code]; cbn [handle].
  - simpl in Hen. apply bool_decide_eq_true in Hen. unfold handleConnection.
    eapply conns_kept_trans; [|apply conns_kept_sendControl].
    intros c' k Hk. exists k. simpl. split; [|apply frames_kept_refl].
    rewrite lookup_insert_ne; [done|]. congruence.
  - apply conns_kept_on_message.
  - eapply conns_kept_trans; [|apply conns_kept_resume]. by apply conns_kept_same.
  - unfold on_close. eapply conns_kept_trans; [|apply conns_kept_detach].
    apply conns_kept_upd_conn. intros k _. by split.
  - unfold fire_data. destruct (heap w !! s); [|apply conns_kept_refl].
    apply conns_kept_foldl. intros w0 [i l]. unfold run_data_listener. simpl.
    destruct l as [|c].
    + by apply conns_kept_same.
    + apply (conns_kept_guarded_send true).
  - unfold fire_exit. destruct (heap w !! s); [|apply conns_kept_refl].
    eapply conns_kept_trans; [by apply (conns_kept_same _ (upd_session s (with_pty pty_stop) w))|].
    apply conns_kept_foldl. intros w0 [j l]. unfold run_exit_listener. simpl.
    destruct l as [|c].
    + by apply conns_kept_same.
    + eapply conns_kept_trans; [apply conns_kept_sendControl|].
      apply conns_kept_upd_conn. intros k _. by split.
Qed.

Lemma conns_kept_run parse es w w' :
  run parse es w = Some w' → conns_kept w w'.
Proof.
  revert w. induction es as [|e es IH]; intros w Hrun; simpl in Hrun.
  - simplify_eq. apply conns_kept_refl.
  - destruct (enabled e w) eqn:Hen; [|done].
    eapply conns_kept_trans; [by apply conns_kept_handle|by apply IH].
Qed.

(** X5. Along every run, the frames already sent to a connection stay
    and later ones are added behind them; and once a connection's socket
    is not open it is sent nothing more and never counts as open again:
    every [ws.send] is guarded by the ready state. *)
Theorem nothing_is_sent_on_a_closed_socket parse es w w' c k :
  run parse es w = Some w' → conns w !! c = Some k →
  conn_sent c w `prefix_of` conn_sent c w'
  ∧ (readyOpen k = false → conn_sent c w' = sent k ∧ conn_open c w' = false).
Proof.
  intros Hrun Hk. destruct (conns_kept_run parse es w w' Hrun c k Hk) as (k' & Hk' & Hp & Hc).
  unfold conn_sent, conn_open. rewrite Hk, Hk'. split; [done|].
  intros Ho. by destruct (Hc Ho).
Qed.

Lemma nothing_is_sent_on_a_closed_socket_witness :
  conn_sent 0 (exec [Close 0; Data 0 (of_ascii "!"); Exit 0 1] demo_hello)
  = [Ctl Ready; Ctl (Spawned (of_ascii "/a") 4242); Raw (of_ascii "hello")].
Proof.
  destruct (nothing_is_sent_on_a_closed_socket parse_plain_cwd
              [Data 0 (of_ascii "!"); Exit 0 1]
              (exec [Close 0] demo_hello)
              (exec [Close 0; Data 0 (of_ascii "!"); Exit 0 1] demo_hello) 0%nat
              (mkConn None [] false
                 [Ctl Ready; Ctl (Spawned (of_ascii "/a") 4242); Raw (of_ascii "hello")]))
    as [_ Hclosed]; [vm_compute; reflexivity|vm_compute; reflexivity|].
  destruct (Hclosed eq_refl) as [Hsent _]. exact Hsent.
Defined.

(** X6. The first frame every connection is sent is the "ready" control
    message. *)
Theorem ready_is_the_first_frame parse w c k :
  reachable parse w → conns w !! c = Some k →
  ∃ later, sent k = Ctl Ready :: later.
Proof.
  intros [es Hes%run_steps]. revert c k.
  assert (∀ w0, (∀ c k, conns w0 !! c = Some k → ∃ later, sent k = Ctl Ready :: later) →
            run parse es w0 = Some w →
            ∀ c k, conns w !! c = Some k → ∃ later, sent k = Ctl Ready :: later) as Hgen.
  { clear Hes. induction es as [|e es IH]; intros w0 H0 Hrun; simpl in Hrun.
    - by simplify_eq.
    - destruct (enabled e w0) eqn:Hen; [|done].
      apply (IH (handle parse e w0)); [|done].
      intros c k Hk.
      destruct (conns w0 !! c) as [k0|] eqn:Hk0.
      + destruct (conns_kept_handle parse e w0 Hen c k0 Hk0) as (k' & Hk' & [l Hl] & _).
        simplify_eq. destruct (H0 _ _ Hk0) as [later Hlater].
        rewrite Hl, Hlater. by eexists.
      + (* the connection is new: only [handleConnection] creates one *)
        destruct e as [c'|c' msg|c' key isdir sp|c'|s data|s code]; cbn [handle] in Hk.
        * unfold handleConnection, sendControl, conn_open in Hk. simpl in Hk.
          rewrite lookup_insert_eq in Hk. simpl in Hk.
          destruct (decide (c' = c)) as [->|Hne].
          -- rewrite lookup_alter_eq, lookup_insert_eq in Hk. simplify_eq/=. by eexists.
          -- rewrite lookup_alter_ne, lookup_insert_ne in Hk by done. congruence.
        * destruct (decide (c = c')) as [->|Hne].
          -- simpl in Hen. unfold conn_open in Hen. by rewrite Hk0 in Hen.
          -- rewrite on_message_other in Hk by done. congruence.
        * destruct (decide (c = c')) as [->|Hne].
          -- exfalso. unfold selectProject_resume in Hk.
             assert (∀ w1 : World, conns w1 !! c' = None →
                       ∀ m, conns (sendControl c' m w1) !! c' = None) as Hsc.
             { intros w1 H1 m. unfold sendControl, conn_open. by rewrite H1. }
             assert (∀ w1 s1, conns w1 !! c' = None → conns (attach c' s1 w1) !! c' = None)
               as Hat.
             { intros w1 s1 H1. destruct (attach_frame c' s1 w1) as (_ & _ & -> & _).
               by rewrite H1. }
             destruct isdir; cbn [negb] in Hk.
             ++ destruct (existing_alive key _) as [s0|].
                ** rewrite Hsc in Hk; [done|].
                   match goal with |- context [if ?b then _ else _] => destruct b eqn:Eb end;
                     [|by apply Hat].
                   apply andb_true_iff in Eb as [_ Eb]. unfold conn_open in Eb.
                   by rewrite Hat in Eb.
                ** destruct sp as [p|err]; [|by rewrite Hsc in Hk].
                   destruct (spawnSession key p _) as [s1 w1] eqn:Esp.
                   unfold spawnSession in Esp. simpl in Esp. injection Esp as <- <-.
                   rewrite Hsc in Hk; [done|]. by apply Hat.
             ++ by rewrite Hsc in Hk.
          -- rewrite resume_other in Hk by done. simpl in Hk. congruence.
        * simpl in Hen. unfold on_close in Hk.
          destruct (decide (c = c')) as [->|Hne].
          -- unfold conn_open in Hen. by rewrite Hk0 in Hen.
          -- destruct (detach_frame c' (upd_conn c' (with_readyOpen false) w0))
               as (_ & _ & _ & _ & Hoth).
             rewrite Hoth in Hk by done. simpl in Hk.
             rewrite lookup_alter_ne in Hk by done. congruence.
        * exfalso. revert Hk. unfold fire_data. destruct (heap w0 !! s) as [se|]; [|congruence].
          generalize (onData (pty se)). intros l. clear -Hk0. revert w0 Hk0.
          induction l as [|[i x] l IHl]; intros w0 Hk0; simpl; [congruence|].
          apply IHl. unfold run_data_listener. simpl.
          destruct x as [|c'']; [done|].
          destruct (conn_open c'' w0) eqn:Ho; [|done]. simpl.
          destruct (decide (c'' = c)) as [->|?]; [|by rewrite lookup_alter_ne].
          by rewrite lookup_alter_eq, Hk0.
        * exfalso. revert Hk. unfold fire_exit. destruct (heap w0 !! s) as [se|]; [|congruence].
          generalize (cwd se) (onExit (pty se)). intros key l.
          assert (conns (upd_session s (with_pty pty_stop) w0) !! c = None) as Hk1 by done.
          revert Hk1. generalize (upd_session s (with_pty pty_stop) w0). clear.
          intros w1. revert w1. induction l as [|[j x] l IHl]; intros w1 Hk1; simpl;
            [congruence|].
          apply IHl. unfold run_exit_listener. simpl. destruct x as [|c'']; [done|].
          assert (conns (sendControl c'' (Exited code key) w1) !! c = None) as Hs.
          { unfold sendControl. destruct (conn_open c'' w1); [|done]. simpl.
            destruct (decide (c'' = c)) as [->|?]; [|by rewrite lookup_alter_ne].
            by rewrite lookup_alter_eq, Hk1. }
          simpl. destruct (decide (c'' = c)) as [->|?]; [|by rewrite lookup_alter_ne].
          by rewrite lookup_alter_eq, Hs. }
  intros c k Hk. apply (Hgen initial) with c; [|done|done].
  intros c0 k0. simpl. by rewrite lookup_empty.
Qed.

Lemma ready_is_the_first_frame_witness :
  ∃ later, conn_sent 0 demo_hello = Ctl Ready :: later.
Proof.
  destruct (ready_is_the_first_frame parse_plain_cwd demo_hello 0%nat
              (mkConn (Some 0%nat) [DisposeData 0 2; DisposeExit 0 3] true
                 [Ctl Ready; Ctl (Spawned (of_ascii "/a") 4242); Raw (of_ascii "hello")])
              demo_hello_reachable) as [later Hl]; [vm_compute; reflexivity|].
  exists later. exact Hl.
Defined.

(** ** What a handler run can do to a session *)

Lemma resume_cores c key isdir sp w s se :
  heap w !! next_session w = None → heap w !! s = Some se →
  session_core <$> heap (selectProject_resume c key isdir sp w) !! s
  = Some (session_core se).
Proof.
  intros Hfresh Hs.
  assert (∀ w', same_core w w' → session_core <$> heap w' !! s = Some (session_core se))
    as Hsame.
  { intros w' (_ & _ & H). by rewrite H, Hs. }
  unfold selectProject_resume. destruct isdir; cbn [negb].
  2:{ apply Hsame, same_core_sendControl. }
  destruct (existing_alive key w) as [s0|].
  - apply Hsame.
    eapply same_core_trans; [|apply same_core_sendControl].
    eapply same_core_trans; [apply same_core_attach|].
    match goal with |- same_core _ (if ?b then _ else _) => destruct b end;
      [apply same_core_ws_send|apply same_core_refl].
  - destruct sp as [p|err]; [|apply Hsame, same_core_sendControl].
    destruct (spawnSession key p w) as [s1 w1] eqn:Esp.
    unfold spawnSession in Esp. simpl in Esp. injection Esp as <- <-.
    match goal with |- context [sendControl c ?m (attach c ?s1 ?w1)] =>
      assert (same_core w1 (sendControl c m (attach c s1 w1))) as (_ & _ & H)
        by (eapply same_core_trans; [apply same_core_attach|apply same_core_sendControl])
    end.
    rewrite H. simpl. rewrite lookup_insert_ne by congruence. by rewrite Hs.
Qed.

(** A frame from a client leaves every session as it is, but for one
    write or resize made on the process of the live session the client is
    attached to. *)
Lemma on_message_session parse c msg w s se :
  heap w !! s = Some se →
  ∃ se', heap (on_message parse c msg w) !! s = Some se'
         ∧ pid (pty se') = pid (pty se) ∧ running (pty se') = running (pty se)
         ∧ cwd se' = cwd se ∧ buffer se' = buffer se ∧ alive se' = alive se
         ∧ (calls (pty se') = calls (pty se)
            ∨ ∃ call, calls (pty se') = calls (pty se) ++ [call] ∧ call ≠ PtyKill
                      ∧ conn_live_session c w = Some s).
Proof.
  intros Hs.
  assert (∃ se', heap w !! s = Some se'
         ∧ pid (pty se') = pid (pty se) ∧ running (pty se') = running (pty se)
         ∧ cwd se' = cwd se ∧ buffer se' = buffer se ∧ alive se' = alive se
         ∧ (calls (pty se') = calls (pty se)
            ∨ ∃ call, calls (pty se') = calls (pty se) ++ [call] ∧ call ≠ PtyKill
                      ∧ conn_live_session c w = Some s)) as Hsame.
  { exists se. split_and!; try done. by left. }
  assert (∀ s0 call, conn_live_session c w = Some s0 → call ≠ PtyKill →
            ∃ se', heap (upd_session s0 (with_pty (pty_call call)) w) !! s = Some se'
         ∧ pid (pty se') = pid (pty se) ∧ running (pty se') = running (pty se)
         ∧ cwd se' = cwd se ∧ buffer se' = buffer se ∧ alive se' = alive se
         ∧ (calls (pty se') = calls (pty se)
            ∨ ∃ call, calls (pty se') = calls (pty se) ++ [call] ∧ call ≠ PtyKill
                      ∧ conn_live_session c w = Some s)) as Hcall.
  { intros s0 call Hl Hcall. simpl. destruct (decide (s0 = s)) as [->|Hne].
    - rewrite lookup_alter_eq, Hs. simpl. eexists. split; [done|]. simpl.
      split_and!; try done. right. by exists call.
    - rewrite lookup_alter_ne by done. exists se. split_and!; try done. by left. }
  unfold on_message. destruct msg as [|prefix payload]; [done|].
  repeat case_match; try done; try by eapply Hcall.
  unfold selectProject_call, with_pending. cbn [heap].
  destruct (same_core_lookup _ _ _ _ (same_core_detach c w) Hs) as (se' & Hs' & Ec).
  exists se'. unfold session_core in Ec. split; [done|].
  split_and!; try congruence. left. congruence.
Qed.

Lemma on_message_absent parse c msg w s :
  heap w !! s = None → heap (on_message parse c msg w) !! s = None.
Proof.
  intros Hs. unfold on_message. destruct msg as [|prefix payload]; [done|].
  repeat case_match; try done.
  - simpl. rewrite lookup_alter. case_decide; [subst|done]. by rewrite Hs.
  - simpl. rewrite lookup_alter. case_decide; [subst|done]. by rewrite Hs.
  - unfold selectProject_call, with_pending. cbn [heap].
    destruct (same_core_detach c w) as (_ & _ & Hcore). specialize (Hcore s).
    rewrite Hs in Hcore. by destruct (heap (detach c w) !! s).
Qed.

Lemma on_message_sent parse c msg w c' :
  conn_sent c' (on_message parse c msg w) = conn_sent c' w.
Proof.
  unfold conn_sent. destruct (decide (c' = c)) as [->|Hne];
    [|by rewrite on_message_other].
  assert (sent <$> conns (on_message parse c msg w) !! c = sent <$> conns w !! c) as E.
  { unfold on_message. destruct msg as [|prefix payload]; [done|].
    repeat case_match; try done.
    unfold selectProject_call, with_pending. cbn [conns].
    destruct (detach_frame c w) as (_ & _ & _ & -> & _). by destruct (conns w !! c). }
  by destruct (conns (on_message parse c msg w) !! c), (conns w !! c); simplify_eq/=.
Qed.

Lemma on_message_registry parse c msg w :
  sessions (on_message parse c msg w) = sessions w
  ∧ next_session (on_message parse c msg w) = next_session w.
Proof.
  unfold on_message. destruct msg as [|prefix payload]; [done|].
  repeat case_match; try done.
  unfold selectProject_call, with_pending. cbn [sessions next_session].
  by destruct (same_core_detach c w) as (-> & -> & _).
Qed.

Lemma handle_session parse e w s se :
  wf w → enabled e w = true → heap w !! s = Some se →
  ∃ se', heap (handle parse e w) !! s = Some se'
         ∧ cwd se' = cwd se ∧ pid (pty se') = pid (pty se)
         ∧ calls (pty se) `prefix_of` calls (pty se')
         ∧ (alive se = false → session_core se' = session_core se).
Proof.
  intros Hwf Hen Hs.
  assert (∀ w', same_core w w' →
            ∃ se', heap w' !! s = Some se'
                   ∧ cwd se' = cwd se ∧ pid (pty se') = pid (pty se)
                   ∧ calls (pty se) `prefix_of` calls (pty se')
                   ∧ (alive se = false → session_core se' = session_core se)) as Hsame.
  { intros w' Hc. destruct (same_core_lookup _ _ _ _ Hc Hs) as (se' & Hs' & Ec).
    exists se'. split; [done|]. pose proof Ec as Ec'. unfold session_core in Ec'.
    assert (calls (pty se') = calls (pty se)) as Ecalls by congruence.
    split_and!; [congruence|congruence|by rewrite Ecalls|done]. }
  destruct e as [c|c msg|c key isdir sp|c|s0 data|s0 code]; cbn [handle].
  - apply Hsame. unfold handleConnection.
    eapply same_core_trans; [|apply same_core_sendControl]. by repeat split.
  - destruct (on_message_session parse c msg w s se Hs)
      as (se' & Hs' & E1 & E2 & E3 & E4 & E5 & Hc).
    exists se'. split_and!; try done.
    { destruct Hc as [->|(call & -> & _)]; [done|by apply prefix_app_r]. }
    intros Ha.
    assert (calls (pty se') = calls (pty se)) as Ecalls.
    { destruct Hc as [?|(call & _ & _ & Hl)]; [done|].
      destruct (conn_live_session_heap _ _ _ Hl) as (se0 & Hs0 & Ha0). congruence. }
    unfold session_core. congruence.
  - pose proof (resume_cores c key isdir sp (with_pending (remove_first (c, key)) w) s se
                  (wf_fresh_session _ Hwf) Hs) as H.
    destruct (heap (selectProject_resume _ _ _ _ _) !! s) as [se'|]; simpl in H; [|done].
    assert (session_core se' = session_core se) as Ec by congruence.
    exists se'. split; [done|]. clear H. pose proof Ec as Ec'. unfold session_core in Ec'.
    assert (calls (pty se') = calls (pty se)) as Ecalls by congruence.
    split_and!; [congruence|congruence|by rewrite Ecalls|done].
  - apply Hsame. unfold on_close.
    eapply same_core_trans; [apply same_core_upd_conn|apply same_core_detach].
  - simpl in Hen. unfold pty_running in Hen.
    destruct (heap w !! s0) as [se0|] eqn:Hs0; [|done].
    destruct (fire_data_spec s0 se0 data w Hwf Hs0) as (_ & E2 & _). rewrite E2.
    destruct (decide (s0 = s)) as [->|Hne].
    + rewrite lookup_alter_eq, Hs. simpl. eexists. split; [done|]. simpl.
      split_and!; try done. intros Ha. simplify_eq.
      rewrite (wf_alive _ Hwf _ _ Hs0) in Ha. congruence.
    + rewrite lookup_alter_ne by done. exists se. by split_and!.
  - simpl in Hen. unfold pty_running in Hen.
    destruct (heap w !! s0) as [se0|] eqn:Hs0; [|done].
    destruct (fire_exit_spec s0 se0 code w Hwf Hs0) as (_ & E2 & _). rewrite E2.
    destruct (decide (s0 = s)) as [->|Hne].
    + rewrite !lookup_alter_eq, Hs. simpl. eexists. split; [done|]. simpl.
      split_and!; try done. intros Ha. simplify_eq.
      rewrite (wf_alive _ Hwf _ _ Hs0) in Ha. congruence.
    + rewrite !lookup_alter_ne by done. exists se. by split_and!.
Qed.

Lemma run_session parse es w w' s se :
  wf w → run parse es w = Some w' → heap w !! s = Some se →
  ∃ se', heap w' !! s = Some se'
         ∧ cwd se' = cwd se ∧ pid (pty se') = pid (pty se)
         ∧ calls (pty se) `prefix_of` calls (pty se')
         ∧ (alive se = false → session_core se' = session_core se).
Proof.
  revert w se. induction es as [|e es IH]; intros w se Hwf Hrun Hs; simpl in Hrun.
  - simplify_eq. exists se. by split_and!.
  - destruct (enabled e w) eqn:Hen; [|done].
    destruct (handle_session parse e w s se Hwf Hen Hs) as (se1 & Hs1 & E1 & E2 & P1 & F1).
    destruct (IH _ se1 (wf_handle _ _ _ Hwf Hen) Hrun Hs1) as (se2 & Hs2 & E3 & E4 & P2 & F2).
    exists se2. split; [done|]. split_and!; try congruence; [by etrans|].
    intros Ha. rewrite F2, F1; try done. specialize (F1 Ha). unfold session_core in F1.
    congruence.
Qed.

(** X7. A session object is never removed and never renamed: along
    every run it keeps its directory and its process id, and the calls
    made on its process are only added to.  Once its process has exited
    the session is frozen: it stays dead, and its buffer and the calls
    made on its process stay as they were at the exit, whatever the
    clients send afterwards. *)
Theorem exited_session_is_frozen parse es w w' s se :
  reachable parse w → run parse es w = Some w' → heap w !! s = Some se →
  ∃ se', heap w' !! s = Some se'
         ∧ cwd se' = cwd se ∧ pid (pty se') = pid (pty se)
         ∧ calls (pty se) `prefix_of` calls (pty se')
         ∧ (alive se = false → session_core se' = session_core se).
Proof. intros Hr. apply run_session. by eapply wf_reachable. Qed.

Lemma exited_session_is_frozen_witness :
  ∃ se', heap (exec [Exit 0 7; Message 0 (of_ascii "0ls"); Connect 1] demo_hello) !! 0%nat
         = Some se'
         ∧ session_core se' = (4242, false, [], of_ascii "/a", of_ascii "hello", false).
Proof.
  edestruct (exited_session_is_frozen parse_plain_cwd
               [Message 0 (of_ascii "0ls"); Connect 1]
               (exec [Exit 0 7] demo_hello)
               (exec [Exit 0 7; Message 0 (of_ascii "0ls"); Connect 1] demo_hello) 0%nat)
    as (se' & Hs' & _ & _ & _ & Hfrozen).
  - apply (reachable_step _ demo_hello (Exit 0 7) demo_hello_reachable).
    vm_compute. reflexivity.
  - vm_compute. reflexivity.
  - vm_compute. reflexivity.
  - exists se'. split; [exact Hs'|]. rewrite (Hfrozen eq_refl). reflexivity.
Defined.

(** ** A select whose spawn fails *)

Lemma same_core_with_pending f w : same_core w (with_pending f w).
Proof. by repeat split. Qed.

Lemma resume_spawn_fails c key err w k :
  conns w !! c = Some k → readyOpen k = true → existing_alive key w = None →
  let w' := selectProject_resume c key true (SpawnThrows err) w in
  conns w' !! c = Some (with_sent (λ fs, fs ++ [Ctl (Error (FailedToStart err))]) k)
  ∧ sessions w' = sessions w ∧ heap w' = heap w
  ∧ next_session w' = next_session w ∧ next_listener w' = next_listener w
  ∧ pending w' = pending w
  ∧ (∀ c', c' ≠ c → conns w' !! c' = conns w !! c').
Proof.
  intros Hk Ho Hex. unfold selectProject_resume. cbn [negb]. rewrite Hex.
  rewrite sendControl_open by (unfold conn_open; by rewrite Hk).
  simpl. rewrite lookup_alter_eq, Hk. repeat split.
  intros c' Hne. by rewrite lookup_alter_ne.
Qed.

(** X8. A select of a directory without a live session, when [pty.spawn]
    throws: the client is sent the "Failed to start" error carrying the
    exception, no session is created, the registry and every session are
    as before, and the connection is left open but attached to nothing,
    also when it was attached to a session before the select; a following
    select of a valid directory on it succeeds. *)
Theorem failed_spawn_is_reported parse w c k payload key err :
  conns w !! c = Some k → readyOpen k = true →
  parse payload = Some key → existing_alive key w = None →
  let w1 := handle parse (Message c (50%N :: payload)) w in
  let w2 := handle parse (IsDirectory c key true (SpawnThrows err)) w1 in
  conn_sent c w2 = sent k ++ [Ctl (Error (FailedToStart err))]
  ∧ sessions w2 = sessions w
  ∧ next_session w2 = next_session w
  ∧ (∀ s, session_core <$> heap w2 !! s = session_core <$> heap w !! s)
  ∧ conn_open c w2 = true
  ∧ conn_session c w2 = None
  ∧ (∀ c', c' ≠ c → conns w2 !! c' = conns w !! c')
  ∧ ∀ payload' key' p, parse payload' = Some key' →
      let w3 := handle parse (Message c (50%N :: payload')) w2 in
      let w4 := handle parse (IsDirectory c key' true (SpawnOk p)) w3 in
      enabled (Message c (50%N :: payload')) w2 = true
      ∧ enabled (IsDirectory c key' true (SpawnOk p)) w3 = true
      ∧ ∃ s, conn_session c w4 = Some s ∧ sessions w4 !! key' = Some s.
Proof.
  intros Hk Ho E Hex w1 w2.
  destruct (select_message_frame parse c payload key w k Hk E)
    as (Hc1 & Hoth1 & Hcore1 & Hp1 & Hn1 & _).
  fold w1 in Hc1, Hoth1, Hcore1, Hp1, Hn1.
  assert (existing_alive key (with_pending (remove_first (c, key)) w1) = None) as Hex1.
  { rewrite <- Hex. apply same_core_existing_alive.
    eapply same_core_trans; [exact Hcore1|apply same_core_with_pending]. }
  destruct (resume_spawn_fails c key err (with_pending (remove_first (c, key)) w1)
              (mkConn None [] (readyOpen k) (sent k)) Hc1 Ho Hex1)
    as (Hc2 & Es2 & Eh2 & Ens2 & _ & _ & Hoth2).
  change (selectProject_resume c key true (SpawnThrows err)
            (with_pending (remove_first (c, key)) w1)) with w2 in *.
  simpl in Hc2, Es2, Eh2, Ens2, Hoth2.
  destruct Hcore1 as (Es1 & Ens1 & Hcore1).
  assert (conn_sent c w2 = sent k ++ [Ctl (Error (FailedToStart err))]) as Hsent
    by (unfold conn_sent; by rewrite Hc2).
  split; [done|]. split; [congruence|]. split; [congruence|].
  split; [by intros s; rewrite Eh2|].
  split; [by unfold conn_open; rewrite Hc2|].
  split; [by unfold conn_session; rewrite Hc2|].
  split; [by intros c' Hne; rewrite Hoth2, Hoth1|].
  intros payload' key' p E'.
  destruct (select_frame_succeeds parse w2 c _ payload' key' p Hc2 Ho E')
    as (En1 & En2 & s & Hs1 & Hs2 & _).
  split; [done|]. split; [done|]. by exists s.
Qed.

Lemma failed_spawn_is_reported_witness :
  conn_sent 0 (exec [Message 0 (select_frame "/b");
                     IsDirectory 0 (of_ascii "/b") true (SpawnThrows (of_ascii "ENOENT"))]
                 demo_hello)
  = [Ctl Ready; Ctl (Spawned (of_ascii "/a") 4242); Raw (of_ascii "hello");
     Ctl (Error (FailedToStart (of_ascii "ENOENT")))].
Proof.
  destruct (failed_spawn_is_reported parse_plain_cwd demo_hello 0%nat
              (mkConn (Some 0%nat) [DisposeData 0 2; DisposeExit 0 3] true
                 [Ctl Ready; Ctl (Spawned (of_ascii "/a") 4242); Raw (of_ascii "hello")])
              (drop 1 (select_frame "/b")) (of_ascii "/b") (of_ascii "ENOENT"))
    as (Hsent & _); [vm_compute; reflexivity|reflexivity|vm_compute; reflexivity
                     |vm_compute; reflexivity|].
  exact Hsent.
Defined.

(** ** A select that resumes after the socket has closed *)

Lemma resume_closed c key p w k :
  conns w !! c = Some k → readyOpen k = false →
  let w' := selectProject_resume c key true (SpawnOk p) w in
  ∃ s l, conns w' !! c = Some (mkConn (Some s) l false (sent k))
         ∧ ((existing_alive key w = Some s ∧ same_core w w')
            ∨ (existing_alive key w = None ∧ s = next_session w
               ∧ sessions w' = <[key := s]> (sessions w)
               ∧ session_core <$> heap w' !! s = Some (p, true, [], key, [], true)
               ∧ ∀ s', s' ≠ s →
                   session_core <$> heap w' !! s' = session_core <$> heap w !! s')).
Proof.
  intros Hk Ho. unfold selectProject_resume. cbn [negb].
  destruct (existing_alive key w) as [s|] eqn:Hex.
  - destruct (attach_frame c s w) as (Hcore & Hp & Hc & Hoth).
    remember (attach c s w) as w1 eqn:Ew1. rewrite Hk in Hc. simpl in Hc.
    assert (conn_open c w1 = false) as Ho1 by (unfold conn_open; by rewrite Hc, Ho).
    rewrite Ho1, andb_false_r. rewrite (sendControl_closed _ _ _ Ho1).
    exists s. eexists. split; [by rewrite Hc, Ho|]. left. by split.
  - destruct (spawnSession key p w) as [s w0] eqn:Esp.
    unfold spawnSession in Esp. simpl in Esp. injection Esp as <- <-.
    match goal with |- context [attach c ?s ?w0] =>
      destruct (attach_frame c s w0) as (Hcore & Hp & Hc & Hoth);
      remember (attach c s w0) as w1 eqn:Ew1
    end.
    simpl in Hc, Hp, Hoth. rewrite Hk in Hc. simpl in Hc.
    assert (conn_open c w1 = false) as Ho1 by (unfold conn_open; by rewrite Hc, Ho).
    rewrite (sendControl_closed _ _ _ Ho1).
    destruct Hcore as (Es & Ens & Hcore). simpl in Es, Ens, Hcore.
    exists (next_session w). eexists. split; [by rewrite Hc, Ho|]. right.
    split; [done|]. split; [done|]. split; [done|].
    split; [by rewrite Hcore, lookup_insert_eq|].
    intros s' Hne. by rewrite Hcore, lookup_insert_ne.
Qed.

(** X9. A select whose socket closes while [isDirectory] is awaited is
    still carried out when the answer arrives: the session registered for
    the directory is attached, or a process is spawned and registered
    when there is none, and the closed connection is subscribed to its
    output; the client is sent nothing. *)
Theorem select_is_completed_after_close parse w c k payload key p :
  reachable parse w →
  conns w !! c = Some k → readyOpen k = true → parse payload = Some key →
  let w1 := handle parse (Message c (50%N :: payload)) w in
  let w2 := handle parse (Close c) w1 in
  let w3 := handle parse (IsDirectory c key true (SpawnOk p)) w2 in
  enabled (Message c (50%N :: payload)) w = true
  ∧ enabled (Close c) w1 = true
  ∧ enabled (IsDirectory c key true (SpawnOk p)) w2 = true
  ∧ conn_sent c w3 = sent k
  ∧ conn_open c w3 = false
  ∧ ∃ s, conn_session c w3 = Some s
         ∧ sessions w3 !! key = Some s
         ∧ (∃ i, forwards_to c (data_listeners s w3) = [(i, ForwardOutput c)])
         ∧ (∃ j, notifies c (exit_listeners s w3) = [(j, NotifyExit c)])
         ∧ ((existing_alive key w = Some s ∧ sessions w3 = sessions w)
            ∨ (existing_alive key w = None ∧ s = next_session w
               ∧ sessions w3 = <[key := s]> (sessions w)
               ∧ session_core <$> heap w3 !! s = Some (p, true, [], key, [], true))).
Proof.
  intros Hreach Hk Ho E w1 w2 w3. pose proof (wf_reachable _ _ Hreach) as Hwf.
  destruct (select_message_frame parse c payload key w k Hk E)
    as (Hc1 & Hoth1 & Hcore1 & Hp1 & Hn1 & _).
  fold w1 in Hc1, Hoth1, Hcore1, Hp1, Hn1.
  assert (enabled (Message c (50%N :: payload)) w = true) as En1
    by (by eapply conn_lookup_open).
  assert (enabled (Close c) w1 = true) as En2
    by (simpl; unfold conn_open; by rewrite Hc1).
  assert (same_core w1 w2 ∧ pending w2 = pending w1
          ∧ conns w2 !! c = Some (mkConn None [] false (sent k))) as (Hcore2 & Hp2 & Hc2).
  { unfold w2. cbn [handle]. unfold on_close.
    destruct (detach_frame c (upd_conn c (with_readyOpen false) w1))
      as (Hcd & Hpd & _ & Hcc & _).
    split; [by eapply same_core_trans; [apply same_core_upd_conn|]|].
    split; [done|]. rewrite Hcc. simpl. by rewrite lookup_alter_eq, Hc1. }
  assert (enabled (IsDirectory c key true (SpawnOk p)) w2 = true) as En3.
  { cbn [enabled]. apply bool_decide_eq_true. rewrite Hp2, Hp1.
    apply elem_of_app. right. by left. }
  assert (wf w3) as Hwf3 by (by repeat apply wf_handle).
  assert (same_core w (with_pending (remove_first (c, key)) w2)) as Hcore.
  { eapply same_core_trans; [exact Hcore1|].
    eapply same_core_trans; [exact Hcore2|apply same_core_with_pending]. }
  destruct (resume_closed c key p (with_pending (remove_first (c, key)) w2)
              (mkConn None [] false (sent k)) Hc2 eq_refl)
    as (s & l & Hc3 & Hcases).
  change (selectProject_resume c key true (SpawnOk p)
            (with_pending (remove_first (c, key)) w2)) with w3 in *.
  simpl in Hc3.
  rewrite (same_core_existing_alive _ _ key Hcore) in Hcases.
  split_and!; try done.
  { unfold conn_sent. by rewrite Hc3. }
  { unfold conn_open. by rewrite Hc3. }
  exists s.
  destruct (wf_attached_shape _ _ _ _ Hwf3 Hc3 eq_refl) as (i & j & se & _ & Hs3 & Ha3 & _).
  destruct (forwards_attached _ _ _ _ _ Hwf3 Hc3 eq_refl Hs3) as [i' Hi'].
  destruct (notifies_attached _ _ _ _ _ Hwf3 Hc3 eq_refl Hs3) as [j' Hj'].
  split; [unfold conn_session; by rewrite Hc3|].
  assert (sessions w3 !! key = Some s) as Hreg.
  { destruct Hcases as [[Hex (Es & _)]|(_ & -> & Es & _)].
    - destruct Hcore as (Es0 & _). change (sessions w2 = sessions w) in Es0.
      change (sessions w3 = sessions w2) in Es.
      destruct (existing_alive_Some _ _ _ Hex) as (Hkey & _). congruence.
    - change (sessions w3 !! key = Some (next_session w2)).
      change (sessions w3 = <[key := next_session w2]> (sessions w2)) in Es.
      by rewrite Es, lookup_insert_eq. }
  split; [done|].
  split; [exists i'; unfold data_listeners; by rewrite Hs3|].
  split; [exists j'; unfold exit_listeners; by rewrite Hs3|].
  destruct Hcases as [[Hex (Es & _)]|(Hex & -> & Es & Hnew & _)].
  - left. split; [done|]. destruct Hcore as (Es0 & _).
    change (sessions w2 = sessions w) in Es0.
    change (sessions w3 = sessions w2) in Es. congruence.
  - right. destruct Hcore as (Es0 & Ens0 & _).
    change (sessions w2 = sessions w) in Es0.
    change (next_session w2 = next_session w) in Ens0.
    change (sessions w3 = <[key := next_session w2]> (sessions w2)) in Es.
    change (session_core <$> heap w3 !! next_session w2
            = Some (p, true, [], key, [], true)) in Hnew.
    change (next_session (with_pending (remove_first (c, key)) w2))
      with (next_session w2).
    split; [done|]. split; [done|]. split; [by rewrite Es, Es0|done].
Qed.

Lemma select_is_completed_after_close_witness :
  let w := exec [Message 0 (select_frame "/b"); Close 0;
                 IsDirectory 0 (of_ascii "/b") true (SpawnOk 7)] demo_hello in
  conn_sent 0 w
  = [Ctl Ready; Ctl (Spawned (of_ascii "/a") 4242); Raw (of_ascii "hello")]
  ∧ conn_open 0 w = false.
Proof.
  destruct (select_is_completed_after_close parse_plain_cwd demo_hello 0%nat
              (mkConn (Some 0%nat) [DisposeData 0 2; DisposeExit 0 3] true
                 [Ctl Ready; Ctl (Spawned (of_ascii "/a") 4242); Raw (of_ascii "hello")])
              (drop 1 (select_frame "/b")) (of_ascii "/b") 7 demo_hello_reachable)
    as (_ & _ & _ & Hsent & Hclosed & _);
    [vm_compute; reflexivity|reflexivity|vm_compute; reflexivity|].
  split; [exact Hsent|exact Hclosed].
Defined.

(** ** How much of the output the replay buffer holds *)

Lemma handle_buffer_exact parse e w s :
  wf w → enabled e w = true →
  match heap (handle parse e w) !! s with
  | Some se' =>
      (heap w !! s = None ∧ buffer se' = [] ∧ chunks s [e] = [])
      ∨ (∃ se, heap w !! s = Some se ∧ chunks s [e] = [] ∧ buffer se' = buffer se)
      ∨ (∃ se d, heap w !! s = Some se ∧ chunks s [e] = [d]
                 ∧ buffer se' = buffer_onData (buffer se) d)
  | None => heap w !! s = None ∧ chunks s [e] = []
  end.
Proof.
  intros Hwf Hen.
  assert (∀ w', chunks s [e] = [] →
            (buffer <$> heap w' !! s = buffer <$> heap w !! s
             ∨ (heap w !! s = None ∧ buffer <$> heap w' !! s = Some [])) →
            match heap w' !! s with
            | Some se' =>
                (heap w !! s = None ∧ buffer se' = [] ∧ chunks s [e] = [])
                ∨ (∃ se, heap w !! s = Some se ∧ chunks s [e] = [] ∧ buffer se' = buffer se)
                ∨ (∃ se d, heap w !! s = Some se ∧ chunks s [e] = [d]
                           ∧ buffer se' = buffer_onData (buffer se) d)
            | None => heap w !! s = None ∧ chunks s [e] = []
            end) as Hsame.
  { intros w' Hch [E|[E1 E2]].
    - destruct (heap w' !! s) as [se'|], (heap w !! s) as [se|]; simplify_eq/=; try done.
      right. left. exists se. by split_and!.
    - destruct (heap w' !! s) as [se'|]; simplify_eq/=. left. by split_and!. }
  destruct e as [c|c msg|c key isdir sp|c|s0 data|s0 code]; cbn [handle].
  - apply Hsame; [done|]. left. unfold handleConnection. apply same_core_buffer.
    eapply same_core_trans; [|apply same_core_sendControl]. by repeat split.
  - apply Hsame; [done|]. left. apply on_message_buffers.
  - apply Hsame; [done|].
    apply (resume_buffers c key isdir sp (with_pending (remove_first (c, key)) w) s
             (wf_fresh_session _ Hwf)).
  - apply Hsame; [done|]. left. unfold on_close. apply same_core_buffer.
    eapply same_core_trans; [apply same_core_upd_conn|apply same_core_detach].
  - simpl in Hen. unfold pty_running in Hen.
    destruct (heap w !! s0) as [se0|] eqn:Hs0; [|done].
    destruct (fire_data_spec s0 se0 data w Hwf Hs0) as (_ & E2 & _). rewrite E2.
    unfold chunks. simpl. destruct (decide (s0 = s)) as [->|Hne].
    + rewrite lookup_alter_eq, Hs0. simpl. right. right. exists se0, data. by split_and!.
    + rewrite lookup_alter_ne by done. destruct (heap w !! s) as [se|]; [|done].
      right. left. exists se. by split_and!.
  - simpl in Hen. unfold pty_running in Hen.
    destruct (heap w !! s0) as [se0|] eqn:Hs0; [|done].
    destruct (fire_exit_spec s0 se0 code w Hwf Hs0) as (_ & E2 & _).
    apply Hsame; [done|]. left. rewrite E2.
    destruct (decide (s0 = s)) as [->|?];
      [rewrite !lookup_alter_eq; by destruct (heap w !! s)|by rewrite !lookup_alter_ne].
Qed.

Lemma buffer_holds_from parse es w0 w (hist : nat → list N) :
  wf w0 → run parse es w0 = Some w →
  (∀ s, match heap w0 !! s with
        | Some se => Z.min (jslength (hist s)) REPLAY_BUFFER_SIZE ≤ jslength (buffer se)
                     ∧ (jslength (hist s) ≤ REPLAY_TRIM_THRESHOLD → buffer se = hist s)
        | None => hist s = []
        end) →
  ∀ s se, heap w !! s = Some se →
    let h := hist s ++ published s es in
    Z.min (jslength h) REPLAY_BUFFER_SIZE ≤ jslength (buffer se)
    ∧ (jslength h ≤ REPLAY_TRIM_THRESHOLD → buffer se = h).
Proof.
  revert w0 hist. induction es as [|e es IH]; intros w0 hist Hwf Hrun Hh s se Hs.
  - simpl in Hrun. simplify_eq. unfold published. simpl.
    rewrite (right_id_L [] (++)). specialize (Hh s). by rewrite Hs in Hh.
  - simpl in Hrun. destruct (enabled e w0) eqn:Hen; [|done].
    rewrite published_cons, (assoc_L (++)).
    apply (IH (handle parse e w0) (λ s, hist s ++ mjoin (chunks s [e]))); try done.
    { by apply wf_handle. }
    clear s se Hs. intros s. specialize (Hh s).
    pose proof (handle_buffer_exact parse e w0 s Hwf Hen) as Hb.
    destruct (heap (handle parse e w0) !! s) as [se'|].
    + destruct Hb as [(E0 & Eb & Ech)|[(se0 & E0 & Ech & Eb)|(se0 & d & E0 & Ech & Eb)]];
        rewrite E0 in Hh; rewrite Ech; simpl; rewrite ?(right_id_L [] (++)).
      * rewrite Hh, Eb. unfold jslength. simpl. split; [|done].
        destruct threshold_value as [_ ->]. lia.
      * by rewrite Eb.
      * destruct Hh as [Hmin Hall]. rewrite Eb.
        destruct threshold_value as [ET EB].
        destruct (buffer_onData_cases (buffer se0) d) as [[Hle ->]|(Hgt & _ & ->)].
        -- split.
           ++ revert Hmin. unfold jslength. rewrite !length_app. lia.
           ++ intros Hl. rewrite Hall; [done|].
              revert Hl. unfold jslength. rewrite !length_app. lia.
        -- split; [lia|]. intros Hl. exfalso.
           assert (buffer se0 = hist s) as Eh.
           { apply Hall. revert Hl. unfold jslength. rewrite !length_app. lia. }
           rewrite Eh in Hgt. lia.
    + destruct Hb as [E0 Ech]. rewrite E0 in Hh. by rewrite Hh, Ech.
Qed.

(** The end of a text is inside every long enough suffix of it. *)
Lemma slice_in_suffix (text b : list N) (n : Z) :
  0 < n → b `suffix_of` text → Z.min (jslength text) n ≤ jslength b →
  slice text (- n) `suffix_of` b.
Proof.
  intros Hn [k ->] Hlen. unfold slice. rewrite (proj2 (Z.ltb_lt (- n) 0)) by lia.
  revert Hlen. unfold jslength. rewrite length_app. intros Hlen.
  rewrite drop_app_ge by lia. apply suffix_drop.
Qed.

(** X10. What a session's replay buffer holds of its process's output:
    it is always the end of the output, in order and without gaps; as
    long as the process has printed no more than 98304 code units in all
    it is the whole output, and once the process has printed more it
    still ends with the last 65536 code units printed. *)
Theorem replay_buffer_keeps_recent_output parse es w s se :
  run parse es initial = Some w → heap w !! s = Some se →
  buffer se `suffix_of` published s es
  ∧ slice (published s es) (- REPLAY_BUFFER_SIZE) `suffix_of` buffer se
  ∧ Z.min (jslength (published s es)) REPLAY_BUFFER_SIZE ≤ jslength (buffer se)
  ∧ (jslength (published s es) ≤ REPLAY_TRIM_THRESHOLD → buffer se = published s es).
Proof.
  intros Hrun Hs.
  pose proof (buffer_history parse es w s se Hrun Hs) as Hsuf.
  destruct (buffer_holds_from parse es initial w (λ _, []) wf_initial Hrun) with s se
    as [Hmin Hall]; [|done|].
  { intros s'. simpl. by rewrite lookup_empty. }
  simpl in Hmin, Hall.
  split; [done|]. split; [|by split].
  apply slice_in_suffix; [|done|done]. destruct threshold_value as [_ ->]. lia.
Qed.

Lemma replay_buffer_keeps_recent_output_witness :
  of_ascii "hello"
  = published 0 [Connect 0; Message 0 (select_frame "/a");
                 IsDirectory 0 (of_ascii "/a") true (SpawnOk 4242);
                 Data 0 (of_ascii "hello")].
Proof.
  destruct (replay_buffer_keeps_recent_output parse_plain_cwd
              [Connect 0; Message 0 (select_frame "/a");
               IsDirectory 0 (of_ascii "/a") true (SpawnOk 4242);
               Data 0 (of_ascii "hello")]
              demo_hello 0%nat
              (mkSession (mkPty 4242 true [(0%nat, BufferOutput); (2%nat, ForwardOutput 0)]
                            [(1%nat, SessionExit); (3%nat, NotifyExit 0)] [])
                 (of_ascii "/a") (of_ascii "hello") true))
    as (_ & _ & _ & Hall); [vm_compute; reflexivity|vm_compute; reflexivity|].
  apply Hall. vm_compute. discriminate.
Defined.

(** ** What a frame from a client can reach *)

(** X11. Whatever a client sends, the handler of the frame sends no
    frame to anyone, leaves the registry, every other connection and
    every session's process state, buffer and liveness as they are,
    creates no session, and makes at most one call on a process: a write
    or a resize, never a kill, on the live session this connection is
    attached to. *)
Theorem client_frame_reaches_only_its_own_process parse c msg w :
  let w' := handle parse (Message c msg) w in
  sessions w' = sessions w ∧ next_session w' = next_session w
  ∧ (∀ c', conn_sent c' w' = conn_sent c' w)
  ∧ (∀ c', c' ≠ c → conns w' !! c' = conns w !! c')
  ∧ (∀ s, heap w !! s = None → heap w' !! s = None)
  ∧ ∀ s se, heap w !! s = Some se →
      ∃ se', heap w' !! s = Some se'
             ∧ pid (pty se') = pid (pty se) ∧ running (pty se') = running (pty se)
             ∧ cwd se' = cwd se ∧ buffer se' = buffer se ∧ alive se' = alive se
             ∧ (calls (pty se') = calls (pty se)
                ∨ ∃ call, calls (pty se') = calls (pty se) ++ [call] ∧ call ≠ PtyKill
                          ∧ conn_live_session c w = Some s).
Proof.
  cbn [handle]. destruct (on_message_registry parse c msg w) as [Es Ens].
  split; [done|]. split; [done|].
  split; [intros c'; apply on_message_sent|].
  split; [intros c' Hne; by apply on_message_other|].
  split; [intros s; apply on_message_absent|].
  intros s se. apply on_message_session.
Qed.

(** X12. The frames the message handler drops without any effect: the
    empty frame, a frame whose first code unit is none of the digits 0,
    1 and 2, a select frame whose payload does not parse to a cwd, and an
    input or resize frame on a connection that is attached to no live
    session. *)
Theorem malformed_frames_are_ignored parse c msg w :
  msg = []
  ∨ (∃ prefix payload, msg = prefix :: payload
                       ∧ prefix ≠ 48%N ∧ prefix ≠ 49%N ∧ prefix ≠ 50%N)
  ∨ (∃ payload, msg = 50%N :: payload ∧ parse payload = None)
  ∨ (∃ prefix payload, msg = prefix :: payload ∧ (prefix = 48%N ∨ prefix = 49%N)
                       ∧ conn_live_session c w = None) →
  handle parse (Message c msg) w = w.
Proof.
  intros [->|[(prefix & payload & -> & H0 & H1 & H2)
             |[(payload & -> & Hp)|(prefix & payload & -> & Hpre & Hl)]]]; cbn [handle].
  - done.
  - unfold on_message.
    by rewrite (proj2 (N.eqb_neq _ _) H0), (proj2 (N.eqb_neq _ _) H1),
      (proj2 (N.eqb_neq _ _) H2).
  - unfold on_message. simpl. by rewrite Hp.
  - unfold on_message. rewrite Hl. destruct Hpre as [-> | ->]; simpl; [done|].
    by repeat case_match.
Qed.

Lemma malformed_frames_are_ignored_witness :
  handle parse_plain_cwd (Message 0 (of_ascii "2{not json")) demo_hello = demo_hello
  ∧ handle parse_plain_cwd (Message 0 (of_ascii "9")) demo_hello = demo_hello.
Proof.
  split.
  - apply (malformed_frames_are_ignored parse_plain_cwd 0%nat (of_ascii "2{not json")
             demo_hello).
    right. right. left. exists (of_ascii "{not json"). split; vm_compute; reflexivity.
  - apply (malformed_frames_are_ignored parse_plain_cwd 0%nat (of_ascii "9") demo_hello).
    right. left. exists 57%N, []. split; [reflexivity|]. split_and!; discriminate.
Defined.

(** ** Callbacks that are never disposed *)

Lemma data_listeners_same_heap s w w' :
  heap w' = heap w → data_listeners s w' = data_listeners s w.
Proof. unfold data_listeners. by intros ->. Qed.

Lemma data_listeners_sendControl s c m w :
  data_listeners s (sendControl c m w) = data_listeners s w.
Proof. unfold sendControl. by destruct (conn_open c w). Qed.

(** [detach] of another connection leaves a connection's callbacks. *)
Lemma detach_keeps_others w c c' s x :
  wf w → c' ≠ c → x.2 = ForwardOutput c →
  x ∈ data_listeners s w → x ∈ data_listeners s (detach c' w).
Proof.
  intros Hwf Hne Hx Hin. destruct (conns w !! c') as [k'|] eqn:Hk'.
  - destruct (detach_listeners w c' k' Hwf Hk') as [-> _].
    apply list_elem_of_filter. split; [|done]. rewrite Hx. congruence.
  - unfold detach, conn_disposables. rewrite Hk'. done.
Qed.

Lemma subscribe_keeps w c' s' s x :
  x ∈ data_listeners s w → x ∈ data_listeners s (subscribe c' s' w).
Proof.
  unfold subscribe, data_listeners. simpl.
  destruct (decide (s' = s)) as [->|Hne].
  - rewrite !lookup_alter_eq. destruct (heap w !! s) as [se|]; simpl; [|done].
    intros Hin. apply elem_of_app. by left.
  - by rewrite !lookup_alter_ne.
Qed.

Lemma attach_keeps_others w c c' s' s x :
  wf w → c' ≠ c → x.2 = ForwardOutput c →
  x ∈ data_listeners s w → x ∈ data_listeners s (attach c' s' w).
Proof. intros. unfold attach. apply subscribe_keeps. by eapply detach_keeps_others. Qed.

Lemma resume_keeps_others w c c' key isdir sp s x :
  wf w → c' ≠ c → x.2 = ForwardOutput c →
  x ∈ data_listeners s w →
  x ∈ data_listeners s (selectProject_resume c' key isdir sp w).
Proof.
  intros Hwf Hne Hx Hin. unfold selectProject_resume. destruct isdir; cbn [negb];
    [|by rewrite data_listeners_sendControl].
  destruct (existing_alive key w) as [s0|] eqn:Hex.
  - rewrite data_listeners_sendControl.
    match goal with |- context [if ?b then _ else _] => destruct b end;
      [rewrite (data_listeners_same_heap _ (attach c' s0 w)) by done|];
      by eapply attach_keeps_others.
  - destruct sp as [p|err]; [|by rewrite data_listeners_sendControl].
    pose proof (wf_spawnSession key p w Hwf (existing_alive_None _ _ Hwf Hex)) as Hwf1.
    destruct (spawnSession key p w) as [s1 w1] eqn:Esp.
    rewrite data_listeners_sendControl. eapply attach_keeps_others; try done.
    unfold spawnSession in Esp. simpl in Esp. injection Esp as <- <-.
    revert Hin. unfold data_listeners. simpl.
    destruct (heap w !! s) as [se|] eqn:Hs; [|by intros ?%elem_of_nil].
    rewrite lookup_insert_ne; [by rewrite Hs|].
    intros <-. by rewrite (wf_fresh_session _ Hwf) in Hs.
Qed.

Lemma resume_pending c key isdir sp w :
  pending (selectProject_resume c key isdir sp w) = pending w.
Proof.
  unfold selectProject_resume. destruct isdir; cbn [negb]; [|apply sendControl_pending].
  destruct (existing_alive key w) as [s0|].
  - rewrite sendControl_pending.
    destruct (attach_frame c s0 w) as (_ & Hp & _).
    by match goal with |- context [if ?b then _ else _] => destruct b end.
  - destruct sp as [p|err]; [|apply sendControl_pending].
    destruct (spawnSession key p w) as [s1 w1] eqn:Esp.
    unfold spawnSession in Esp. simpl in Esp. injection Esp as <- <-.
    rewrite sendControl_pending.
    match goal with |- pending (attach c ?s ?w0) = _ =>
      by destruct (attach_frame c s w0) as (_ & -> & _)
    end.
Qed.

(** One handler run, seen from a connection whose socket has closed and
    that has no select waiting. *)
Lemma closed_conn_step parse e w c k s x :
  wf w → enabled e w = true →
  conns w !! c = Some k → readyOpen k = false → (∀ key, (c, key) ∉ pending w) →
  x.2 = ForwardOutput c → x ∈ data_listeners s w →
  x ∈ data_listeners s (handle parse e w)
  ∧ ∀ key, (c, key) ∉ pending (handle parse e w).
Proof.
  intros Hwf Hen Hk Ho Hpend Hx Hin.
  assert (∀ c', conn_open c' w = true → c' ≠ c) as Hopen.
  { intros c' Hc' ->. unfold conn_open in Hc'. rewrite Hk in Hc'. congruence. }
  destruct e as [c'|c' msg|c' key' isdir sp|c'|s' data|s' code]; cbn [handle].
  - unfold handleConnection. rewrite data_listeners_sendControl.
    split; [done|]. intros key. rewrite sendControl_pending. apply Hpend.
  - simpl in Hen. pose proof (Hopen _ Hen) as Hne.
    unfold on_message. destruct msg as [|prefix payload]; [done|].
    repeat case_match; try done.
    + split; [|done]. revert Hin. unfold data_listeners. simpl.
      rewrite lookup_alter. case_decide; [subst|done].
      by destruct (heap w !! s).
    + split; [|done]. revert Hin. unfold data_listeners. simpl.
      rewrite lookup_alter. case_decide; [subst|done].
      by destruct (heap w !! s).
    + unfold selectProject_call, with_pending. split.
      * rewrite (data_listeners_same_heap _ (detach c' w)) by done.
        by eapply detach_keeps_others.
      * intros key. cbn [pending]. destruct (detach_frame c' w) as (_ & -> & _).
        rewrite elem_of_app, list_elem_of_singleton.
        intros [?|[= ? ?]]; [by eapply Hpend|]. congruence.
  - simpl in Hen. apply bool_decide_eq_true in Hen.
    assert (c' ≠ c) as Hne by (intros ->; by eapply Hpend).
    split.
    + apply (resume_keeps_others _ c); try done.
      apply wf_with_pending; [|done]. intros y Hy. left. by eapply remove_first_sub.
    + intros key. rewrite resume_pending. simpl.
      intros Hy%remove_first_sub. by eapply Hpend.
  - simpl in Hen. pose proof (Hopen _ Hen) as Hne.
    apply conn_open_true in Hen as (k' & Hk' & _). unfold on_close. split.
    + apply (detach_keeps_others _ c); try done.
      eapply wf_world_sim; [|done]. apply world_sim_upd_conn. intros. by split.
    + intros key. destruct (detach_frame c' (upd_conn c' (with_readyOpen false) w))
        as (_ & -> & _). apply Hpend.
  - simpl in Hen. unfold pty_running in Hen.
    destruct (heap w !! s') as [se'|] eqn:Hs'; [|done].
    destruct (fire_data_spec s' se' data w Hwf Hs') as (_ & E2 & E3 & _).
    split; [|intros key; rewrite E3; apply Hpend].
    revert Hin. unfold data_listeners. rewrite E2, lookup_alter.
    case_decide; [subst|done]. by rewrite Hs'.
  - simpl in Hen. unfold pty_running in Hen.
    destruct (heap w !! s') as [se'|] eqn:Hs'; [|done].
    destruct (fire_exit_spec s' se' code w Hwf Hs') as (_ & E2 & E3 & _).
    split; [|intros key; rewrite E3; apply Hpend].
    revert Hin. unfold data_listeners. rewrite E2.
    destruct (decide (s' = s)) as [->|Hne]; [|by rewrite !lookup_alter_ne].
    rewrite !lookup_alter_eq, Hs'. done.
Qed.

(** X25. Callbacks of a dead connection are never disposed: when a
    connection's socket has closed, no select of it is waiting and it
    still has an output callback registered on a session (as after a
    select that resumed after the close), that callback stays registered
    in every continuation, and the connection is sent nothing. *)
Theorem closed_connection_stays_subscribed parse es w w' c k s i :
  reachable parse w →
  conns w !! c = Some k → readyOpen k = false → (∀ key, (c, key) ∉ pending w) →
  (i, ForwardOutput c) ∈ data_listeners s w →
  run parse es w = Some w' →
  (i, ForwardOutput c) ∈ data_listeners s w'
  ∧ conn_sent c w' = sent k ∧ conn_open c w' = false.
Proof.
  intros Hr Hk Ho Hpend Hin Hrun. pose proof (wf_reachable _ _ Hr) as Hwf. clear Hr.
  split.
  - revert w k Hwf Hk Ho Hpend Hin Hrun.
    induction es as [|e es IH]; intros w k Hwf Hk Ho Hpend Hin Hrun; simpl in Hrun.
    + by simplify_eq.
    + destruct (enabled e w) eqn:Hen; [|done].
      destruct (closed_conn_step parse e w c k s (i, ForwardOutput c) Hwf Hen Hk Ho Hpend
                  eq_refl Hin) as [Hin1 Hpend1].
      destruct (conns_kept_handle parse e w Hen c k Hk) as (k1 & Hk1 & _ & Hc1).
      destruct (Hc1 Ho) as [_ Ho1].
      by apply (IH (handle parse e w) k1 (wf_handle _ _ _ Hwf Hen) Hk1 Ho1 Hpend1 Hin1).
  - destruct (conns_kept_run parse es w w' Hrun c k Hk) as (k' & Hk' & _ & Hc).
    destruct (Hc Ho) as [Hs Ho']. unfold conn_sent, conn_open. by rewrite Hk', Hs, Ho'.
Qed.

Lemma closed_connection_stays_subscribed_witness :
  let w := exec [Connect 0; Message 0 (select_frame "/a"); Close 0;
                 IsDirectory 0 (of_ascii "/a") true (SpawnOk 5)] initial in
  (2%nat, ForwardOutput 0)
  ∈ data_listeners 0 (exec [Data 0 (of_ascii "x"); Connect 1;
                            Message 1 (select_frame "/a");
                            IsDirectory 1 (of_ascii "/a") true (SpawnOk 6);
                            Exit 0 0] w).
Proof.
  cbv zeta.
  match goal with |- _ ∈ data_listeners _ (exec ?es ?w) =>
    destruct (closed_connection_stays_subscribed parse_plain_cwd es w (exec es w)
                0%nat (mkConn (Some 0%nat) [DisposeData 0 2; DisposeExit 0 3] false
                         [Ctl Ready]) 0%nat 2%nat) as (Hin & _)
  end.
  - exists [Connect 0; Message 0 (select_frame "/a"); Close 0;
            IsDirectory 0 (of_ascii "/a") true (SpawnOk 5)].
    apply run_steps. vm_compute. reflexivity.
  - vm_compute. reflexivity.
  - reflexivity.
  - intros key Hin. vm_compute in Hin. by apply elem_of_nil in Hin.
  - apply list_elem_of_In. vm_compute. auto.
  - vm_compute. reflexivity.
  - exact Hin.
Defined.

(** ** The environment of the spawned process *)

(** X13. The environment [spawnSession] hands to the process: CLAUDECODE
    and CLAUDE_CODE_SESSION are never in it, and neither is a variable
    named __proto__; TERM always is, with a non-empty value, the server's
    own when that is set and non-empty and xterm-256color otherwise;
    every other variable of the server with a defined value is passed on
    unchanged, and nothing else is added. *)
Theorem spawn_env_spec (process_env : gmap (list N) (option (list N))) :
  let env := spawn_env process_env in
  env !! of_ascii "CLAUDECODE" = None
  ∧ env !! of_ascii "CLAUDE_CODE_SESSION" = None
  ∧ env !! of_ascii "__proto__" = None
  ∧ (∃ t, env !! of_ascii "TERM" = Some t ∧ t ≠ []
          ∧ (∀ t0, process_env !! of_ascii "TERM" = Some (Some t0) → t0 ≠ [] → t = t0)
          ∧ (process_env !! of_ascii "TERM" = None
             ∨ process_env !! of_ascii "TERM" = Some None
             ∨ process_env !! of_ascii "TERM" = Some (Some []) → t = TERM_DEFAULT))
  ∧ ∀ k, k ∉ [of_ascii "TERM"; of_ascii "CLAUDECODE"; of_ascii "CLAUDE_CODE_SESSION";
              of_ascii "__proto__"] →
         env !! k = process_env !! k ≫= id.
Proof.
  unfold spawn_env.
  assert (of_ascii "CLAUDE_CODE_SESSION" ≠ of_ascii "CLAUDECODE") as N1 by (by vm_compute).
  assert (of_ascii "CLAUDE_CODE_SESSION" ≠ of_ascii "TERM") as N2 by (by vm_compute).
  assert (of_ascii "CLAUDECODE" ≠ of_ascii "TERM") as N3 by (by vm_compute).
  assert (of_ascii "__proto__" ≠ of_ascii "TERM") as N4 by (by vm_compute).
  assert (of_ascii "CLAUDE_CODE_SESSION" ≠ of_ascii "__proto__") as N5 by (by vm_compute).
  assert (of_ascii "CLAUDECODE" ≠ of_ascii "__proto__") as N6 by (by vm_compute).
  cbv zeta. split_and!.
  - rewrite lookup_delete_ne by done. by rewrite lookup_delete_eq.
  - by rewrite lookup_delete_eq.
  - rewrite !lookup_delete_ne, lookup_insert_ne by done. by rewrite lookup_delete_eq.
  - rewrite !lookup_delete_ne, lookup_insert_eq by done.
    rewrite lookup_omap.
    eexists. split; [done|].
    destruct (process_env !! of_ascii "TERM") as [[t0|]|] eqn:E; simpl.
    + case_bool_decide as Ht.
      * split; [done|]. split; [by intros ? [= <-]|]. intros [?|[?|[= ->]]]; done.
      * split; [by vm_compute|]. split; [|done].
        intros ? [= <-] ?. done.
    + split; [by vm_compute|]. split; [done|done].
    + split; [by vm_compute|]. split; [done|done].
  - intros k Hk. rewrite !elem_of_cons, elem_of_nil in Hk.
    rewrite !lookup_delete_ne, lookup_insert_ne by naive_solver.
    rewrite lookup_delete_ne, lookup_omap by naive_solver. done.
Qed.

(** ** The list of recent projects *)

Lemma take_prefix_of {A} (n : nat) (l : list A) : take n l `prefix_of` l.
Proof. exists (drop n l). by rewrite take_drop. Qed.

Lemma NoDup_take {A} (n : nat) (l : list A) : NoDup l → NoDup (take n l).
Proof. intros Hnd. apply (sublist_NoDup _ l Hnd), sublist_take. Qed.

Lemma NoDup_filter_ne (cwd : list N) (l : list (list N)) :
  NoDup l → NoDup (filter (λ p, p ≠ cwd) l).
Proof. intros Hnd. apply (sublist_NoDup _ l Hnd), sublist_filter. Qed.

Lemma not_in_filtered (cwd : list N) (n : nat) (l : list (list N)) :
  cwd ∉ take n (filter (λ p, p ≠ cwd) l).
Proof.
  intros Hin%elem_of_take. destruct Hin as (i & Hin & _).
  apply list_elem_of_lookup_2, list_elem_of_filter in Hin. by destruct Hin.
Qed.

Lemma NoDup_addProject cwd file :
  NoDup (loadProjects file) → NoDup (loadProjects (addProject cwd file)).
Proof.
  intros Hnd. unfold addProject. cbn [loadProjects]. simpl. apply NoDup_cons.
  split; [apply not_in_filtered|]. by apply NoDup_take, NoDup_filter_ne.
Qed.

(** X14. [addProject(cwd)] keeps a most-recently-used list: afterwards
    the file holds cwd first and only once, at most 20 entries, and
    behind cwd the other entries of the old list in their old order, cut
    at the end; a list without duplicates stays without; nothing is
    dropped from a list of fewer than 20 entries; and adding the same cwd
    again changes nothing.  An unreadable file counts as the empty list. *)
Theorem addProject_most_recent_first (cwd : list N) (file : option (list (list N))) :
  ∃ rest, addProject cwd file = Some (cwd :: rest)
          ∧ (length (cwd :: rest) ≤ 20)%nat
          ∧ cwd ∉ rest
          ∧ rest `prefix_of` filter (λ p, p ≠ cwd) (loadProjects file)
          ∧ ((length (loadProjects file) < 20)%nat →
             ∀ p, p ∈ loadProjects file → p ∈ cwd :: rest)
          ∧ (NoDup (loadProjects file) → NoDup (cwd :: rest))
          ∧ addProject cwd (addProject cwd file) = addProject cwd file.
Proof.
  unfold addProject. generalize (loadProjects file). intros projects.
  exists (take 19 (filter (λ p, p ≠ cwd) projects)).
  pose proof (not_in_filtered cwd 19 projects) as Hni.
  split_and!.
  - done.
  - simpl. rewrite length_take. lia.
  - done.
  - apply take_prefix_of.
  - intros Hlen p Hp. destruct (decide (p = cwd)) as [->|Hne]; [by left|]. right.
    rewrite take_ge.
    + by apply list_elem_of_filter.
    + pose proof (length_filter (λ p, p ≠ cwd) projects). lia.
  - intros Hnd. apply NoDup_cons. split; [done|]. by apply NoDup_take, NoDup_filter_ne.
  - simpl. rewrite filter_cons, decide_False by (by intros ?).
    rewrite (filter_all _ (take 19 _)).
    + rewrite (take_ge (take 19 _)); [done|]. rewrite length_take. lia.
    + intros x Hx ->. done.
Qed.


(** X15. From a projects file that is missing, or that holds at most 20
    entries without duplicates, every sequence of POST and DELETE
    requests leaves a file of at most 20 entries without duplicates. *)
Theorem project_list_stays_short_and_duplicate_free
    (requests : list ProjectRequest) (file : option (list (list N))) :
  NoDup (loadProjects file) → (length (loadProjects file) ≤ 20)%nat →
  let file' := foldl serve file requests in
  NoDup (loadProjects file') ∧ (length (loadProjects file') ≤ 20)%nat.
Proof.
  revert file. induction requests as [|r requests IH]; intros file Hnd Hlen; [done|].
  simpl. apply IH.
  - destruct r as [newCwd|delCwd]; simpl.
    + by apply NoDup_addProject.
    + by apply NoDup_filter_ne.
  - destruct r as [newCwd|delCwd]; simpl.
    + rewrite length_take. lia.
    + pose proof (length_filter (λ p, p ≠ delCwd) (loadProjects file)). lia.
Qed.

Lemma project_list_stays_short_and_duplicate_free_witness :
  loadProjects (foldl serve None [POST (of_ascii "/a"); POST (of_ascii "/b");
                                  POST (of_ascii "/a"); DELETE (of_ascii "/b")])
  = [of_ascii "/a"]
  ∧ NoDup [of_ascii "/a"].
Proof.
  destruct (project_list_stays_short_and_duplicate_free
              [POST (of_ascii "/a"); POST (of_ascii "/b");
               POST (of_ascii "/a"); DELETE (of_ascii "/b")] None)
    as [Hnd _]; [apply NoDup_nil_2|simpl; lia|].
  split; [vm_compute; reflexivity|]. exact Hnd.
Defined.

(** X16. The DELETE handler removes every occurrence of the cwd and
    nothing else, keeping the order; and deleting a project right after
    adding it gives back the old list without that project, cut to 19
    entries, hence the old list itself when that was shorter than 20 and
    did not hold the project. *)
Theorem deleteProject_undoes_addProject (cwd : list N) (file : option (list (list N))) :
  ∃ l, deleteProject cwd file = Some l
       ∧ cwd ∉ l
       ∧ (∀ p, p ≠ cwd → p ∈ l ↔ p ∈ loadProjects file)
       ∧ l `sublist_of` loadProjects file
       ∧ deleteProject cwd (addProject cwd file) = Some (take 19 l)
       ∧ (cwd ∉ loadProjects file → (length (loadProjects file) < 20)%nat →
          deleteProject cwd (addProject cwd file) = Some (loadProjects file)).
Proof.
  unfold deleteProject, addProject. generalize (loadProjects file). intros projects.
  eexists. split; [done|].
  assert (filter (λ p, p ≠ cwd) (take 20 (cwd :: filter (λ p, p ≠ cwd) projects))
          = take 19 (filter (λ p, p ≠ cwd) projects)) as E.
  { simpl. rewrite filter_cons, decide_False by (by intros ?).
    apply filter_all. intros x Hx%elem_of_take. destruct Hx as (i & Hx & _).
    apply list_elem_of_lookup_2, list_elem_of_filter in Hx. by destruct Hx. }
  split_and!.
  - intros Hin%list_elem_of_filter. by destruct Hin.
  - intros p Hne. rewrite list_elem_of_filter. naive_solver.
  - apply sublist_filter.
  - cbn [loadProjects]. by rewrite E.
  - intros Hni Hlen. cbn [loadProjects]. rewrite E.
    rewrite (filter_all _ projects) by (by intros x Hx ->).
    rewrite take_ge by lia. done.
Qed.

(** ** The two ends of the protocol *)


Lemma digits_prefix_digits (l r : list N) :
  Forall (λ c, 48 ≤ c ≤ 57)%N l →
  digits_prefix (l ++ r) = map (λ c, Z.of_N c - 48) l ++ digits_prefix r.
Proof.
  induction 1 as [|c l Hc _ IH]; [done|]. simpl. unfold digit_value.
  destruct ((48 <=? c) && (c <=? 57))%N eqn:E.
  - by rewrite IH.
  - apply andb_false_iff in E as [E%N.leb_gt|E%N.leb_gt]; lia.
Qed.

Lemma one_digit_spec (n : N) :
  (n < 10)%N →
  [(48 + n)%N] ≠ []
  ∧ Forall (λ c, 48 ≤ c ≤ 57)%N [(48 + n)%N]
  ∧ digits_to_Z (digits_prefix [(48 + n)%N]) = Z.of_N n.
Proof.
  intros Hlt. split; [done|]. split; [constructor; [lia|constructor]|].
  simpl. unfold digit_value.
  destruct ((48 <=? 48 + n) && (48 + n <=? 57))%N eqn:E.
  - unfold digits_to_Z. simpl. lia.
  - apply andb_false_iff in E as [E%N.leb_gt|E%N.leb_gt]; lia.
Qed.

Lemma decimal_digits_spec fuel n :
  (n < 10 ^ N.of_nat (S fuel))%N →
  decimal_digits (S fuel) n ≠ []
  ∧ Forall (λ c, 48 ≤ c ≤ 57)%N (decimal_digits (S fuel) n)
  ∧ digits_to_Z (digits_prefix (decimal_digits (S fuel) n)) = Z.of_N n.
Proof.
  revert n. induction fuel as [|fuel IH]; intros n Hn.
  { change (10 ^ N.of_nat 1)%N with 10%N in Hn.
    cbn [decimal_digits]. rewrite (proj2 (N.ltb_lt _ _) Hn). by apply one_digit_spec. }
  change (decimal_digits (S (S fuel)) n)
    with (if (n <? 10)%N then [(48 + n)%N]
          else decimal_digits (S fuel) (n / 10)%N ++ [(48 + n mod 10)%N]).
  destruct (N.ltb_spec n 10) as [Hlt|Hge].
  - by apply one_digit_spec.
  - assert (n / 10 < 10 ^ N.of_nat (S fuel))%N as Hdiv.
    { apply N.div_lt_upper_bound; [lia|].
      by rewrite (Nat2N.inj_succ (S fuel)), N.pow_succ_r' in Hn. }
    destruct (IH (n / 10)%N Hdiv) as (Hne & Hall & Hval).
    assert (n mod 10 < 10)%N as Hmod by (apply N.mod_lt; lia).
    pose proof (N.div_mod n 10) as Hdm. clear Hdiv Hn IH.
    generalize dependent (n mod 10)%N. intros m Hmod Hdm.
    generalize dependent (n / 10)%N. intros q Hne Hall Hval Hdm.
    split; [by destruct (decimal_digits (S fuel) q)|].
    split.
    + apply Forall_app. split; [done|]. constructor; [cbv beta; lia|constructor].
    + rewrite (digits_prefix_digits _ _ Hall). simpl digits_prefix. unfold digit_value.
      destruct ((48 <=? 48 + m) && (48 + m <=? 57))%N eqn:E.
      2:{ apply andb_false_iff in E as [E%N.leb_gt|E%N.leb_gt]; lia. }
      rewrite <- (app_nil_r (decimal_digits (S fuel) q)) in Hval.
      rewrite (digits_prefix_digits _ _ Hall) in Hval. simpl in Hval.
      rewrite app_nil_r in Hval.
      unfold digits_to_Z in *. rewrite foldl_app. simpl. rewrite Hval.
      lia.
Qed.

Lemma number_to_string_decimal n :
  (n < 2 ^ 53)%N →
  ∃ text, number_to_string n = Some text
          ∧ decimal_field text = Some (Z.of_N n) ∧ 44%N ∉ text.
Proof.
  intros Hn. unfold number_to_string. rewrite (proj2 (N.ltb_lt _ _) Hn).
  assert (2 ^ 53 < 10 ^ N.of_nat 16)%N as Hb by (vm_compute; reflexivity).
  destruct (decimal_digits_spec 15 n) as (Hne & Hall & Hval); [by etrans|].
  eexists. split; [done|]. split.
  - unfold decimal_field. rewrite bool_decide_eq_true_2 by done.
    assert (forallb (λ c, bool_decide (is_Some (digit_value c)))
              (decimal_digits 16 n) = true) as ->.
    { apply forallb_forall. intros c Hc.
      apply bool_decide_eq_true. apply list_elem_of_In in Hc.
      eapply Forall_forall in Hall; [|done]. unfold digit_value.
      destruct ((48 <=? c) && (c <=? 57))%N eqn:E; [by eexists|].
      apply andb_false_iff in E as [E%N.leb_gt|E%N.leb_gt]; lia. }
    cbn [andb]. by rewrite Hval.
  - intros Hin. eapply Forall_forall in Hall; [|done]. simpl in Hall. lia.
Qed.

(** X18. The resize frame of the client, read by the server.  For a
    terminal of cols by rows cells, both integers below 2^53 (so that
    they are doubles which the client prints with all their digits and
    which the server's [parseInt] reads back exactly), and a connection
    attached to a live session: [sendResize] makes the server resize the
    process to exactly cols by rows when both are positive, and the
    frame is dropped when one of them is 0. *)
Theorem client_resize_reaches_the_process parse c w s (cols rows : N) :
  conn_live_session c w = Some s → (cols < 2 ^ 53)%N → (rows < 2 ^ 53)%N →
  ∃ frame, sendResize cols rows = Some frame
           ∧ handle parse (Message c frame) w
             = if ((0 <? cols) && (0 <? rows))%N
               then upd_session s
                      (with_pty (pty_call (PtyResize (Num (Z.of_N cols))
                                                    (Num (Z.of_N rows))))) w
               else w.
Proof.
  intros Hlive Hcols Hrows.
  destruct (number_to_string_decimal cols Hcols) as (tc & Etc & Hc & Hcc).
  destruct (number_to_string_decimal rows Hrows) as (tr & Etr & Hr & Hrc).
  unfold sendResize. rewrite Etc, Etr. eexists. split; [done|].
  cbn [handle]. unfold on_message. cbn [N.eqb Pos.eqb]. rewrite Hlive.
  rewrite (split_comma_first _ _ Hcc), (split_comma_free _ Hrc).
  cbn [lookup list_lookup parseInt10_arg].
  rewrite <- (app_nil_r tc), (parseInt10_decimal _ _ [] Hc) by done.
  rewrite <- (app_nil_r tr), (parseInt10_decimal _ _ [] Hr) by done.
  assert (∀ n : N, (n < 2 ^ 53)%N → Z.abs (Z.of_N n) < 2 ^ 53) as Hsafe.
  { intros n Hn. change (2 ^ 53)%N with 9007199254740992%N in Hn.
    change (2 ^ 53) with 9007199254740992. lia. }
  rewrite !number_of_Z_exact by (by apply Hsafe).
  by destruct cols, rows.
Qed.

Lemma client_resize_reaches_the_process_witness :
  sendResize 120 40 = Some (of_ascii "1120,40")
  ∧ session_calls 0 (handle parse_plain_cwd (Message 0 (of_ascii "1120,40")) demo_hello)
    = [PtyResize (Num 120) (Num 40)].
Proof.
  destruct (client_resize_reaches_the_process parse_plain_cwd 0%nat demo_hello 0%nat 120 40)
    as (frame & Hframe & Hhandle);
    [vm_compute; reflexivity|vm_compute; reflexivity|vm_compute; reflexivity|].
  assert (frame = of_ascii "1120,40") as ->
    by (apply (inj Some); rewrite <- Hframe; vm_compute; reflexivity).
  split; [exact Hframe|]. rewrite Hhandle. vm_compute. reflexivity.
Defined.

(** ** Text put into the page *)

Lemma replace_char_app c b x y :
  replace_char c b (x ++ y) = replace_char c b x ++ replace_char c b y.
Proof. unfold replace_char. apply flat_map_app. Qed.

Lemma esc_cons c s : esc (c :: s) = esc_char c ++ esc s.
Proof.
  unfold esc. change (c :: s) with ([c] ++ s). rewrite !replace_char_app. f_equal.
  unfold esc_char.
  destruct (N.eqb_spec c 38) as [->|H38]; [done|].
  destruct (N.eqb_spec c 60) as [->|H60]; [done|].
  destruct (N.eqb_spec c 62) as [->|H62]; [done|].
  unfold replace_char. simpl.
  rewrite (proj2 (N.eqb_neq c 38)) by done. simpl.
  rewrite (proj2 (N.eqb_neq c 60)) by done. simpl.
  by rewrite (proj2 (N.eqb_neq c 62)).
Qed.

Lemma esc_char_cases c :
  (c = 38%N ∧ esc_char c = [38; 97; 109; 112; 59]%N)
  ∨ (c = 60%N ∧ esc_char c = [38; 108; 116; 59]%N)
  ∨ (c = 62%N ∧ esc_char c = [38; 103; 116; 59]%N)
  ∨ (c ≠ 38%N ∧ c ≠ 60%N ∧ c ≠ 62%N ∧ esc_char c = [c]).
Proof.
  unfold esc_char.
  destruct (N.eqb_spec c 38) as [->|H38]; [by left|].
  destruct (N.eqb_spec c 60) as [->|H60]; [by right; left|].
  destruct (N.eqb_spec c 62) as [->|H62]; [by right; right; left|].
  by right; right; right.
Qed.

(** X19. [esc] works character by character although it is written as
    three passes: an ampersand, a less-than and a greater-than sign are
    replaced by their entities and nothing else is touched, the
    ampersands of the entities it puts are not escaped again.  Its result
    holds no less-than and no greater-than sign, and different texts have
    different results. *)
Theorem esc_escapes_each_character_once (s : list N) :
  esc s = flat_map esc_char s
  ∧ 60%N ∉ esc s ∧ 62%N ∉ esc s
  ∧ ∀ s', esc s = esc s' → s = s'.
Proof.
  split_and!.
  - induction s as [|c s IH]; [done|]. rewrite esc_cons, IH. done.
  - induction s as [|c s IH]; [by apply not_elem_of_nil|]. rewrite esc_cons.
    rewrite elem_of_app. intros [Hin|Hin]; [|done].
    destruct (esc_char_cases c) as [[_ E]|[[_ E]|[[_ E]|(_ & ? & _ & E)]]];
      rewrite E in Hin; rewrite ?elem_of_cons, elem_of_nil in Hin; naive_solver.
  - induction s as [|c s IH]; [by apply not_elem_of_nil|]. rewrite esc_cons.
    rewrite elem_of_app. intros [Hin|Hin]; [|done].
    destruct (esc_char_cases c) as [[_ E]|[[_ E]|[[_ E]|(_ & _ & ? & E)]]];
      rewrite E in Hin; rewrite ?elem_of_cons, elem_of_nil in Hin; naive_solver.
  - induction s as [|c s IH]; intros [|c' s'].
    + done.
    + rewrite esc_cons.
      destruct (esc_char_cases c') as [[_ ->]|[[_ ->]|[[_ ->]|(_ & _ & _ & ->)]]]; done.
    + rewrite esc_cons.
      destruct (esc_char_cases c) as [[_ ->]|[[_ ->]|[[_ ->]|(_ & _ & _ & ->)]]]; done.
    + rewrite !esc_cons.
      destruct (esc_char_cases c) as [[-> ->]|[[-> ->]|[[-> ->]|(? & ? & ? & ->)]]];
        destruct (esc_char_cases c') as [[-> ->]|[[-> ->]|[[-> ->]|(? & ? & ? & ->)]]];
        simpl; intros Heq; simplify_eq; f_equal; by apply IH.
Qed.

(** ** The name shown for a project *)

Lemma split_slash_last s :
  ∃ name, last (split_slash s) = Some name ∧ 47%N ∉ name
          ∧ (s = name ∨ ∃ dir, s = dir ++ 47%N :: name).
Proof.
  induction s as [|c s (name & Hlast & Hfree & Hs)]; simpl.
  - exists []. split; [done|]. split; [apply not_elem_of_nil|by left].
  - destruct (N.eqb_spec c 47) as [->|Hne].
    + exists name. split.
      { destruct (split_slash s); [done|]. exact Hlast. }
      split; [done|]. right. destruct Hs as [->|[dir ->]].
      * by exists [].
      * by exists (47%N :: dir).
    + destruct (split_slash s) as [|p ps] eqn:E; [done|].
      destruct ps as [|p' ps].
      * simpl in Hlast. simplify_eq. exists (c :: name).
        split; [done|]. split.
        { rewrite not_elem_of_cons. by split. }
        destruct Hs as [->|[dir ->]]; [by left|].
        exfalso. clear -E.
        assert (∀ y, 1 ≤ length (split_slash y))%nat as Hpos.
        { clear. induction y as [|a y IH]; simpl; [lia|].
          destruct (a =? 47)%N; [simpl; lia|].
          destruct (split_slash y); simpl in *; lia. }
        assert (∀ x y, 2 ≤ length (split_slash (x ++ 47%N :: y)))%nat as Hlen.
        { clear -Hpos. intros x y. induction x as [|a x IH]; simpl.
          - specialize (Hpos y). lia.
          - destruct (a =? 47)%N; [simpl; lia|].
            destruct (split_slash (x ++ _)) as [|? [|? ?]]; simpl in *; lia. }
        specialize (Hlen dir name). rewrite E in Hlen. simpl in Hlen. lia.
      * exists name. split; [exact Hlast|]. split; [done|]. right.
        destruct Hs as [->|[dir ->]].
        -- exfalso. clear -E Hfree.
           assert (∀ x, 47%N ∉ x → split_slash x = [x]) as Hone.
           { clear. induction x as [|a x IH]; [done|]. intros Hx. simpl.
             destruct (N.eqb_spec a 47) as [->|_]; [destruct Hx; by left|].
             rewrite IH; [done|]. intros ?. apply Hx. by right. }
           rewrite (Hone _ Hfree) in E. done.
        -- by exists (c :: dir).
Qed.

(** X20. The name the client shows for a project, the last segment of
    its path: it is never empty for a non-empty path; either it holds no
    slash and the path is the name itself or ends with a slash followed
    by the name, or the path is empty or ends with a slash and the whole
    path is shown. *)
Theorem project_name_is_the_last_segment (cwd : list N) :
  (cwd ≠ [] → project_name cwd ≠ [])
  ∧ ((47%N ∉ project_name cwd ∧ project_name cwd ≠ []
      ∧ (cwd = project_name cwd ∨ ∃ dir, cwd = dir ++ 47%N :: project_name cwd))
     ∨ (project_name cwd = cwd ∧ (cwd = [] ∨ ∃ dir, cwd = dir ++ [47%N]))).
Proof.
  unfold project_name.
  destruct (split_slash_last cwd) as (name & -> & Hfree & Hs).
  case_bool_decide as Hname.
  - split; [done|]. left. by split_and!.
  - assert (name = []) as -> by (by destruct name). split; [done|]. right.
    split; [done|]. destruct Hs as [->|[dir ->]]; [by left|right; by exists dir].
Qed.

(** * The PTY manager with one process per connection *)

Lemma solo_inv_same (st st' : Solo.State) :
  Solo.activePty st' = Solo.activePty st → Solo.activeId st' = Solo.activeId st →
  Solo.procs st' = Solo.procs st → Solo.readyOpen st' = Solo.readyOpen st →
  Solo.inv st → Solo.inv st'.
Proof.
  intros E1 E2 E3 E4 [I1 I2 I3 I4 I5].
  split; rewrite ?E1, ?E2, ?E3, ?E4; done.
Qed.

Lemma solo_inv_sendControl m st : Solo.inv st → Solo.inv (Solo.sendControl m st).
Proof.
  unfold Solo.sendControl. destruct (Solo.readyOpen st); [|done].
  by apply (solo_inv_same st).
Qed.

Lemma solo_inv_initial : Solo.inv Solo.handleConnection.
Proof. split; simpl; intros; by simplify_map_eq. Qed.

(** After [killActive] every process is out of use. *)
Lemma solo_killActive_spec st :
  Solo.inv st →
  let st1 := Solo.killActive st in
  Solo.activePty st1 = None
  ∧ Solo.activeId st1 = Solo.activeId st
  ∧ Solo.readyOpen st1 = Solo.readyOpen st
  ∧ Solo.sent st1 = Solo.sent st
  ∧ Solo.pending st1 = Solo.pending st
  ∧ (∀ id, Solo.procs st1 !! id
           = (if decide (Solo.activePty st = Some id) then Solo.pty_call PtyKill
              else λ pr, pr) <$> Solo.procs st !! id)
  ∧ ∀ id pr, Solo.procs st1 !! id = Some pr →
      Solo.stopped pr ∧ (1 ≤ id ≤ Solo.activeId st)%nat
      ∧ (PtyKill ∈ Solo.calls pr → last (Solo.calls pr) = Some PtyKill).
Proof.
  intros [I1 I2 I3 I4 I5]. unfold Solo.killActive.
  destruct (Solo.activePty st) as [p|] eqn:Ea; simpl.
  - split_and!; try done.
    + intros id. case_decide; simplify_eq.
      * by rewrite lookup_alter_eq.
      * rewrite lookup_alter_ne by congruence. by destruct (Solo.procs st !! id).
    + intros id pr Hpr. destruct (decide (p = id)) as [->|Hne].
      * rewrite lookup_alter_eq in Hpr.
        destruct (Solo.procs st !! id) as [pr0|] eqn:E0; simplify_eq/=.
        split; [right; apply elem_of_app; right; by left|].
        split; [by eapply I2|]. intros _. by rewrite last_snoc.
      * rewrite lookup_alter_ne in Hpr by done.
        split; [apply (I3 _ _ Hpr); congruence|].
        split; [by eapply I2|]. by eapply I5.
  - split_and!; try done.
    + intros id. by destruct (Solo.procs st !! id).
    + intros id pr Hpr. split; [by apply (I3 _ _ Hpr)|].
      split; [by eapply I2|]. by eapply I5.
Qed.

Lemma solo_inv_on_message parse msg st :
  Solo.inv st → Solo.inv (Solo.on_message parse msg st).
Proof.
  intros Hinv.
  assert (∀ p call, Solo.activePty st = Some p → call ≠ PtyKill →
            Solo.inv (Solo.with_procs (alter (Solo.pty_call call) p) st)) as Hcall.
  { intros p call Hp Hcall. destruct Hinv as [I1 I2 I3 I4 I5].
    destruct (I1 _ Hp) as (-> & pr & Hpr & Hex & Hnk).
    split; simpl.
    - intros p' Hp'. rewrite Hp in Hp'. simplify_eq. split; [done|].
      rewrite lookup_alter_eq, Hpr. simpl. eexists. split; [done|]. simpl.
      split; [done|]. rewrite elem_of_app, list_elem_of_singleton. naive_solver.
    - intros id pr' Hpr'. rewrite lookup_alter in Hpr'.
      case_decide; [subst; by apply (I2 _ _ Hpr)|by apply (I2 _ _ Hpr')].
    - intros id pr' Hpr' Hne. rewrite lookup_alter_ne in Hpr' by congruence.
      by eapply I3.
    - intros pr' Hnone. congruence.
    - intros id pr' Hpr'. rewrite lookup_alter in Hpr'. case_decide; [subst|by eapply I5].
      rewrite Hpr in Hpr'. simplify_eq/=.
      rewrite elem_of_app, list_elem_of_singleton. naive_solver. }
  unfold Solo.on_message. destruct msg as [|prefix payload]; [done|].
  repeat case_match; try done; try (by apply Hcall).
  by apply (solo_inv_same st).
Qed.

Lemma solo_inv_resume cwd0 isdir sp st :
  Solo.inv st → Solo.inv (Solo.startSession_resume cwd0 isdir sp st).
Proof.
  intros Hinv. unfold Solo.startSession_resume. destruct isdir; cbn [negb];
    [|by apply solo_inv_sendControl].
  destruct (solo_killActive_spec st Hinv) as (Ea & Ei & Eo & _ & _ & _ & Hall).
  set (st1 := Solo.killActive st) in *. clearbody st1.
  destruct sp as [p|err]; apply solo_inv_sendControl; split; simpl.
  - intros p' [= <-]. split; [done|]. rewrite lookup_insert_eq.
    eexists. split; [done|]. split; [done|]. apply not_elem_of_nil.
  - intros id pr. rewrite lookup_insert. case_decide; [intros; subst; lia|].
    intros Hpr. destruct (Hall _ _ Hpr) as (_ & ? & _). lia.
  - intros id pr Hpr Hne. rewrite lookup_insert_ne in Hpr by congruence.
    by destruct (Hall _ _ Hpr).
  - done.
  - intros id pr. rewrite lookup_insert. case_decide.
    + intros [= <-]. simpl. by intros ?%elem_of_nil.
    + intros Hpr. by destruct (Hall _ _ Hpr) as (_ & _ & ?).
  - by rewrite Ea.
  - intros id pr Hpr. destruct (Hall _ _ Hpr) as (_ & ? & _). lia.
  - intros id pr Hpr _. by destruct (Hall _ _ Hpr).
  - intros pr _ Hpr. destruct (Hall _ _ Hpr) as (_ & ? & _). lia.
  - intros id pr Hpr. by destruct (Hall _ _ Hpr) as (_ & _ & ?).
Qed.

Lemma solo_inv_on_close st : Solo.inv st → Solo.inv (Solo.on_close st).
Proof.
  intros Hinv. unfold Solo.on_close.
  set (st0 := Solo.mkState _ _ _ false _ _).
  assert (Solo.inv st0) as Hinv0.
  { destruct Hinv as [I1 I2 I3 I4 I5]. by split. }
  destruct (solo_killActive_spec st0 Hinv0) as (Ea & Ei & Eo & _ & _ & _ & Hall).
  split.
  - by rewrite Ea.
  - intros id pr Hpr. destruct (Hall _ _ Hpr) as (_ & ? & _). by rewrite Ei.
  - intros id pr Hpr _. by destruct (Hall _ _ Hpr).
  - intros. by rewrite Eo.
  - intros id pr Hpr. by destruct (Hall _ _ Hpr) as (_ & _ & ?).
Qed.

Lemma solo_inv_on_exit id code st :
  Solo.inv st → Solo.inv (Solo.on_exit id code st).
Proof.
  intros Hinv. unfold Solo.on_exit.
  destruct (Solo.procs st !! id) as [p|] eqn:Hp; [|done].
  destruct Hinv as [I1 I2 I3 I4 I5].
  assert (∀ id' pr', alter Solo.pty_exit id (Solo.procs st) !! id' = Some pr' →
            ∃ pr, Solo.procs st !! id' = Some pr ∧ Solo.calls pr' = Solo.calls pr
                  ∧ (id' ≠ id → pr' = pr) ∧ (id' = id → Solo.exited pr' = true)) as Halt.
  { intros id' pr'. rewrite lookup_alter. case_decide; [subst|].
    - rewrite Hp. intros [= <-]. exists p. by split_and!.
    - intros Hpr. exists pr'. by split_and!. }
  case_decide as Hid.
  - split; simpl.
    + intros p' Hp'. destruct (I1 _ Hp') as (-> & pr & Hpr & ? & ?). split; [done|].
      exists pr. rewrite lookup_alter_ne by done. by split_and!.
    + intros id' pr' (pr & Hpr & _)%Halt. by eapply I2.
    + intros id' pr' Hpr' Hne. destruct (Halt _ _ Hpr') as (pr & Hpr & Hc & Hoth & Hex).
      destruct (decide (id' = id)) as [->|Hne']; [left; by apply Hex|].
      rewrite (Hoth Hne'). by eapply I3.
    + intros pr' Hnone Hpr'. rewrite lookup_alter_ne in Hpr' by done. by eapply I4.
    + intros id' pr' (pr & Hpr & -> & _)%Halt. by eapply I5.
  - simpl in Hid. subst id.
    assert (∀ m st0, Solo.procs (Solo.with_activePty None (Solo.sendControl m st0))
                     = Solo.procs st0
                     ∧ Solo.activeId (Solo.with_activePty None (Solo.sendControl m st0))
                       = Solo.activeId st0
                     ∧ Solo.readyOpen (Solo.with_activePty None (Solo.sendControl m st0))
                       = Solo.readyOpen st0) as Hsc.
    { intros m st0. unfold Solo.sendControl.
      by destruct (Solo.readyOpen st0) eqn:E; simpl; rewrite ?E. }
    match goal with |- Solo.inv (Solo.with_activePty None (Solo.sendControl ?m ?st0)) =>
      destruct (Hsc m st0) as (E1 & E2 & E3); split; rewrite ?E1, ?E2, ?E3; simpl
    end.
    + done.
    + intros id' pr' (pr & Hpr & _)%Halt. by eapply I2.
    + intros id' pr' Hpr' _. destruct (Halt _ _ Hpr') as (pr & Hpr & Hc & Hoth & Hex).
      destruct (decide (id' = Solo.activeId st)) as [->|Hne']; [left; by apply Hex|].
      rewrite (Hoth Hne'). apply (I3 _ _ Hpr). intros Ha.
      destruct (I1 _ Ha) as (? & _). done.
    + intros pr' _ Hpr' Hex. destruct (Halt _ _ Hpr') as (_ & _ & _ & _ & Hex').
      rewrite Hex' in Hex; done.
    + intros id' pr' (pr & Hpr & -> & _)%Halt. by eapply I5.
Qed.

Lemma solo_inv_handle parse e st :
  Solo.inv st → Solo.inv (Solo.handle parse e st).
Proof.
  intros Hinv. destruct e as [msg|cwd0 isdir sp| |id data|id code]; cbn [Solo.handle].
  - by apply solo_inv_on_message.
  - apply solo_inv_resume. by apply (solo_inv_same st).
  - by apply solo_inv_on_close.
  - unfold Solo.on_data. case_decide; [done|].
    destruct (Solo.readyOpen st) eqn:Ho; [|done]. by apply (solo_inv_same st).
  - by apply solo_inv_on_exit.
Qed.

Lemma solo_inv_run parse es st st' :
  Solo.inv st → Solo.run parse es st = Some st' → Solo.inv st'.
Proof.
  revert st. induction es as [|e es IH]; intros st Hinv Hrun; simpl in Hrun.
  - by simplify_eq.
  - destruct (Solo.enabled e st); [|done]. eapply IH; [|done]. by apply solo_inv_handle.
Qed.

Lemma solo_inv_reachable parse st : Solo.reachable parse st → Solo.inv st.
Proof. intros [es Hes]. eapply solo_inv_run; [apply solo_inv_initial|done]. Qed.

(** X21. With one process per connection, at any time at most one of
    the connection's processes is in use, the one [activePty] refers to:
    it was started by the latest [startSession], has not exited and was
    not killed; every other process the connection started has exited or
    was killed, and a killed process gets no further call. *)
Theorem solo_only_the_active_process_is_in_use parse st :
  Solo.reachable parse st →
  (∀ p, Solo.activePty st = Some p →
     p = Solo.activeId st
     ∧ ∃ pr, Solo.procs st !! p = Some pr ∧ Solo.exited pr = false
             ∧ PtyKill ∉ Solo.calls pr)
  ∧ (∀ id pr, Solo.procs st !! id = Some pr → Solo.activePty st ≠ Some id →
       Solo.exited pr = true ∨ PtyKill ∈ Solo.calls pr)
  ∧ (∀ id pr, Solo.procs st !! id = Some pr → PtyKill ∈ Solo.calls pr →
       last (Solo.calls pr) = Some PtyKill).
Proof.
  intros Hr. destruct (solo_inv_reachable _ _ Hr) as [I1 I2 I3 I4 I5]. by split_and!.
Qed.

Lemma solo_only_the_active_process_is_in_use_witness :
  let st := Solo.handle parse_plain_cwd
              (Solo.IsDirectory (of_ascii "/b") true (SpawnOk 8))
              (Solo.handle parse_plain_cwd (Solo.Message (select_frame "/b"))
                 (Solo.handle parse_plain_cwd
                    (Solo.IsDirectory (of_ascii "/a") true (SpawnOk 7))
                    (Solo.handle parse_plain_cwd (Solo.Message (select_frame "/a"))
                       Solo.handleConnection))) in
  Solo.activePty st = Some 2%nat
  ∧ Solo.calls <$> Solo.procs st !! 1%nat = Some [PtyKill].
Proof.
  cbv zeta.
  match goal with |- Solo.activePty ?st = _ ∧ _ =>
    destruct (solo_only_the_active_process_is_in_use parse_plain_cwd st) as (_ & Hoth & _)
  end.
  - exists [Solo.Message (select_frame "/a");
            Solo.IsDirectory (of_ascii "/a") true (SpawnOk 7);
            Solo.Message (select_frame "/b");
            Solo.IsDirectory (of_ascii "/b") true (SpawnOk 8)].
    vm_compute. reflexivity.
  - split; vm_compute; reflexivity.
Defined.

(** What a handler run does to a process that is not the active one. *)
Lemma solo_other_step parse e st id pr :
  Solo.inv st → Solo.procs st !! id = Some pr → Solo.activePty st ≠ Some id →
  ∃ pr', Solo.procs (Solo.handle parse e st) !! id = Some pr'
         ∧ Solo.calls pr' = Solo.calls pr
         ∧ Solo.activePty (Solo.handle parse e st) ≠ Some id.
Proof.
  intros Hinv Hpr Hna.
  assert (∀ st', Solo.procs st' = Solo.procs st → Solo.activePty st' = Solo.activePty st →
            ∃ pr', Solo.procs st' !! id = Some pr' ∧ Solo.calls pr' = Solo.calls pr
                   ∧ Solo.activePty st' ≠ Some id) as Hsame.
  { intros st' -> ->. by exists pr. }
  assert (∀ m st0, Solo.procs (Solo.sendControl m st0) = Solo.procs st0
                   ∧ Solo.activePty (Solo.sendControl m st0) = Solo.activePty st0) as Hsc.
  { intros m st0. unfold Solo.sendControl. by destruct (Solo.readyOpen st0). }
  assert (∀ st0, Solo.inv st0 → Solo.procs st0 = Solo.procs st →
            Solo.activePty st0 = Solo.activePty st → Solo.activeId st0 = Solo.activeId st →
            Solo.procs (Solo.killActive st0) !! id = Some pr
            ∧ Solo.activePty (Solo.killActive st0) = None
            ∧ Solo.activeId (Solo.killActive st0) = Solo.activeId st) as Hkill.
  { intros st0 Hinv0 Ep Ea Ei.
    destruct (solo_killActive_spec st0 Hinv0) as (Ea1 & Ei1 & _ & _ & _ & Hp1 & _).
    rewrite Hp1, Ea, decide_False, Ep, Hpr by done. split; [done|]. split; [done|].
    congruence. }
  destruct e as [msg|cwd0 isdir sp| |id' data|id' code]; cbn [Solo.handle].
  - unfold Solo.on_message. destruct msg as [|prefix payload]; [by apply Hsame|].
    repeat case_match; try (by apply Hsame); simpl;
      rewrite lookup_alter_ne by congruence; exists pr;
      match goal with H : Solo.activePty st = _ |- _ => by rewrite H end.
  - unfold Solo.startSession_resume. destruct isdir; cbn [negb].
    2:{ destruct (Hsc (Error (NotAValidDirectory cwd0))
                   (Solo.with_pending (remove_first cwd0) st)) as [-> ->]. by exists pr. }
    destruct (Hkill (Solo.with_pending (remove_first cwd0) st)) as (Hp1 & Ea1 & Ei1);
      try done.
    { by apply (solo_inv_same st). }
    set (st1 := Solo.killActive _) in *. clearbody st1.
    destruct sp as [p|err];
      match goal with |- context [Solo.sendControl ?m ?st0] =>
        destruct (Hsc m st0) as [-> ->]
      end; simpl.
    + pose proof (Solo.inv_ids _ Hinv _ _ Hpr) as Hid.
      rewrite lookup_insert_ne by lia. exists pr. split; [done|]. split; [done|].
      intros [= ?]. lia.
    + exists pr. split; [done|]. split; [done|]. by rewrite Ea1.
  - unfold Solo.on_close.
    match goal with |- context [Solo.killActive ?st0] =>
      destruct (Hkill st0) as (Hp1 & Ea1 & Ei1); try done
    end.
    { destruct Hinv as [I1 I2 I3 I4 I5]. by split. }
    exists pr. split; [done|]. split; [done|]. by rewrite Ea1.
  - unfold Solo.on_data. case_decide; [by exists pr|].
    destruct (Solo.readyOpen st); by exists pr.
  - unfold Solo.on_exit. destruct (Solo.procs st !! id') as [p'|] eqn:Hp'; [|by exists pr].
    assert (∃ pr', alter Solo.pty_exit id' (Solo.procs st) !! id = Some pr'
                   ∧ Solo.calls pr' = Solo.calls pr) as (pr' & Hpr' & Hc).
    { rewrite lookup_alter. case_decide; [subst|by exists pr].
      rewrite Hpr. by eexists. }
    case_decide.
    + exists pr'. by split_and!.
    + match goal with |- context [Solo.sendControl ?m ?st0] =>
        destruct (Hsc m st0) as [Hsp _]
      end.
      exists pr'. simpl. rewrite Hsp. by split_and!.
Qed.

(** X22. A process that is not the connection's active one stays out of
    the conversation for good: it never becomes active again, no write,
    resize or kill is made on it any more, and nothing it prints and no
    exit of it is reported to the client. *)
Theorem solo_replaced_process_is_muted parse es st st' id pr :
  Solo.reachable parse st →
  Solo.procs st !! id = Some pr → Solo.activePty st ≠ Some id →
  Solo.run parse es st = Some st' →
  Solo.activePty st' ≠ Some id
  ∧ (∃ pr', Solo.procs st' !! id = Some pr' ∧ Solo.calls pr' = Solo.calls pr)
  ∧ (∀ data, Solo.enabled (Solo.Data id data) st' = true →
       Solo.sent (Solo.handle parse (Solo.Data id data) st') = Solo.sent st')
  ∧ (∀ code, Solo.enabled (Solo.Exit id code) st' = true →
       Solo.sent (Solo.handle parse (Solo.Exit id code) st') = Solo.sent st').
Proof.
  intros Hr Hpr Hna Hrun. pose proof (solo_inv_reachable _ _ Hr) as Hinv. clear Hr.
  assert (Solo.inv st' ∧ Solo.activePty st' ≠ Some id
          ∧ ∃ pr', Solo.procs st' !! id = Some pr' ∧ Solo.calls pr' = Solo.calls pr)
    as (Hinv' & Hna' & pr' & Hpr' & Hc).
  { revert st pr Hinv Hpr Hna Hrun.
    induction es as [|e es IH]; intros st pr Hinv Hpr Hna Hrun; simpl in Hrun.
    - simplify_eq. split; [done|]. split; [done|]. by exists pr.
    - destruct (Solo.enabled e st); [|done].
      destruct (solo_other_step parse e st id pr Hinv Hpr Hna) as (pr1 & Hpr1 & Hc1 & Hna1).
      destruct (IH _ pr1 (solo_inv_handle parse e st Hinv) Hpr1 Hna1 Hrun)
        as (? & ? & pr' & ? & Hc').
      split; [done|]. split; [done|]. exists pr'. split; [done|]. congruence. }
  split; [done|]. split; [by exists pr'|].
  assert (id = Solo.activeId st' → Solo.exited pr' = false → Solo.readyOpen st' = false)
    as Hclosed.
  { intros -> Hex. destruct (Solo.activePty st') as [p|] eqn:Ea.
    - destruct (Solo.inv_active _ Hinv' _ Ea) as (-> & _). done.
    - by apply (Solo.inv_closed _ Hinv' pr'). }
  split.
  - intros data Hen. simpl in Hen. unfold Solo.proc_running in Hen. rewrite Hpr' in Hen.
    apply negb_true_iff in Hen. cbn [Solo.handle]. unfold Solo.on_data.
    case_decide as Hid; [done|]. simpl in Hid. by rewrite (Hclosed Hid Hen).
  - intros code Hen. simpl in Hen. unfold Solo.proc_running in Hen. rewrite Hpr' in Hen.
    apply negb_true_iff in Hen. cbn [Solo.handle]. unfold Solo.on_exit. rewrite Hpr'.
    case_decide as Hid; [done|]. simpl in Hid. simpl.
    unfold Solo.sendControl. simpl. by rewrite (Hclosed Hid Hen).
Qed.

Lemma solo_replaced_process_is_muted_witness :
  let st := Solo.handle parse_plain_cwd
              (Solo.IsDirectory (of_ascii "/b") true (SpawnOk 8))
              (Solo.handle parse_plain_cwd (Solo.Message (select_frame "/b"))
                 (Solo.handle parse_plain_cwd
                    (Solo.IsDirectory (of_ascii "/a") true (SpawnOk 7))
                    (Solo.handle parse_plain_cwd (Solo.Message (select_frame "/a"))
                       Solo.handleConnection))) in
  Solo.sent (Solo.handle parse_plain_cwd (Solo.Data 1 (of_ascii "late")) st) = Solo.sent st.
Proof.
  cbv zeta.
  match goal with |- Solo.sent (Solo.handle _ _ ?st) = _ =>
    destruct (solo_replaced_process_is_muted parse_plain_cwd [] st st 1%nat
                (Solo.mkProc 7 (of_ascii "/a") false [PtyKill]))
      as (_ & _ & Hdata & _)
  end.
  - exists [Solo.Message (select_frame "/a");
            Solo.IsDirectory (of_ascii "/a") true (SpawnOk 7);
            Solo.Message (select_frame "/b");
            Solo.IsDirectory (of_ascii "/b") true (SpawnOk 8)].
    vm_compute. reflexivity.
  - vm_compute. reflexivity.
  - vm_compute. discriminate.
  - reflexivity.
  - apply Hdata. vm_compute. reflexivity.
Defined.

(** ** After the socket has closed *)

Lemma solo_closed_idle_step parse e st :
  Solo.readyOpen st = false → Solo.pending st = [] → Solo.enabled e st = true →
  let st' := Solo.handle parse e st in
  Solo.readyOpen st' = false ∧ Solo.pending st' = [] ∧ Solo.sent st' = Solo.sent st
  ∧ (∀ id, Solo.procs st !! id = None → Solo.procs st' !! id = None)
  ∧ ∀ id pr, Solo.procs st !! id = Some pr →
      ∃ pr', Solo.procs st' !! id = Some pr' ∧ Solo.calls pr' = Solo.calls pr
             ∧ (Solo.exited pr = true → Solo.exited pr' = true).
Proof.
  intros Ho Hp Hen.
  destruct e as [msg|cwd0 isdir sp| |id' data|id' code]; simpl in Hen.
  - congruence.
  - rewrite Hp in Hen. apply bool_decide_eq_true in Hen. by apply elem_of_nil in Hen.
  - congruence.
  - cbn [Solo.handle]. unfold Solo.on_data. rewrite Ho.
    case_decide; (split_and!; [done..|]); intros id pr Hpr; by exists pr.
  - cbn [Solo.handle]. unfold Solo.on_exit.
    destruct (Solo.procs st !! id') as [p'|] eqn:Hp'.
    2:{ split_and!; try done. intros id pr Hpr; by exists pr. }
    assert (∀ st0, Solo.readyOpen st0 = false →
              ∀ m, Solo.with_activePty None (Solo.sendControl m st0)
                   = Solo.with_activePty None st0) as Hsc.
    { intros st0 Ho0 m. unfold Solo.sendControl. by rewrite Ho0. }
    assert (∀ id, Solo.procs st !! id = None →
              alter Solo.pty_exit id' (Solo.procs st) !! id = None) as Hnone.
    { intros id Hid. rewrite lookup_alter. case_decide; [subst|done]. by rewrite Hid. }
    assert (∀ id pr, Solo.procs st !! id = Some pr →
              ∃ pr', alter Solo.pty_exit id' (Solo.procs st) !! id = Some pr'
                     ∧ Solo.calls pr' = Solo.calls pr
                     ∧ (Solo.exited pr = true → Solo.exited pr' = true)) as Hsome.
    { intros id pr Hpr. rewrite lookup_alter. case_decide; [subst|by exists pr].
      rewrite Hpr. simpl. eexists. by split_and!. }
    case_decide; [by split_and!|].
    rewrite Hsc by done. by split_and!.
Qed.

Lemma solo_closed_idle_run parse es st st' :
  Solo.readyOpen st = false → Solo.pending st = [] → Solo.run parse es st = Some st' →
  Solo.readyOpen st' = false ∧ Solo.pending st' = [] ∧ Solo.sent st' = Solo.sent st
  ∧ (∀ id, Solo.procs st !! id = None → Solo.procs st' !! id = None)
  ∧ ∀ id pr, Solo.procs st !! id = Some pr →
      ∃ pr', Solo.procs st' !! id = Some pr' ∧ Solo.calls pr' = Solo.calls pr
             ∧ (Solo.exited pr = true → Solo.exited pr' = true).
Proof.
  revert st. induction es as [|e es IH]; intros st Ho Hp Hrun; simpl in Hrun.
  - simplify_eq. split_and!; try done. intros id pr Hpr. by exists pr.
  - destruct (Solo.enabled e st) eqn:Hen; [|done].
    destruct (solo_closed_idle_step parse e st Ho Hp Hen) as (Ho1 & Hp1 & Hs1 & Hn1 & Hsome1).
    destruct (IH _ Ho1 Hp1 Hrun) as (Ho2 & Hp2 & Hs2 & Hn2 & Hsome2).
    split_and!; try done; [congruence|by auto|].
    intros id pr Hpr. destruct (Hsome1 _ _ Hpr) as (pr1 & Hpr1 & Hc1 & He1).
    destruct (Hsome2 _ _ Hpr1) as (pr2 & Hpr2 & Hc2 & He2).
    exists pr2. split; [done|]. split; [congruence|auto].
Qed.

(** X23. Closing the socket kills the connection's process: after the
    close handler no process is active and every process the connection
    ever started has exited or was killed; when no [startSession] is
    waiting for [isDirectory] at that moment this stays so for ever, no
    further process is started and nothing is sent. *)
Theorem solo_close_kills_the_process parse st :
  Solo.reachable parse st → Solo.readyOpen st = true →
  let st1 := Solo.handle parse Solo.Close st in
  Solo.activePty st1 = None
  ∧ (∀ id pr, Solo.procs st1 !! id = Some pr →
       Solo.exited pr = true ∨ PtyKill ∈ Solo.calls pr)
  ∧ (Solo.pending st = [] →
     ∀ es st2, Solo.run parse es st1 = Some st2 →
       Solo.sent st2 = Solo.sent st
       ∧ ∀ id pr, Solo.procs st2 !! id = Some pr →
           is_Some (Solo.procs st !! id)
           ∧ (Solo.exited pr = true ∨ PtyKill ∈ Solo.calls pr)).
Proof.
  intros Hr Ho st1. pose proof (solo_inv_reachable _ _ Hr) as Hinv.
  assert (Solo.inv (Solo.mkState (Solo.activePty st) (Solo.activeId st) (Solo.procs st)
                      false (Solo.sent st) (Solo.pending st))) as Hinv0.
  { destruct Hinv as [I1 I2 I3 I4 I5]. by split. }
  destruct (solo_killActive_spec _ Hinv0) as (Ea & Ei & Eo & Es & Ep & Hp1 & Hall).
  change (Solo.killActive _) with st1 in *. simpl in Eo, Es, Ep, Hp1, Ei.
  split; [done|].
  split; [intros id pr Hpr; by destruct (Hall _ _ Hpr)|].
  intros Hpend es st2 Hrun.
  destruct (solo_closed_idle_run parse es st1 st2 Eo (eq_trans Ep Hpend) Hrun)
    as (_ & _ & Hs2 & Hn2 & Hsome2).
  split; [congruence|]. intros id pr Hpr.
  destruct (Solo.procs st1 !! id) as [pr1|] eqn:Hpr1.
  - destruct (Hsome2 _ _ Hpr1) as (pr2 & Hpr2 & Hc2 & He2). simplify_eq.
    split.
    + specialize (Hp1 id). rewrite Hpr1 in Hp1.
      destruct (Solo.procs st !! id); [by eexists|done].
    + destruct (Hall _ _ Hpr1) as ([Hex|Hk] & _); [left; auto|right; by rewrite Hc2].
  - rewrite (Hn2 _ Hpr1) in Hpr. done.
Qed.

Lemma solo_close_kills_the_process_witness :
  let st := Solo.handle parse_plain_cwd
              (Solo.IsDirectory (of_ascii "/a") true (SpawnOk 7))
              (Solo.handle parse_plain_cwd (Solo.Message (select_frame "/a"))
                 Solo.handleConnection) in
  Solo.calls <$> Solo.procs (Solo.handle parse_plain_cwd Solo.Close st) !! 1%nat
  = Some [PtyKill]
  ∧ Solo.activePty (Solo.handle parse_plain_cwd Solo.Close st) = None.
Proof.
  cbv zeta.
  match goal with |- _ ∧ Solo.activePty (Solo.handle _ _ ?st) = None =>
    destruct (solo_close_kills_the_process parse_plain_cwd st) as (Hnone & _)
  end.
  - exists [Solo.Message (select_frame "/a");
            Solo.IsDirectory (of_ascii "/a") true (SpawnOk 7)].
    vm_compute. reflexivity.
  - reflexivity.
  - split; [vm_compute; reflexivity|exact Hnone].
Defined.

(** X24. A [startSession] whose socket closes while it waits for
    [isDirectory] still spawns its process when the answer arrives, and
    when it is the only one waiting that process is never killed: the
    client is sent nothing, and in every continuation the process is
    there with no call ever made on it, so it runs until it exits by
    itself. *)
Theorem solo_process_spawned_after_close_is_never_killed parse st cwd0 p :
  Solo.reachable parse st → Solo.readyOpen st = false → Solo.pending st = [cwd0] →
  let st1 := Solo.handle parse (Solo.IsDirectory cwd0 true (SpawnOk p)) st in
  let id := S (Solo.activeId st) in
  Solo.enabled (Solo.IsDirectory cwd0 true (SpawnOk p)) st = true
  ∧ Solo.activePty st1 = Some id
  ∧ Solo.procs st !! id = None
  ∧ Solo.procs st1 !! id = Some (Solo.mkProc p cwd0 false [])
  ∧ Solo.sent st1 = Solo.sent st
  ∧ ∀ es st2, Solo.run parse es st1 = Some st2 →
      Solo.sent st2 = Solo.sent st
      ∧ ∃ pr, Solo.procs st2 !! id = Some pr ∧ Solo.calls pr = [].
Proof.
  intros Hr Ho Hp st1 id. pose proof (solo_inv_reachable _ _ Hr) as Hinv.
  assert (Solo.inv (Solo.with_pending (remove_first cwd0) st)) as Hinv0
    by (by apply (solo_inv_same st)).
  destruct (solo_killActive_spec _ Hinv0) as (Ea & Ei & Eo & Es & Ep & Hp1 & Hall).
  simpl in Ei, Eo, Es, Ep.
  assert (Solo.procs st !! id = None) as Hfresh.
  { destruct (Solo.procs st !! id) as [pr|] eqn:E; [|done].
    pose proof (Solo.inv_ids _ Hinv _ _ E). unfold id in *. lia. }
  assert (Solo.readyOpen st1 = false ∧ Solo.pending st1 = []
          ∧ Solo.sent st1 = Solo.sent st ∧ Solo.activePty st1 = Some id
          ∧ Solo.procs st1 !! id = Some (Solo.mkProc p cwd0 false []))
    as (Ho1 & Hp1' & Hs1 & Ha1 & Hpr1).
  { unfold st1. cbn [Solo.handle]. unfold Solo.startSession_resume. cbn [negb].
    set (st0 := Solo.killActive _) in *.
    unfold Solo.sendControl. cbn [Solo.readyOpen Solo.with_activePty Solo.with_procs].
    rewrite Eo, Ho. simpl. rewrite Ei, Es, Ep, Hp. simpl. rewrite decide_True by done.
    split_and!; try done. apply lookup_insert_eq. }
  split.
  { simpl. rewrite Hp. apply bool_decide_eq_true. by left. }
  split; [done|]. split; [done|]. split; [done|]. split; [done|].
  intros es st2 Hrun.
  destruct (solo_closed_idle_run parse es st1 st2 Ho1 Hp1' Hrun)
    as (_ & _ & Hs2 & _ & Hsome2).
  split; [congruence|].
  destruct (Hsome2 _ _ Hpr1) as (pr2 & Hpr2 & Hc2 & _). by exists pr2.
Qed.

Lemma solo_process_spawned_after_close_is_never_killed_witness :
  let st := Solo.handle parse_plain_cwd Solo.Close
              (Solo.handle parse_plain_cwd (Solo.Message (select_frame "/a"))
                 Solo.handleConnection) in
  Solo.activePty
    (Solo.handle parse_plain_cwd (Solo.IsDirectory (of_ascii "/a") true (SpawnOk 7)) st)
  = Some 1%nat.
Proof.
  cbv zeta.
  match goal with |- Solo.activePty (Solo.handle _ _ ?st) = _ =>
    destruct (solo_process_spawned_after_close_is_never_killed parse_plain_cwd st
                (of_ascii "/a") 7) as (_ & Hactive & _)
  end.
  - exists [Solo.Message (select_frame "/a"); Solo.Close]. vm_compute. reflexivity.
  - reflexivity.
  - vm_compute. reflexivity.
  - exact Hactive.
Defined.

(** X26. The two ways a [startSession] can fail differ in what becomes of
    the running process.  When the directory is not valid the error is
    reported and the active process is left as it is.  When [pty.spawn]
    throws, the active process has already been killed: the error is
    reported, no process is active any more, and keystrokes sent
    afterwards are dropped. *)
Theorem solo_failed_start_and_the_running_process parse st p cwd0 sp err :
  Solo.reachable parse st → Solo.activePty st = Some p → Solo.readyOpen st = true →
  let st1 := Solo.handle parse (Solo.IsDirectory cwd0 false sp) st in
  let st2 := Solo.handle parse (Solo.IsDirectory cwd0 true (SpawnThrows err)) st in
  (Solo.activePty st1 = Some p ∧ Solo.procs st1 = Solo.procs st
   ∧ Solo.sent st1 = Solo.sent st ++ [Ctl (Error (NotAValidDirectory cwd0))])
  ∧ (Solo.activePty st2 = None
     ∧ (∃ pr, Solo.procs st !! p = Some pr
              ∧ Solo.procs st2 !! p = Some (Solo.pty_call PtyKill pr))
     ∧ Solo.sent st2 = Solo.sent st ++ [Ctl (Error (FailedToStart err))]
     ∧ ∀ input, Solo.handle parse (Solo.Message (48%N :: input)) st2 = st2).
Proof.
  intros Hr Ha Ho st1 st2. pose proof (solo_inv_reachable _ _ Hr) as Hinv.
  destruct (Solo.inv_active _ Hinv _ Ha) as (-> & pr & Hpr & _).
  split.
  - unfold st1. cbn [Solo.handle]. unfold Solo.startSession_resume, Solo.sendControl.
    simpl. by rewrite Ho.
  - assert (Solo.activePty st2 = None
            ∧ Solo.procs st2 = alter (Solo.pty_call PtyKill) (Solo.activeId st) (Solo.procs st)
            ∧ Solo.sent st2 = Solo.sent st ++ [Ctl (Error (FailedToStart err))])
      as (Ea2 & Ep2 & Es2).
    { unfold st2. cbn [Solo.handle].
      unfold Solo.startSession_resume, Solo.killActive, Solo.sendControl.
      simpl. rewrite Ha. simpl. by rewrite Ho. }
    split; [done|]. split.
    { exists pr. split; [done|]. by rewrite Ep2, lookup_alter_eq, Hpr. }
    split; [done|]. intros input. cbn [Solo.handle]. unfold Solo.on_message.
    cbn [N.eqb Pos.eqb]. by rewrite Ea2.
Qed.

Lemma solo_failed_start_and_the_running_process_witness :
  let st := Solo.handle parse_plain_cwd
              (Solo.Message (select_frame "/b"))
              (Solo.handle parse_plain_cwd
                 (Solo.IsDirectory (of_ascii "/a") true (SpawnOk 7))
                 (Solo.handle parse_plain_cwd (Solo.Message (select_frame "/a"))
                    Solo.handleConnection)) in
  Solo.activePty
    (Solo.handle parse_plain_cwd
       (Solo.IsDirectory (of_ascii "/b") true (SpawnThrows (of_ascii "ENOENT"))) st)
  = None.
Proof.
  cbv zeta.
  match goal with |- Solo.activePty (Solo.handle _ _ ?st) = _ =>
    destruct (solo_failed_start_and_the_running_process parse_plain_cwd st 1%nat
                (of_ascii "/b") (SpawnOk 0) (of_ascii "ENOENT")) as (_ & Hnone & _)
  end.
  - exists [Solo.Message (select_frame "/a");
            Solo.IsDirectory (of_ascii "/a") true (SpawnOk 7);
            Solo.Message (select_frame "/b")].
    vm_compute. reflexivity.
  - reflexivity.
  - reflexivity.
  - exact Hnone.
Defined.
